(** * TrafficModels: the dynamic traffic-signal controller

    A shallow embedding of [algorithm.py] (class [DynamicTrafficController]),
    of the request handler of [algo_api.py] that registers lanes and calls the
    controller, and of [aggregate_counts] of [model_api.py].

    Conventions of the embedding.
    - Python [int] is [Z]; Python [float] is an exact rational [Q]. Of
      binary64 the model keeps the range, where the code raises on it:
      converting an [int] beyond the float range to [float], and a float
      product beyond it to [int], raise [OverflowError]. Rounding,
      infinities and NaN are outside the model; the statements proved on it
      are those that rounding leaves alone. Where rounding decides, in the
      order of two fairness scores, the scores and the selector are given a
      second time in binary64 (module [Binary64]).
    - A Python [dict] is an insertion-ordered association list ([Dict.t]):
      iteration order is observable in the code ([max] over [scores], the
      list of emergency lanes, the order of the aggregated counts).
    - A method that mutates [self] is an action of the monad [M], a state
      transformer that may raise; on a raise the controller keeps the
      mutations made so far, as a Python object does.
    - [time.time()] and [random.randint] are inputs of a call, gathered in
      the record [Env]. *)

From Stdlib Require Import ZArith QArith Qabs Qminmax String Ascii List Bool Lia.
From Stdlib Require Import DecimalString DecimalNat Permutation SpecFloat.
Import ListNotations.

Set Implicit Arguments.

Local Open Scope string_scope.
Local Open Scope Z_scope.

(** ** Python dictionaries with string keys *)

Module Dict.

Section Ops.
Variable V : Type.

Definition t := list (string * V).

Definition empty : t := [].

(** [d.get(k)]; [None] stands for an absent key. *)
Fixpoint get (k : string) (d : t) : option V :=
  match d with
  | [] => None
  | (k', v) :: d' => if String.eqb k k' then Some v else get k d'
  end.

(** [d[k] = v]: an existing key keeps its position, a new key is appended. *)
Fixpoint set (k : string) (v : V) (d : t) : t :=
  match d with
  | [] => [(k, v)]
  | (k', v') :: d' =>
      if String.eqb k k' then (k, v) :: d' else (k', v') :: set k v d'
  end.

(** [list(d)]: the keys in insertion order. *)
Definition keys (d : t) : list string := map fst d.

(** [k in d]. *)
Definition mem (k : string) (d : t) : bool :=
  match get k d with Some _ => true | None => false end.
End Ops.

Arguments empty {V}.

End Dict.

(** [x in l] for a list of strings. *)
Definition str_in (x : string) (l : list string) : bool :=
  existsb (String.eqb x) l.

(** [l.index(x)], for [x in l]: the position of the first occurrence. *)
Fixpoint index (x : string) (l : list string) : nat :=
  match l with
  | [] => O
  | y :: l' => if String.eqb x y then O else S (index x l')
  end.

(** ** Exceptions and the controller monad *)

Inductive exn : Type :=
| KeyError (k : string)
| IndexError
| ValueError
| ZeroDivisionError
| OverflowError
| OtherError (name : string).

Inductive result (A : Type) : Type :=
| Ok (a : A)
| Raise (e : exn).

Arguments Ok {A} a.
Arguments Raise {A} e.

Definition rbind {A B} (r : result A) (k : A -> result B) : result B :=
  match r with
  | Ok a => k a
  | Raise e => Raise e
  end.

(** [d[k]]: raises [KeyError] on an absent key. *)
Definition item {V} (k : string) (d : Dict.t V) : result V :=
  match Dict.get k d with
  | Some v => Ok v
  | None => Raise (KeyError k)
  end.

(** ** Data model *)

(** The one-hot list stored under ["state"]. *)
Inductive Phase : Type := Red | Yellow | Green.

Definition one_hot (p : Phase) : list Z :=
  match p with
  | Red => [1; 0; 0]
  | Yellow => [0; 1; 0]
  | Green => [0; 0; 1]
  end.

(** An entry of [self.lanes]. *)
Record Lane : Type := mkLane {
  normal : Z;
  emergency : Z;
  wait : Z;
  state : Phase
}.

Definition set_wait (w : Z) (l : Lane) : Lane :=
  mkLane (normal l) (emergency l) w (state l).

Definition set_state (p : Phase) (l : Lane) : Lane :=
  mkLane (normal l) (emergency l) (wait l) p.

Definition set_normal (n : Z) (l : Lane) : Lane :=
  mkLane n (emergency l) (wait l) (state l).

(** An element of [lanes_data], the argument of [update]. *)
Record Reading : Type := mkReading {
  lane_id : string;
  r_normal : Z;
  r_emergency : Z
}.

(** An entry of the working snapshot [data] built by [update]. *)
Record Entry : Type := mkEntry {
  d_normal : Z;
  d_emergency : Z;
  d_wait : Z
}.

Definition Data := Dict.t Entry.

(** An entry of the report returned by [update]; ["green_time"] is present
    only where [update] adds it. *)
Record ReportEntry : Type := mkReportEntry {
  rep_state : Phase;
  rep_wait : Z;
  rep_green_time : option Q
}.

Definition Report := Dict.t ReportEntry.

(** The attributes of a [DynamicTrafficController]. *)
Record Controller : Type := mkController {
  lane_ids : list string;
  lanes : Dict.t Lane;
  current_green : option string;
  green_started_at : option Q;
  current_green_time : Q;
  last_emergency_lane : option string;
  yellow_time : Q;
  min_green : Q;
  max_green : Q;
  wait_boost : Q;
  starvation_limit : Z;
  clearance_rate : Q;
  debug : bool
}.

Definition with_lanes (ls : Dict.t Lane) (c : Controller) : Controller :=
  mkController (lane_ids c) ls (current_green c) (green_started_at c)
    (current_green_time c) (last_emergency_lane c) (yellow_time c)
    (min_green c) (max_green c) (wait_boost c) (starvation_limit c)
    (clearance_rate c) (debug c).

Definition with_lane_ids (ids : list string) (c : Controller) : Controller :=
  mkController ids (lanes c) (current_green c) (green_started_at c)
    (current_green_time c) (last_emergency_lane c) (yellow_time c)
    (min_green c) (max_green c) (wait_boost c) (starvation_limit c)
    (clearance_rate c) (debug c).

Definition with_green (g : option string) (t : option Q) (c : Controller)
  : Controller :=
  mkController (lane_ids c) (lanes c) g t
    (current_green_time c) (last_emergency_lane c) (yellow_time c)
    (min_green c) (max_green c) (wait_boost c) (starvation_limit c)
    (clearance_rate c) (debug c).

Definition with_green_time (gt : Q) (c : Controller) : Controller :=
  mkController (lane_ids c) (lanes c) (current_green c) (green_started_at c)
    gt (last_emergency_lane c) (yellow_time c)
    (min_green c) (max_green c) (wait_boost c) (starvation_limit c)
    (clearance_rate c) (debug c).

Definition with_last_emergency (l : option string) (c : Controller)
  : Controller :=
  mkController (lane_ids c) (lanes c) (current_green c) (green_started_at c)
    (current_green_time c) l (yellow_time c)
    (min_green c) (max_green c) (wait_boost c) (starvation_limit c)
    (clearance_rate c) (debug c).

(** The state monad of a controller, with exceptions. *)
Definition M (A : Type) : Type := Controller -> result A * Controller.

Definition ret {A} (a : A) : M A := fun self => (Ok a, self).

Definition bind {A B} (m : M A) (k : A -> M B) : M B :=
  fun self =>
    match m self with
    | (Ok a, self') => k a self'
    | (Raise e, self') => (Raise e, self')
    end.

Definition lift {A} (r : result A) : M A := fun self => (r, self).

Definition gets {A} (f : Controller -> A) : M A := fun self => (Ok (f self), self).

Definition modify (f : Controller -> Controller) : M unit :=
  fun self => (Ok tt, f self).

Declare Scope py_scope.
Delimit Scope py_scope with py.

Notation "x <- m ;; k" := (bind m (fun x => k))
  (at level 100, m at next level, right associativity) : py_scope.
Notation "m ;;; k" := (bind m (fun _ => k))
  (at level 100, right associativity) : py_scope.
Notation "x <~ r ;; k" := (rbind r (fun x => k))
  (at level 100, r at next level, right associativity) : py_scope.

(** [for x in l: body(x)]. *)
Fixpoint for_each {X} (l : list X) (body : X -> M unit) : M unit :=
  match l with
  | [] => ret tt
  | x :: l' => bind (body x) (fun _ => for_each l' body)
  end.

(** What a call of [update] reads from outside the controller. *)
Record Env : Type := mkEnv {
  (** the value of [time.time()] in [update], when the elapsed time is computed *)
  now_check : Q;
  (** the value of [time.time()] in [_apply_yellow] *)
  now_start : Q;
  (** the [k]-th value of [random.randint(0, 3)] drawn by [_simulate_flow] *)
  randint : nat -> Z
}.

(** ** Python arithmetic on the model's numbers *)

(** [x < y] on floats. *)
Definition Qltb (x y : Q) : bool := negb (Qle_bool y x).

(** [max(a, b)]: the first argument unless the second is greater. *)
Definition py_max (a b : Q) : Q := if Qltb a b then b else a.

(** [min(a, b)]: the first argument unless the second is smaller. *)
Definition py_min (a b : Q) : Q := if Qltb b a then b else a.

(** The magnitudes binary64 holds: a number converts to a finite float when
    rounding to nearest does not reach [2^1024], that is, below
    [2^1024 - 2^970]. *)
Definition float_limit : Z := 2 ^ 1024 - 2 ^ 970.

Definition in_float_range (n : Z) : bool := Z.abs n <? float_limit.

(** The conversion of an [int] operand of [int * float] and [int / float]:
    [OverflowError] ("int too large to convert to float") out of range. *)
Definition to_float (n : Z) : result Q :=
  if in_float_range n then Ok (inject_Z n) else Raise OverflowError.

(** A float product that does not overflow to infinity. *)
Definition finite_float (x : Q) : bool :=
  Qltb (Qabs x) (inject_Z float_limit).

(** [int(x)] of a float: truncation toward zero. *)
Definition int_of_float (x : Q) : Z := Z.quot (Qnum x) (Zpos (Qden x)).

(** [int(x)] with its failure: [OverflowError] on an infinity. *)
Definition py_int (x : Q) : result Z :=
  if finite_float x then Ok (int_of_float x) else Raise OverflowError.

(** [max(xs)] of a non-empty iterable of ints, [x] its first element. *)
Definition py_max_Z (x : Z) (xs : list Z) : Z :=
  fold_left (fun best y => if best <? y then y else best) xs x.

(** [max(l, key=key)]: the first element whose key is maximal;
    [ValueError] on an empty iterable. *)
Definition py_max_by (key : string -> Q) (l : list string) : result string :=
  match l with
  | [] => Raise ValueError
  | x :: xs =>
      Ok (fold_left (fun best y => if Qltb (key best) (key y) then y else best) xs x)
  end.

(** Truthiness of [self.current_green] and of a chosen lane: [None] and the
    empty string are false. *)
Definition truthy_lane (o : option string) : bool :=
  match o with
  | Some s => negb (String.eqb s "")
  | None => false
  end.

(** Truthiness of [self.green_started_at]: [None] and [0.0] are false. *)
Definition truthy_time (o : option Q) : bool :=
  match o with
  | Some t => negb (Qeq_bool t 0)
  | None => false
  end.

(** ** [DynamicTrafficController.__init__] *)

(** [f"Lane_{i+1}"]. *)
Definition lane_name (i : nat) : string :=
  "Lane_" ++ NilEmpty.string_of_uint (Nat.to_uint (S i)).

Definition fresh_lane : Lane := mkLane 0 0 0 Red.

(** [{lane: {...} for lane in ids}]. *)
Definition fresh_lanes (ids : list string) : Dict.t Lane :=
  fold_left (fun d lane => Dict.set lane fresh_lane d) ids Dict.empty.

Definition __init__ (N : nat) (yellow_time min_green max_green wait_boost : Q)
    (starvation_limit : Z) (clearance_rate : Q) (debug : bool) : Controller :=
  let ids := map lane_name (seq 0 N) in
  mkController ids (fresh_lanes ids) None None min_green None
    yellow_time min_green max_green wait_boost starvation_limit
    clearance_rate debug.

(** The constructor with its default arguments. *)
Definition init_default (N : nat) : Controller :=
  __init__ N 2 3 15 (4 # 10) 8 3 true.

(** ** [_choose_emergency_lane] *)

(** [data[l]["emergency"]] for a key [l] of [data]. *)
Definition emergency_at (data : Data) (l : string) : Z :=
  match Dict.get l data with
  | Some e => d_emergency e
  | None => 0
  end.

(** The [for i in range(len(self.lane_ids))] loop: the first lane of
    [lane_ids[(start + i) % len]], [i = 0, 1, ...], that is in [tied];
    [None] when the loop ends without [break]. *)
Definition circular_scan (ids tied : list string) (start : nat) : option string :=
  find (fun lane => str_in lane tied)
    (map (fun i => nth ((start + i) mod length ids) ids "")
       (seq 0 (length ids))).

(** Where the scan starts. The modulus is not zero where it is computed:
    [self.last_emergency_lane] is then an element of [lane_ids]. *)
Definition scan_start (self : Controller) : nat :=
  match last_emergency_lane self with
  | Some l =>
      if str_in l (lane_ids self)
      then ((index l (lane_ids self) + 1) mod length (lane_ids self))%nat
      else O
  | None => O
  end.

Definition emergencies_of (data : Data) : list string :=
  filter (fun l => 0 <? emergency_at data l) (Dict.keys data).

Definition tied_of (data : Data) (emergencies : list string) (max_count : Z)
  : list string :=
  filter (fun l => emergency_at data l =? max_count) emergencies.

Definition _choose_emergency_lane (data : Data) : M (option string) :=
  fun self =>
    match emergencies_of data with
    | [] => (Ok None, self)
    | e0 :: es =>
        let max_count :=
          py_max_Z (emergency_at data e0) (map (emergency_at data) es) in
        let tied := tied_of data (e0 :: es) max_count in
        let chosen : result string :=
          match tied with
          | [c] => Ok c
          | _ =>
              match circular_scan (lane_ids self) tied (scan_start self) with
              | Some lane => Ok lane
              | None =>
                  match tied with
                  | c :: _ => Ok c
                  | [] => Raise IndexError
                  end
              end
          end in
        match chosen with
        | Ok c => (Ok (Some c), with_last_emergency (Some c) self)
        | Raise e => (Raise e, self)
        end
    end.

(** ** [_choose_normal_lane] *)

(** The score [n * (1 + w * self.wait_boost)], plus 1000 on starvation,
    without rounding: two scores that binary64 separates by rounding alone
    are equal here. The score with every operation rounded is
    [Binary64.score] below. *)
Definition score (self : Controller) (e : Entry) : Q :=
  let s := (inject_Z (d_normal e) * (1 + inject_Z (d_wait e) * wait_boost self))%Q in
  if starvation_limit self <=? d_wait e then (s + 1000)%Q else s.

(** The score as the loop body computes it: [w * self.wait_boost] converts
    [w] to float and [n * (...)] converts [n], each with [OverflowError]
    beyond the float range. *)
Definition compute_score (self : Controller) (e : Entry) : result Q :=
  rbind (to_float (d_wait e)) (fun _ =>
  rbind (to_float (d_normal e)) (fun _ =>
  Ok (score self e))).

(** The loop filling [scores]. *)
Fixpoint build_scores (self : Controller) (data : Data) (ids : list string)
    (scores : Dict.t Q) : result (Dict.t Q) :=
  match ids with
  | [] => Ok scores
  | lane :: ids' =>
      match rbind (item lane data) (compute_score self) with
      | Ok sc => build_scores self data ids' (Dict.set lane sc scores)
      | Raise x => Raise x
      end
  end.

(** [scores.get] on a key of [scores]. *)
Definition scores_get (scores : Dict.t Q) (k : string) : Q :=
  match Dict.get k scores with
  | Some q => q
  | None => 0
  end.

Definition _choose_normal_lane (self : Controller) (data : Data) : result string :=
  match build_scores self data (lane_ids self) Dict.empty with
  | Ok scores => py_max_by (scores_get scores) (Dict.keys scores)
  | Raise x => Raise x
  end.

(** ** [_calculate_green_time] *)

Definition base_time (self : Controller) (lane_data : Entry) : Q :=
  let clear_time := (inject_Z (d_normal lane_data) / clearance_rate self)%Q in
  let wait_bonus := (inject_Z (d_wait lane_data) * (4 # 10))%Q in
  let emergency_bonus := (inject_Z (d_emergency lane_data) * 2)%Q in
  (clear_time + wait_bonus + emergency_bonus)%Q.

(** [normal / self.clearance_rate] converts [normal] to float and then
    raises when [clearance_rate] is zero; [wait * 0.4] and
    [emergency * 2.0] convert [wait] and [emergency]. *)
Definition _calculate_green_time (self : Controller) (lane_data : Entry)
  : result Q :=
  rbind (to_float (d_normal lane_data)) (fun _ =>
  if Qeq_bool (clearance_rate self) 0 then Raise ZeroDivisionError
  else
    rbind (to_float (d_wait lane_data)) (fun _ =>
    rbind (to_float (d_emergency lane_data)) (fun _ =>
    Ok (py_max (min_green self)
          (py_min (base_time self lane_data) (max_green self)))))).

(** ** [_apply_yellow] and [_update_waits] *)

(** [self.lanes[lane][field] = ...], written as a function of the old entry. *)
Definition set_lane_field (lane : string) (f : Lane -> Lane) : M unit :=
  fun self =>
    match Dict.get lane (lanes self) with
    | Some l => (Ok tt, with_lanes (Dict.set lane (f l) (lanes self)) self)
    | None => (Raise (KeyError lane), self)
    end.

Definition _apply_yellow (to_green : string) (now : Q) : M unit :=
  (ids <- gets lane_ids ;;
   for_each ids (fun lane =>
     if String.eqb lane to_green
     then set_lane_field lane (set_state Yellow)
     else set_lane_field lane (set_state Red)) ;;;
   set_lane_field to_green (set_state Green) ;;;
   modify (with_green (Some to_green) (Some now)))%py.

Definition _update_waits (chosen : string) : M unit :=
  (ids <- gets lane_ids ;;
   for_each ids (fun lane =>
     if String.eqb lane chosen
     then set_lane_field lane (set_wait 0)
     else set_lane_field lane (fun l => set_wait (wait l + 1) l)))%py.

(** ** [_simulate_flow] *)

Definition entry_set_normal (n : Z) (e : Entry) : Entry :=
  mkEntry n (d_emergency e) (d_wait e).

(** The arrivals loop; [k] counts the draws of [random.randint] so far. *)
Fixpoint arrivals (rand : nat -> Z) (chosen : string) (ids : list string)
    (k : nat) (data : Data) : result Data :=
  match ids with
  | [] => Ok data
  | lane :: ids' =>
      if String.eqb lane chosen then arrivals rand chosen ids' k data
      else
        match item lane data with
        | Ok e =>
            arrivals rand chosen ids' (S k)
              (Dict.set lane (entry_set_normal (d_normal e + rand k) e) data)
        | Raise x => Raise x
        end
  end.

(** [int(self.clearance_rate * green_time)] is taken here of the exact
    product; in binary64 the product is rounded first, which moves the
    integer part by one when the exact product is an integer and the
    rounded one falls just below it. What is proved of the cleared vehicles
    does not depend on it: they are at most the queue, and not negative
    for non-negative constants. *)
Definition _simulate_flow (self : Controller) (rand : nat -> Z) (data : Data)
    (chosen : string) (green_time : Q) : result Data :=
  (e <~ item chosen data ;;
   let normal := d_normal e in
   units <~ py_int (clearance_rate self * green_time)%Q ;;
   let cleared := Z.min normal units in
   let data := Dict.set chosen (entry_set_normal (normal - cleared) e) data in
   arrivals rand chosen (lane_ids self) O data)%py.

(** ** [update] *)

(** The dict comprehension that builds [data]: the counts of the readings
    with the stored wait counter of each lane. *)
Fixpoint merge (ls : Dict.t Lane) (lanes_data : list Reading) (data : Data)
  : result Data :=
  match lanes_data with
  | [] => Ok data
  | d :: rest =>
      match item (lane_id d) ls with
      | Ok l =>
          merge ls rest
            (Dict.set (lane_id d) (mkEntry (r_normal d) (r_emergency d) (wait l)) data)
      | Raise x => Raise x
      end
  end.

(** Step 2 of [update], taken when the emergency chooser gave nothing truthy:
    keep the current green lane while its time has not elapsed, else ask
    [_choose_normal_lane]. The test [self.current_green and
    self.green_started_at] is false when either is [None], and also when the
    lane id is the empty string or the start instant is [0.0]. *)
Definition choose_without_emergency (env : Env) (data : Data) : M string :=
  fun self =>
    match current_green self, green_started_at self with
    | Some g, Some t0 =>
        if truthy_lane (Some g) && truthy_time (Some t0) then
          let elapsed := (now_check env - t0)%Q in
          if Qltb elapsed (current_green_time self) then (Ok g, self)
          else (_choose_normal_lane self data, self)
        else (_choose_normal_lane self data, self)
    | _, _ => (_choose_normal_lane self data, self)
    end.

(** Steps 1 and 2 of [update]. *)
Definition choose (env : Env) (data : Data) : M string :=
  (chosen <- _choose_emergency_lane data ;;
   match chosen with
   | Some c => if truthy_lane (Some c) then ret c else choose_without_emergency env data
   | None => choose_without_emergency env data
   end)%py.

(** Step 7: [self.lanes[lane]["normal"] = data[lane]["normal"]]. *)
Definition store_queues (data : Data) : M unit :=
  (ids <- gets lane_ids ;;
   for_each ids (fun lane =>
     e <- lift (item lane data) ;;
     set_lane_field lane (set_normal (d_normal e))))%py.

(** The loop filling [output]. *)
Fixpoint build_output (ls : Dict.t Lane) (ids : list string) (output : Report)
  : result Report :=
  match ids with
  | [] => Ok output
  | lane :: ids' =>
      match item lane ls with
      | Ok l =>
          build_output ls ids'
            (Dict.set lane (mkReportEntry (state l) (wait l) None) output)
      | Raise x => Raise x
      end
  end.

(** [output[self.current_green]["green_time"] = self.current_green_time]. *)
Definition add_green_time (self : Controller) (output : Report) : result Report :=
  match current_green self with
  | Some g =>
      (r <~ item g output ;;
       Ok (Dict.set g
             (mkReportEntry (rep_state r) (rep_wait r) (Some (current_green_time self)))
             output))%py
  | None => Raise (KeyError "None")
  end.

Definition update (env : Env) (lanes_data : list Reading) : M Report :=
  (ls <- gets lanes ;;
   data <- lift (merge ls lanes_data Dict.empty) ;;
   chosen <- choose env data ;;
   _update_waits chosen ;;;
   self <- gets (fun s => s) ;;
   green_time <- lift (rbind (item chosen data) (_calculate_green_time self)) ;;
   modify (with_green_time green_time) ;;;
   _apply_yellow chosen (now_start env) ;;;
   self <- gets (fun s => s) ;;
   data <- lift (_simulate_flow self (randint env) data chosen (current_green_time self)) ;;
   store_queues data ;;;
   self <- gets (fun s => s) ;;
   output <- lift (build_output (lanes self) (lane_ids self) Dict.empty) ;;
   lift (add_green_time self output))%py.

(** ** The fairness scores in binary64 *)

(** [_choose_normal_lane] once more, with the scores as the code computes
    them: IEEE 754 binary64, every operation rounded to nearest-even
    (the operations of [SpecFloat] at precision 53). The selector reads two
    fields of [self], [wait_boost] (a float) and [starvation_limit], and
    the list of lanes. *)
Module Binary64.

Definition prec : Z := 53.
Definition emax : Z := 1024.

Definition mul : spec_float -> spec_float -> spec_float := SFmul prec emax.
Definition add : spec_float -> spec_float -> spec_float := SFadd prec emax.
Definition div : spec_float -> spec_float -> spec_float := SFdiv prec emax.

(** The float nearest to an integer. *)
Definition nearest (n : Z) : spec_float := binary_normalize prec emax n 0 false.

(** The conversion of an [int] operand: the nearest float, [OverflowError]
    when that is an infinity. *)
Definition of_int (n : Z) : result spec_float :=
  match nearest n with
  | S754_infinity _ => Raise OverflowError
  | f => Ok f
  end.

(** The literal [0.4], the default of [wait_boost]. *)
Definition zero_point_four : spec_float := div (nearest 4) (nearest 10).

(** [score = n * (1 + w * self.wait_boost)], then [score += 1000] when
    [w >= self.starvation_limit]. *)
Definition score (wait_boost : spec_float) (starvation_limit : Z) (e : Entry)
  : result spec_float :=
  rbind (of_int (d_wait e)) (fun w =>
  let x := add (nearest 1) (mul w wait_boost) in
  rbind (of_int (d_normal e)) (fun n =>
  let score := mul n x in
  Ok (if starvation_limit <=? d_wait e then add score (nearest 1000) else score))).

Fixpoint build_scores (wait_boost : spec_float) (starvation_limit : Z)
    (data : Data) (ids : list string) (scores : Dict.t spec_float)
  : result (Dict.t spec_float) :=
  match ids with
  | [] => Ok scores
  | lane :: ids' =>
      match rbind (item lane data) (score wait_boost starvation_limit) with
      | Ok sc =>
          build_scores wait_boost starvation_limit data ids' (Dict.set lane sc scores)
      | Raise x => Raise x
      end
  end.

(** [scores.get] on a key of [scores]. *)
Definition scores_get (scores : Dict.t spec_float) (k : string) : spec_float :=
  match Dict.get k scores with
  | Some f => f
  | None => S754_nan
  end.

(** [max(l, key=key)] on float keys: an element replaces the best so far
    when its key is greater, which is never the case of a NaN. *)
Definition py_max_by (key : string -> spec_float) (l : list string) : result string :=
  match l with
  | [] => Raise ValueError
  | x :: xs =>
      Ok (fold_left (fun best y => if SFltb (key best) (key y) then y else best) xs x)
  end.

Definition _choose_normal_lane (wait_boost : spec_float) (starvation_limit : Z)
    (lane_ids : list string) (data : Data) : result string :=
  match build_scores wait_boost starvation_limit data lane_ids Dict.empty with
  | Ok scores => py_max_by (scores_get scores) (Dict.keys scores)
  | Raise x => Raise x
  end.

(** The score of a lane of the snapshot, where it is computed. *)
Definition lane_score (wait_boost : spec_float) (starvation_limit : Z)
    (data : Data) (lane : string) : spec_float :=
  match rbind (item lane data) (score wait_boost starvation_limit) with
  | Ok f => f
  | Raise _ => S754_nan
  end.

Definition is_nan (f : spec_float) : bool :=
  match f with
  | S754_nan => true
  | _ => false
  end.

Definition is_finite (f : spec_float) : bool :=
  match f with
  | S754_zero _ | S754_finite _ _ _ => true
  | _ => false
  end.

(** [c] is the first element of [l] whose key is greatest: greater than
    the key of every element before it, at least the key of every element
    after it. *)
Definition first_maximal (key : string -> spec_float) (l : list string)
    (c : string) : Prop :=
  exists pre post,
    l = (pre ++ c :: post)%list /\
    (forall x, In x pre -> SFltb (key x) (key c) = true) /\
    (forall x, In x post -> SFleb (key x) (key c) = true).

(** The order of the comparisons, read off a triple of integers: the class
    (infinities, negative, zero, positive), then the exponent, then the
    mantissa, the last two negated for a negative number. *)
Definition rank (f : spec_float) : Z * (Z * Z) :=
  match f with
  | S754_nan => (0, (0, 0))
  | S754_infinity true => (-2, (0, 0))
  | S754_infinity false => (2, (0, 0))
  | S754_zero _ => (0, (0, 0))
  | S754_finite false m e => (1, (e, Zpos m))
  | S754_finite true m e => (-1, (- e, Zneg m))
  end.

Definition lex_lt (a b : Z * (Z * Z)) : Prop :=
  fst a < fst b \/
  (fst a = fst b /\
   (fst (snd a) < fst (snd b) \/
    (fst (snd a) = fst (snd b) /\ snd (snd a) < snd (snd b)))).

Definition lex_le (a b : Z * (Z * Z)) : Prop :=
  fst a < fst b \/
  (fst a = fst b /\
   (fst (snd a) < fst (snd b) \/
    (fst (snd a) = fst (snd b) /\ snd (snd a) <= snd (snd b)))).

(** Two lanes whose exact scores are equal, [11 * (1 + 1 * 0.4)] and
    [7 * (1 + 3 * 0.4)]. *)
Definition tied_lanes : Data :=
  [("Lane_1", mkEntry 11 0 1); ("Lane_2", mkEntry 7 0 3)].

End Binary64.

(** ** The request handler of [algo_api.py] *)

(** The module globals [controller] and [current_lanes]. *)
Record Server : Type := mkServer {
  controller : option Controller;
  current_lanes : list string
}.

Definition server0 : Server := mkServer None [].

(** [set(a) != set(b)]. *)
Definition set_neq (a b : list string) : bool :=
  negb (forallb (fun x => str_in x b) a && forallb (fun x => str_in x a) b).

(** The controller installed for a new lane set. *)
Definition register (incoming_lanes : list string) : Controller :=
  let c := __init__ (length incoming_lanes) 2 3 12 (4 # 10) 8 (25 # 10) false in
  with_lanes (fresh_lanes incoming_lanes) (with_lane_ids incoming_lanes c).

(** [update_signal]: the result of [controller.update] and the globals after
    the call. *)
Definition update_signal (env : Env) (input_data : list Reading) (srv : Server)
  : result Report * Server :=
  let incoming_lanes := map lane_id input_data in
  let srv' :=
    match controller srv with
    | None => mkServer (Some (register incoming_lanes)) incoming_lanes
    | Some c =>
        if set_neq incoming_lanes (current_lanes srv)
        then mkServer (Some (register incoming_lanes)) incoming_lanes
        else srv
    end in
  match controller srv' with
  | Some c =>
      let (r, c') := update env input_data c in
      (r, mkServer (Some c') (current_lanes srv'))
  | None => (Raise ValueError, srv')
  end.

(** ** [aggregate_counts] of [model_api.py] *)

Module ModelApi.

(** A detection as [aggregate_counts] reads it, through [d.get]: an absent
    key and [None] are the same to it. *)
Record Detection : Type := mkDetection {
  det_lane_id : option string;
  pred_label : option string;
  embedding : option (list Q);
  crop_base64 : option string
}.

(** An entry of [counts]. *)
Record Counts : Type := mkCounts {
  c_normal : Z;
  c_emergency : Z
}.

(** Truthiness of an optional string. *)
Definition truthy_str (o : option string) : bool :=
  match o with
  | Some s => negb (String.eqb s "")
  | None => false
  end.

Definition lower_ascii (c : ascii) : ascii :=
  let n := nat_of_ascii c in
  if (65 <=? n)%nat && (n <=? 90)%nat then ascii_of_nat (n + 32) else c.

(** [s.lower()], on ASCII letters. *)
Fixpoint lower (s : string) : string :=
  match s with
  | EmptyString => EmptyString
  | String c s' => String (lower_ascii c) (lower s')
  end.

(** [x in s] on strings: [x] occurs in [s]. *)
Fixpoint contains (x s : string) : bool :=
  String.prefix x s ||
  match s with
  | EmptyString => false
  | String _ s' => contains x s'
  end.

Definition emergency_words : list string :=
  ["ambulance"; "emergency"; "police"; "fire"].

(** [any(x in lab for x in (...))] with [lab = str(label).lower()]. *)
Definition is_emergency_label (label : string) : bool :=
  existsb (fun x => contains x (lower label)) emergency_words.

(** [try: label = r except Exception: label = None]. *)
Definition try_label (r : result string) : option string :=
  match r with
  | Ok l => Some l
  | Raise _ => None
  end.

Section Classifier.

(** What the loaded models do is not part of the repository: a prediction
    is a value of some type [Pred] with its [str], the classifier (when
    [vehicle_classifier.pkl] was loaded) maps an embedding to a prediction
    or raises, and the label encoder (when [label_encoder.pkl] was loaded)
    maps a prediction back to a label or raises. *)
Variable Pred : Type.
Variable str_of_pred : Pred -> string.
Variable label_encoder : option (Pred -> result string).
Variable classifier : option (list Q -> result Pred).

(** [decode_label]: the decoded label, and [str(pred)] when there is no
    encoder or the encoder raises. *)
Definition decode_label (pred : Pred) : string :=
  match label_encoder with
  | None => str_of_pred pred
  | Some inverse_transform =>
      match inverse_transform pred with
      | Ok l => l
      | Raise _ => str_of_pred pred
      end
  end.

(** [classify_from_embedding]: raises when no classifier is loaded. *)
Definition classify_from_embedding (emb : list Q) : result string :=
  match classifier with
  | None => Raise (OtherError "RuntimeError")
  | Some predict =>
      match predict emb with
      | Ok pred => Ok (decode_label pred)
      | Raise e => Raise e
      end
  end.

End Classifier.

Section Aggregate.

(** The classifier and the image pipeline are learned models loaded at
    start-up; the aggregation is stated for any behaviour of theirs,
    raising included. *)
Variable classify_from_embedding : list Q -> result string.

(** [base64.b64decode], [Image.open(...).convert] and [image_to_embedding]. *)
Variable crop_to_embedding : string -> result (list Q).

(** The label the loop body computes for a detection. *)
Definition label_of (d : Detection) : option string :=
  if truthy_str (pred_label d) then pred_label d
  else
    match embedding d with
    | Some emb => try_label (classify_from_embedding emb)
    | None =>
        match crop_base64 d with
        | Some crop =>
            if truthy_str (Some crop)
            then try_label (rbind (crop_to_embedding crop) classify_from_embedding)
            else None
        | None => None
        end
    end.

(** Whether the loop body takes the [counts[lane]["emergency"] += 1] branch. *)
Definition counts_as_emergency (d : Detection) : bool :=
  match label_of d with
  | Some label => truthy_str (Some label) && is_emergency_label label
  | None => false
  end.

(** [counts[lane][field] += 1]; the key was inserted before. *)
Definition bump (f : Counts -> Counts) (lane : string) (counts : Dict.t Counts)
  : Dict.t Counts :=
  match Dict.get lane counts with
  | Some c => Dict.set lane (f c) counts
  | None => counts
  end.

(** The counts one detection adds to the entry of its lane. *)
Definition tally (d : Detection) (c : Counts) : Counts :=
  if counts_as_emergency d
  then mkCounts (c_normal c) (c_emergency c + 1)
  else mkCounts (c_normal c + 1) (c_emergency c).

(** One iteration of the loop over [detections]. *)
Definition count_detection (counts : Dict.t Counts) (d : Detection)
  : Dict.t Counts :=
  match det_lane_id d with
  | None => counts
  | Some lane =>
      let counts :=
        if Dict.mem lane counts then counts
        else Dict.set lane (mkCounts 0 0) counts in
      if counts_as_emergency d
      then bump (fun c => mkCounts (c_normal c) (c_emergency c + 1)) lane counts
      else bump (fun c => mkCounts (c_normal c + 1) (c_emergency c)) lane counts
  end.

Definition aggregate_counts (detections : list Detection) : list Reading :=
  map (fun kv => mkReading (fst kv) (c_normal (snd kv)) (c_emergency (snd kv)))
    (fold_left count_detection detections Dict.empty).

(** The detections of a lane, and how many of them satisfy a test. *)
Definition in_lane (lane : string) (d : Detection) : bool :=
  match det_lane_id d with
  | Some l => String.eqb l lane
  | None => false
  end.

Definition count_in_lane (p : Detection -> bool) (lane : string)
    (detections : list Detection) : Z :=
  Z.of_nat (length (filter (fun d => in_lane lane d && p d) detections)).

(** A detection whose classification fails or that has no label source:
    no usable [pred_label], and then either the classifier raises on its
    embedding, or the crop pipeline raises, or there is neither. *)
Definition classification_fails (d : Detection) : bool :=
  negb (truthy_str (pred_label d)) &&
  match embedding d with
  | Some emb =>
      match classify_from_embedding emb with Raise _ => true | Ok _ => false end
  | None =>
      match crop_base64 d with
      | Some crop =>
          if truthy_str (Some crop) then
            match rbind (crop_to_embedding crop) classify_from_embedding with
            | Raise _ => true
            | Ok _ => false
            end
          else true
      | None => true
      end
  end.

End Aggregate.

(** The body returned by [predict_and_update]. *)
Record Response (R : Type) : Type := mkResponse {
  ml_counts : list Reading;
  controller_response : R;
  warning : option (list string)
}.

(** What a request to [predict_and_update] ends in: a response, or the
    [HTTPException] with status 502 and its detail. *)
Inductive Reply (R : Type) : Type :=
| Replied (r : Response R)
| BadGateway (error : exn) (lane_input : list Reading).

Arguments Replied {R} r.
Arguments BadGateway {R} error lane_input.

(** [predict_and_update]; [post] is the request to the traffic service, with
    [raise_for_status] and the decoding of its answer, and [load_errors] the
    module's list of errors met while loading the models. *)
Definition predict_and_update (R : Type) (load_errors : list string)
    (classify : list Q -> result string) (crop : string -> result (list Q))
    (post : list Reading -> result R) (detections : list Detection) : Reply R :=
  let warning :=
    match load_errors with
    | [] => None
    | _ => Some load_errors
    end in
  let lane_input := aggregate_counts classify crop detections in
  match post lane_input with
  | Ok controller_resp => Replied (mkResponse lane_input controller_resp warning)
  | Raise e => BadGateway e lane_input
  end.

End ModelApi.

(** ** Auxiliary notions used by the statements *)

(** What a loop [for lane in ids: self.lanes[lane] = f lane (self.lanes[lane])]
    does to the entry [l] stored under the key [k]: [f k] is applied once for
    each occurrence of [k] in [ids]. *)
Fixpoint loop_effect (f : string -> Lane -> Lane) (ids : list string)
    (k : string) (l : Lane) : Lane :=
  match ids with
  | [] => l
  | lane :: ids' => loop_effect f ids' k (if String.eqb lane k then f lane l else l)
  end.

(** Two controllers that differ at most in [lanes]. *)
Definition same_but_lanes (s s' : Controller) : Prop :=
  s' = with_lanes (lanes s') s.

(** The stored phase and wait counter of a lane, when the lane has an entry. *)
Definition phase_of (s : Controller) (lane : string) : option Phase :=
  option_map state (Dict.get lane (lanes s)).

Definition wait_of (s : Controller) (lane : string) : option Z :=
  option_map wait (Dict.get lane (lanes s)).

(** The rewrite of [_update_waits] for one lane. *)
Definition waits_step (chosen lane : string) (l : Lane) : Lane :=
  if String.eqb lane chosen then set_wait 0 l else set_wait (wait l + 1) l.

(** The rewrite of the loop of [_apply_yellow] for one lane. *)
Definition yellow_step (to_green lane : string) (l : Lane) : Lane :=
  if String.eqb lane to_green then set_state Yellow l else set_state Red l.

(** The steps of a call of [update] that returns [output], with the working
    snapshot [data], the lane [chosen] and the green time [gt] of the call. *)
Inductive update_steps (env : Env) (lanes_data : list Reading) (s : Controller)
    (output : Report) (s' : Controller) (data : Data) (chosen : string) (gt : Q)
  : Prop :=
| UpdateSteps (s1 s2 s3 : Controller) (e : Entry) (data' : Data) (output0 : Report)
    (Hmerge : merge (lanes s) lanes_data Dict.empty = Ok data)
    (Hchoose : choose env data s = (Ok chosen, s1))
    (Hwaits : _update_waits chosen s1 = (Ok tt, s2))
    (Hentry : Dict.get chosen data = Some e)
    (Hgt : _calculate_green_time s2 e = Ok gt)
    (Hyellow : _apply_yellow chosen (now_start env) (with_green_time gt s2) = (Ok tt, s3))
    (Hflow : _simulate_flow s3 (randint env) data chosen (current_green_time s3) = Ok data')
    (Hstore : store_queues data' s3 = (Ok tt, s'))
    (Hout0 : build_output (lanes s') (lane_ids s') Dict.empty = Ok output0)
    (Hout : add_green_time s' output0 = Ok output).

(** The phase and the wait counter a report gives for a lane. *)
Definition report_phase (output : Report) (lane : string) : option Phase :=
  option_map rep_state (Dict.get lane output).

Definition report_wait (output : Report) (lane : string) : option Z :=
  option_map rep_wait (Dict.get lane output).

(** The reading of a lane that the dict comprehension of [update] keeps:
    the last one in [lanes_data]. *)
Fixpoint last_reading (lane : string) (lanes_data : list Reading) : option Reading :=
  match lanes_data with
  | [] => None
  | d :: rest =>
      match last_reading lane rest with
      | Some d' => Some d'
      | None => if String.eqb (lane_id d) lane then Some d else None
      end
  end.

(** Two controllers with the same tuning constants. *)
Definition same_config (s s' : Controller) : Prop :=
  min_green s' = min_green s /\ max_green s' = max_green s /\
  wait_boost s' = wait_boost s /\ starvation_limit s' = starvation_limit s /\
  clearance_rate s' = clearance_rate s.

(** Sample inputs: a clock, a source of arrivals, readings of four idle lanes. *)
Definition sample_env : Env := mkEnv 1 1 (fun _ => 2).

Definition idle_readings : list Reading :=
  [mkReading "Lane_1" 0 0; mkReading "Lane_2" 0 0;
   mkReading "Lane_3" 0 0; mkReading "Lane_4" 0 0].

(** The green-time estimator in the words of the specification: the raw
    time [normal / clearanceRate + wait * 0.4 + emergency * 2.0] clamped to
    [[minGreen, maxGreen]]. *)
Definition spec_green_time (minGreen maxGreen clearanceRate : Q)
    (normal emergency wait : Z) : Q :=
  Qmax minGreen
    (Qmin (inject_Z normal / clearanceRate + inject_Z wait * (4 # 10)
           + inject_Z emergency * 2)
       maxGreen).

(** The numbers of a lane convert to float. *)
Definition entry_in_range (e : Entry) : Prop :=
  in_float_range (d_normal e) = true /\
  in_float_range (d_wait e) = true /\
  in_float_range (d_emergency e) = true.

(** The numbers of every lane of the snapshot convert to float. *)
Definition data_in_range (data : Data) : Prop :=
  forall k e, Dict.get k data = Some e -> entry_in_range e.

(** The counts of the readings convert to float. *)
Definition readings_in_range (lanes_data : list Reading) : Prop :=
  forall d, In d lanes_data ->
    in_float_range (r_normal d) = true /\ in_float_range (r_emergency d) = true.

(** The stored wait counters convert to float. *)
Definition waits_in_range (s : Controller) : Prop :=
  forall k l, Dict.get k (lanes s) = Some l -> in_float_range (wait l) = true.

(** The tuning constants keep [clearance_rate * green_time] finite: a green
    time lies between [min_green] and the greater of [min_green] and
    [max_green]. *)
Definition flow_in_range (s : Controller) : Prop :=
  forall g, (min_green s <= g)%Q -> (g <= Qmax (min_green s) (max_green s))%Q ->
    finite_float (clearance_rate s * g) = true.

(** The score of the specification: [normal * (1 + wait * waitBoost)], plus
    1000 when [wait >= starvationLimit]. *)
Definition spec_score (waitBoost : Q) (starvationLimit : Z) (normal wait : Z) : Q :=
  (inject_Z normal * (1 + inject_Z wait * waitBoost)
   + (if Z_le_dec starvationLimit wait then 1000 else 0))%Q.

(** The score [_choose_normal_lane] gives to a registered lane. *)
Definition lane_score (s : Controller) (data : Data) (lane : string) : Q :=
  match Dict.get lane data with
  | Some e => score s e
  | None => 0
  end.

(** [c] is the first element of [l] with the greatest key: every element
    before it has a strictly smaller key, and no element has a greater one. *)
Definition first_maximal (key : string -> Q) (l : list string) (c : string) : Prop :=
  exists pre post,
    l = (pre ++ c :: post)%list /\
    (forall x, In x pre -> (key x < key c)%Q) /\
    (forall x, In x post -> (key x <= key c)%Q).

(** The keys a loop [for x in ids: d[x] = ...] appends to a dict that has
    the keys [seen]: the first occurrences of the new ones, in order. *)
Fixpoint first_occurrences (seen ids : list string) : list string :=
  match ids with
  | [] => []
  | x :: ids' =>
      if str_in x seen then first_occurrences seen ids'
      else x :: first_occurrences (x :: seen) ids'
  end.

(** A controller as the constructor and the request handler build it and as
    [update] keeps it: some lane is registered, [lanes] has an entry for
    exactly the registered lanes, the current green lane (if any) is
    registered, and the clearance rate is not zero. *)
Definition wf (s : Controller) : Prop :=
  lane_ids s <> [] /\
  (forall k, In k (lane_ids s) <-> In k (Dict.keys (lanes s))) /\
  (forall g, current_green s = Some g -> In g (lane_ids s)) /\
  ~ (clearance_rate s == 0)%Q.

(** The readings name exactly the registered lanes (as the request handler
    ensures, which registers the lane set of the readings when it differs). *)
Definition readings_cover (s : Controller) (lanes_data : list Reading) : Prop :=
  forall k, In k (map lane_id lanes_data) <-> In k (lane_ids s).



(** Two lanes; lane B has five vehicles at each of eight calls and lane A
    none, so that A has waited eight cycles afterwards. *)
Definition busy_B : list Reading := [mkReading "A" 0 0; mkReading "B" 5 0].



(** The snapshot [data] a call builds. *)
Definition snapshot (s : Controller) (lanes_data : list Reading) : result Data :=
  merge (lanes s) lanes_data Dict.empty.

(** Sample requests with a lane whose id is the empty string. *)
Definition unnamed_emergency : list Reading :=
  [mkReading "" 0 1; mkReading "B" 5 0].

Definition unnamed_idle : list Reading :=
  [mkReading "" 0 0; mkReading "B" 0 0].

Definition unnamed_then_B : list Reading :=
  [mkReading "" 0 0; mkReading "B" 5 0].

(** The order in which [_choose_emergency_lane] scans the registered lanes:
    [lane_ids] rotated to start at [scan_start]. *)
Definition rotate (n : nat) (l : list string) : list string :=
  (skipn n l ++ firstn n l)%list.

Definition scan_order (s : Controller) : list string :=
  rotate (scan_start s) (lane_ids s).

(** [c] is the first element of [l] that satisfies [P]. *)
Definition first_such (P : string -> Prop) (l : list string) (c : string) : Prop :=
  exists pre post,
    l = (pre ++ c :: post)%list /\ P c /\ forall x, In x pre -> ~ P x.

(** A lane of the snapshot tied at the emergency count [m]. *)
Definition tied_at (data : Data) (m : Z) (lane : string) : Prop :=
  In lane (Dict.keys data) /\ emergency_at data lane = m.

(** Two lanes tied at two emergency vehicles each (scenario C of the
    specification). *)
Definition tied_emergencies : list Reading :=
  [mkReading "A" 0 2; mkReading "B" 0 2].

(** What the request handler keeps between requests: the controller, once
    created, is well-formed and [current_lanes] is its list of lanes. *)
Definition server_ok (srv : Server) : Prop :=
  match controller srv with
  | Some c => wf c /\ current_lanes srv = lane_ids c
  | None => True
  end.

(** The stored waits of the server's controller convert to float, and its
    tuning constants keep the flow finite. *)
Definition server_in_range (srv : Server) : Prop :=
  match controller srv with
  | Some c => waits_in_range c /\ flow_in_range c
  | None => True
  end.

(** Sample detections: a labelled ambulance and a labelled car in lane A, a
    detection of lane A with an embedding only, a detection of lane B with a
    crop only, and a detection without lane. *)
Definition sample_detections : list ModelApi.Detection :=
  [ModelApi.mkDetection (Some "A") (Some "Ambulance") None None;
   ModelApi.mkDetection (Some "A") None (Some [1%Q]) None;
   ModelApi.mkDetection (Some "B") None None (Some "aGk=");
   ModelApi.mkDetection None (Some "police car") None None;
   ModelApi.mkDetection (Some "A") (Some "car") None None].

(** A classifier that is not loaded, and an image pipeline that fails. *)
Definition no_classifier (emb : list Q) : result string :=
  Raise (OtherError "RuntimeError").

Definition no_pipeline (crop : string) : result (list Q) :=
  Raise (OtherError "UnidentifiedImageError").

(** ** Further notions: the rest of the request handler, invariants *)

(** [get_status] of [algo_api.py]: the lanes of the controller, or an empty
    dict before the first request. *)
Definition get_status (srv : Server) : Dict.t Lane :=
  match controller srv with
  | Some c => lanes c
  | None => Dict.empty
  end.

(** An action keeps the relation [R] between the state before and the state
    after, whether it returns or raises. *)
Definition keeps {A} (R : Controller -> Controller -> Prop) (m : M A) : Prop :=
  forall s r s', m s = (r, s') -> R s s'.

(** What no call of [update] changes: the registered lanes, the tuning
    constants, the keys of [lanes] and the emergency count stored with each
    lane. *)
Definition untouched (s s' : Controller) : Prop :=
  lane_ids s' = lane_ids s /\
  (yellow_time s' = yellow_time s /\ debug s' = debug s /\ same_config s s') /\
  Dict.keys (lanes s') = Dict.keys (lanes s) /\
  forall k, option_map emergency (Dict.get k (lanes s'))
            = option_map emergency (Dict.get k (lanes s)).

(** The stored queue length of a lane. *)
Definition stored_normal (s : Controller) (lane : string) : option Z :=
  option_map normal (Dict.get lane (lanes s)).

(** The phases are consistent: [lanes] has an entry for exactly the
    registered lanes, no stored phase is Yellow, a Green lane is the current
    green lane, and the current green lane is Green. *)
Definition phases_consistent (s : Controller) : Prop :=
  (forall k, In k (lane_ids s) <-> phase_of s k <> None) /\
  (forall k, phase_of s k <> Some Yellow) /\
  (forall k, phase_of s k = Some Green -> current_green s = Some k) /\
  (forall g, current_green s = Some g -> phase_of s g = Some Green).

(** The controllers a program can hold: built by the constructor or by the
    request handler, then passed through any number of calls of [update],
    whether they returned or raised. *)
Inductive reachable : Controller -> Prop :=
| reach_init N yt ming maxg wb sl cr dbg :
    reachable (__init__ N yt ming maxg wb sl cr dbg)
| reach_register incoming :
    reachable (register incoming)
| reach_update env lanes_data s r s' :
    reachable s -> update env lanes_data s = (r, s') -> reachable s'.

(** The lane ids of the detections that carry one, in order. *)
Definition detection_lanes (detections : list ModelApi.Detection) : list string :=
  flat_map (fun d => match ModelApi.det_lane_id d with
                     | Some l => [l]
                     | None => []
                     end) detections.

(** What every step of [update] but [_apply_yellow] leaves alone: the
    registered lanes, the current green lane and the stored phases. *)
Definition same_phases (s s' : Controller) : Prop :=
  lane_ids s' = lane_ids s /\
  current_green s' = current_green s /\
  forall k, phase_of s' k = phase_of s k.

(** A fresh controller of four lanes whose stored queues, emergency counts
    and phases have been overwritten. *)
Definition scrambled_lanes : Controller :=
  with_lanes
    [("Lane_1", mkLane 7 3 0 Green); ("Lane_2", mkLane 9 1 0 Yellow);
     ("Lane_3", mkLane 0 0 0 Red); ("Lane_4", mkLane 40 0 0 Green)]
    (init_default 4).

(** The globals after a request with an empty body: a controller without
    lanes. *)
Definition emptied_server : Server := mkServer (Some (register [])) [].

(** The traffic service as [predict_and_update] reaches it, through
    [requests.post], [raise_for_status] and [json]: the answer of
    [update_signal] on the server [srv]. When the handler raises, the
    service replies with status 500 and [raise_for_status] raises the
    [HTTPError] of [requests]. *)
Definition traffic_service (env : Env) (srv : Server) (input : list Reading)
  : result Report :=
  match fst (update_signal env input srv) with
  | Ok output => Ok output
  | Raise _ => Raise (OtherError "HTTPError")
  end.

(** The warning [predict_and_update] attaches. *)
Definition warning_of (load_errors : list string) : option (list string) :=
  match load_errors with
  | [] => None
  | _ => Some load_errors
  end.

(** A detection whose own label names an emergency vehicle. *)
Definition labelled_emergency (d : ModelApi.Detection) : bool :=
  match ModelApi.pred_label d with
  | Some l => negb (String.eqb l "") && ModelApi.is_emergency_label l
  | None => false
  end.

(** A server whose controller has just been registered for the lanes A and
    B. *)
Definition two_lane_server : Server :=
  mkServer (Some (register ["A"; "B"])) ["A"; "B"].

(** No stored wait counter is negative. *)
Definition waits_nonneg (s : Controller) : Prop :=
  forall k l, Dict.get k (lanes s) = Some l -> 0 <= wait l.

(** A step that makes no wait counter negative. *)
Definition keeps_waits (s s' : Controller) : Prop :=
  waits_nonneg s -> waits_nonneg s'.

(** * Properties *)

(** ** Dictionaries *)

Section DictFacts.
Variable V : Type.
Implicit Types (d : Dict.t V) (k : string) (v : V).

Lemma get_set_same k v d : Dict.get k (Dict.set k v d) = Some v.
Proof.
  induction d as [|[k' v'] d IH]; simpl.
  - now rewrite String.eqb_refl.
  - destruct (String.eqb k k') eqn:E; simpl; rewrite ?String.eqb_refl, ?E; auto.
Qed.

Lemma get_set_other k k' v d :
  k <> k' -> Dict.get k' (Dict.set k v d) = Dict.get k' d.
Proof.
  intros Hne. induction d as [|[k0 v0] d IH]; simpl.
  - destruct (String.eqb k' k) eqn:E; auto.
    apply String.eqb_eq in E. congruence.
  - destruct (String.eqb k k0) eqn:E; simpl.
    + apply String.eqb_eq in E. subst k0.
      destruct (String.eqb k' k) eqn:E'; auto.
      apply String.eqb_eq in E'. congruence.
    + now rewrite IH.
Qed.

Lemma get_set k k' v d :
  Dict.get k' (Dict.set k v d) = if String.eqb k' k then Some v else Dict.get k' d.
Proof.
  destruct (String.eqb k' k) eqn:E.
  - apply String.eqb_eq in E. subst. apply get_set_same.
  - apply String.eqb_neq in E. apply get_set_other. congruence.
Qed.

Lemma get_some_in_keys k d : (exists v, Dict.get k d = Some v) <-> In k (Dict.keys d).
Proof.
  induction d as [|[k' v'] d IH]; simpl.
  - split; [intros [v H]; discriminate | tauto].
  - destruct (String.eqb k k') eqn:E.
    + apply String.eqb_eq in E. subst. split; eauto.
    + apply String.eqb_neq in E. rewrite IH. split; [tauto|].
      intros [H|H]; [congruence | exact H].
Qed.

Lemma get_none_not_in_keys k d : Dict.get k d = None <-> ~ In k (Dict.keys d).
Proof.
  rewrite <- get_some_in_keys. destruct (Dict.get k d).
  - split; [discriminate | intros H; exfalso; eauto].
  - split; auto. intros _ [v H]. discriminate.
Qed.

Lemma keys_set_present k v d :
  In k (Dict.keys d) -> Dict.keys (Dict.set k v d) = Dict.keys d.
Proof.
  induction d as [|[k' v'] d IH]; simpl; [tauto|].
  intros H. destruct (String.eqb k k') eqn:E; simpl.
  - apply String.eqb_eq in E. now subst.
  - apply String.eqb_neq in E. f_equal. apply IH. destruct H; congruence.
Qed.

Lemma keys_set_absent k v d :
  ~ In k (Dict.keys d) -> Dict.keys (Dict.set k v d) = (Dict.keys d ++ [k])%list.
Proof.
  induction d as [|[k' v'] d IH]; simpl; auto.
  intros H. destruct (String.eqb k k') eqn:E; simpl.
  - apply String.eqb_eq in E. subst. tauto.
  - f_equal. apply IH. tauto.
Qed.

Lemma in_keys_set k k' v d :
  In k' (Dict.keys (Dict.set k v d)) <-> k' = k \/ In k' (Dict.keys d).
Proof.
  rewrite <- !get_some_in_keys, get_set.
  destruct (String.eqb k' k) eqn:E.
  - apply String.eqb_eq in E. split; eauto.
  - apply String.eqb_neq in E. split; [tauto|]. intros [H|H]; [congruence|exact H].
Qed.

Lemma item_ok k d v : item k d = Ok v <-> Dict.get k d = Some v.
Proof.
  unfold item. destruct (Dict.get k d); split; congruence.
Qed.
End DictFacts.

Lemma str_in_In x l : str_in x l = true <-> In x l.
Proof.
unfold str_in. rewrite existsb_exists. split.
- intros [y [H E]]. apply String.eqb_eq in E. now subst.
- intros H. exists x. split; auto. apply String.eqb_refl.
Qed.

(** ** The monad and its loops *)

Ltac inv H := inversion H; subst; clear H.

(** The successful runs of a [bind]. *)
Lemma bind_ok A B (m : M A) (k : A -> M B) s b s' :
  bind m k s = (Ok b, s') ->
  exists a s1, m s = (Ok a, s1) /\ k a s1 = (Ok b, s').
Proof.
  unfold bind. destruct (m s) as [[a|e] s1]; intros H.
  - eauto.
  - discriminate.
Qed.

Lemma lift_ok A (r : result A) s a s' :
  lift r s = (Ok a, s') -> r = Ok a /\ s' = s.
Proof. unfold lift. intros H. inv H. auto. Qed.

Lemma gets_ok A (f : Controller -> A) s a s' :
  gets f s = (Ok a, s') -> a = f s /\ s' = s.
Proof. unfold gets. intros H. inv H. auto. Qed.

Lemma rbind_ok A B (r : result A) (k : A -> result B) b :
  rbind r k = Ok b -> exists a, r = Ok a /\ k a = Ok b.
Proof. destruct r; simpl; intros H; [eauto | discriminate]. Qed.

Lemma for_each_ext X (l : list X) (f g : X -> M unit) :
  (forall x s, f x s = g x s) -> forall s, for_each l f s = for_each l g s.
Proof.
  intros E. induction l as [|x l IH]; intros s; simpl; auto.
  unfold bind. rewrite E. destruct (g x s) as [[[]|e] s1]; auto.
Qed.

(** A relation kept by every iteration, failed ones included, is kept by
    the loop. *)
Lemma for_each_preserves X (R : Controller -> Controller -> Prop)
    (l : list X) (body : X -> M unit) :
  (forall s, R s s) ->
  (forall s1 s2 s3, R s1 s2 -> R s2 s3 -> R s1 s3) ->
  (forall x s r s', body x s = (r, s') -> R s s') ->
  forall s r s', for_each l body s = (r, s') -> R s s'.
Proof.
  intros Hrefl Htrans Hbody. induction l as [|x l IH]; intros s r s' H; simpl in H.
  - inv H. apply Hrefl.
  - unfold bind in H. destruct (body x s) as [[[]|e] s1] eqn:E.
    + eapply Htrans; [eapply Hbody; eauto | eapply IH; eauto].
    + inv H. eapply Hbody; eauto.
Qed.

Lemma same_but_lanes_refl s : same_but_lanes s s.
Proof. destruct s; reflexivity. Qed.

Lemma same_but_lanes_trans s1 s2 s3 :
  same_but_lanes s1 s2 -> same_but_lanes s2 s3 -> same_but_lanes s1 s3.
Proof.
  unfold same_but_lanes. intros H1 H2. rewrite H2, H1. reflexivity.
Qed.

Lemma set_lane_field_ok lane f s s' :
  set_lane_field lane f s = (Ok tt, s') ->
  exists l, Dict.get lane (lanes s) = Some l /\
            s' = with_lanes (Dict.set lane (f l) (lanes s)) s.
Proof.
  unfold set_lane_field. destruct (Dict.get lane (lanes s)) as [l|]; intros H.
  - inv H. eauto.
  - discriminate.
Qed.

Lemma set_lane_field_frame lane f s r s' :
  set_lane_field lane f s = (r, s') -> same_but_lanes s s'.
Proof.
  unfold set_lane_field. destruct (Dict.get lane (lanes s)) as [l|]; intros H; inv H.
  - reflexivity.
  - apply same_but_lanes_refl.
Qed.

(** The loops over [lane_ids] that rewrite one field of each entry. *)
Lemma field_loop_ok f ids : forall s s',
  for_each ids (fun lane => set_lane_field lane (f lane)) s = (Ok tt, s') ->
  same_but_lanes s s' /\
  (forall k, In k ids -> In k (Dict.keys (lanes s))) /\
  (forall k, Dict.get k (lanes s') =
             option_map (loop_effect f ids k) (Dict.get k (lanes s))).
Proof.
  induction ids as [|lane ids IH]; intros s s' H; simpl in H.
  - unfold ret in H. injection H as <-.
    split; [apply same_but_lanes_refl|]. split; [intros k []|].
    intros k. simpl. now destruct (Dict.get k (lanes s)).
  - apply bind_ok in H. destruct H as [[] [s1 [H1 H2]]].
    apply set_lane_field_ok in H1. destruct H1 as [l [Hl Hs1]].
    apply IH in H2. destruct H2 as [Hframe [Hkeys Hget]].
    assert (Hin : In lane (Dict.keys (lanes s))).
    { apply get_some_in_keys. eauto. }
    split; [|split].
    + eapply same_but_lanes_trans; [|exact Hframe]. subst s1. reflexivity.
    + intros k [Hk|Hk]; [now subst|].
      specialize (Hkeys k Hk). subst s1. simpl in Hkeys.
      apply in_keys_set in Hkeys. destruct Hkeys; [now subst|assumption].
    + intros k. rewrite Hget. subst s1. simpl. rewrite get_set.
      rewrite (String.eqb_sym k lane).
      destruct (String.eqb lane k) eqn:E.
      * apply String.eqb_eq in E. subst k. rewrite Hl. reflexivity.
      * destruct (Dict.get k (lanes s)); reflexivity.
Qed.

(** Such a loop succeeds when every lane of [ids] has an entry. *)
Lemma field_loop_total f ids : forall s,
  (forall k, In k ids -> In k (Dict.keys (lanes s))) ->
  exists s', for_each ids (fun lane => set_lane_field lane (f lane)) s = (Ok tt, s').
Proof.
  induction ids as [|lane ids IH]; intros s Hk; simpl.
  - eexists. reflexivity.
  - assert (Hin : In lane (Dict.keys (lanes s))) by (apply Hk; now left).
    apply get_some_in_keys in Hin. destruct Hin as [l Hl].
    unfold bind. unfold set_lane_field at 1. rewrite Hl.
    apply IH. intros k Hin. simpl. apply in_keys_set. right. apply Hk. now right.
Qed.

Lemma loop_effect_not_in f ids k l : ~ In k ids -> loop_effect f ids k l = l.
Proof.
  revert l. induction ids as [|x ids IH]; intros l Hn; simpl; auto.
  destruct (String.eqb x k) eqn:E.
  - apply String.eqb_eq in E. subst. exfalso. apply Hn. now left.
  - apply IH. intros H. apply Hn. now right.
Qed.

(** An idempotent rewrite is applied as if once, however often the lane
    occurs. *)
Lemma loop_effect_idem f ids k l :
  (forall l0, f k (f k l0) = f k l0) -> In k ids ->
  loop_effect f ids k l = f k l.
Proof.
  intros Hid. revert l. induction ids as [|x ids IH]; intros l Hin; simpl; [destruct Hin|].
  destruct (String.eqb x k) eqn:E.
  - apply String.eqb_eq in E. subst x.
    destruct (in_dec string_dec k ids) as [Hi|Hn].
    + rewrite IH by assumption. apply Hid.
    + now apply loop_effect_not_in.
  - apply String.eqb_neq in E. apply IH. destruct Hin; [congruence|assumption].
Qed.

(** Without repeated lane ids the rewrite is applied exactly once. *)
Lemma loop_effect_nodup f ids k l :
  NoDup ids -> In k ids -> loop_effect f ids k l = f k l.
Proof.
  revert l. induction ids as [|x ids IH]; intros l Hnd Hin; simpl; [destruct Hin|].
  inv Hnd. destruct (String.eqb x k) eqn:E.
  - apply String.eqb_eq in E. subst x. now apply loop_effect_not_in.
  - apply String.eqb_neq in E. apply IH; auto. destruct Hin; [congruence|assumption].
Qed.

(** ** The steps of [update] *)

Lemma update_inv env lanes_data s output s' :
  update env lanes_data s = (Ok output, s') ->
  exists data chosen gt, update_steps env lanes_data s output s' data chosen gt.
Proof.
  unfold update. intros H.
  apply bind_ok in H. destruct H as [ls [s0 [H0 H]]].
  apply gets_ok in H0. destruct H0; subst ls s0.
  apply bind_ok in H. destruct H as [data [s0 [H0 H]]].
  apply lift_ok in H0. destruct H0 as [Hmerge ?]; subst s0.
  apply bind_ok in H. destruct H as [chosen [s1 [Hchoose H]]].
  apply bind_ok in H. destruct H as [[] [s2 [Hwaits H]]].
  apply bind_ok in H. destruct H as [self [s0 [H0 H]]].
  apply gets_ok in H0. destruct H0; subst self s0.
  apply bind_ok in H. destruct H as [gt [s0 [H0 H]]].
  apply lift_ok in H0. destruct H0 as [Hgt ?]; subst s0.
  apply rbind_ok in Hgt. destruct Hgt as [e [He Hgt]]. apply item_ok in He.
  apply bind_ok in H. destruct H as [[] [s0 [H0 H]]].
  unfold modify in H0. inv H0.
  apply bind_ok in H. destruct H as [[] [s3 [Hyellow H]]].
  apply bind_ok in H. destruct H as [self [s0 [H0 H]]].
  apply gets_ok in H0. destruct H0; subst self s0.
  apply bind_ok in H. destruct H as [data' [s0 [H0 H]]].
  apply lift_ok in H0. destruct H0 as [Hflow ?]; subst s0.
  apply bind_ok in H. destruct H as [[] [s4 [Hstore H]]].
  apply bind_ok in H. destruct H as [self [s0 [H0 H]]].
  apply gets_ok in H0. destruct H0; subst self s0.
  apply bind_ok in H. destruct H as [output0 [s0 [H0 H]]].
  apply lift_ok in H0. destruct H0 as [Hout0 ?]; subst s0.
  apply lift_ok in H. destruct H as [Hout ?]; subst s4.
  exists data, chosen, gt. econstructor; eassumption.
Qed.

Lemma update_waits_ok chosen s s' :
  _update_waits chosen s = (Ok tt, s') ->
  same_but_lanes s s' /\
  (forall k, In k (lane_ids s) -> In k (Dict.keys (lanes s))) /\
  (forall k, Dict.get k (lanes s') =
             option_map (loop_effect (waits_step chosen) (lane_ids s) k)
               (Dict.get k (lanes s))).
Proof.
  unfold _update_waits. intros H.
  apply bind_ok in H. destruct H as [ids [s0 [H0 H]]].
  apply gets_ok in H0. destruct H0; subst ids s0.
  apply field_loop_ok. rewrite <- H. apply for_each_ext.
  intros lane s0. unfold waits_step. destruct (String.eqb lane chosen); reflexivity.
Qed.

Lemma same_but_lanes_ids s s' : same_but_lanes s s' -> lane_ids s' = lane_ids s.
Proof. intros ->. reflexivity. Qed.

(** What [_apply_yellow] leaves behind. *)
Lemma apply_yellow_ok to_green now s s' :
  _apply_yellow to_green now s = (Ok tt, s') ->
  s' = with_green (Some to_green) (Some now) (with_lanes (lanes s') s) /\
  (forall k, In k (lane_ids s) -> In k (Dict.keys (lanes s))) /\
  (exists l, Dict.get to_green (lanes s') = Some l /\ state l = Green) /\
  (forall k, k <> to_green -> In k (lane_ids s) ->
             exists l, Dict.get k (lanes s') = Some l /\ state l = Red) /\
  (forall k, k <> to_green -> ~ In k (lane_ids s) ->
             Dict.get k (lanes s') = Dict.get k (lanes s)) /\
  (forall k, option_map wait (Dict.get k (lanes s')) =
             option_map wait (Dict.get k (lanes s))) /\
  (forall k, option_map normal (Dict.get k (lanes s')) =
             option_map normal (Dict.get k (lanes s))).
Proof.
  unfold _apply_yellow. intros H.
  apply bind_ok in H. destruct H as [ids [s0 [H0 H]]].
  apply gets_ok in H0. destruct H0; subst ids s0.
  apply bind_ok in H. destruct H as [[] [s1 [Hloop H]]].
  apply bind_ok in H. destruct H as [[] [s2 [Hset H]]].
  unfold modify in H. inv H.
  assert (Hloop' : for_each (lane_ids s)
            (fun lane => set_lane_field lane (yellow_step to_green lane)) s = (Ok tt, s1)).
  { rewrite <- Hloop. apply for_each_ext. intros lane s0. unfold yellow_step.
    destruct (String.eqb lane to_green); reflexivity. }
  apply field_loop_ok in Hloop'. destruct Hloop' as [Hframe [Hkeys Hget]].
  apply set_lane_field_ok in Hset. destruct Hset as [l1 [Hl1 Hs2]].
  assert (Hg : forall k, Dict.get k (lanes s2) =
     if String.eqb k to_green then Some (set_state Green l1)
     else option_map (loop_effect (yellow_step to_green) (lane_ids s) k)
            (Dict.get k (lanes s))).
  { intros k. subst s2. simpl. rewrite get_set, Hget. reflexivity. }
  split; [|split; [|split; [|split; [|split; [|split]]]]].
  - subst s2. simpl. rewrite Hframe. reflexivity.
  - exact Hkeys.
  - exists (set_state Green l1). rewrite Hg, String.eqb_refl. auto.
  - intros k Hne Hin. rewrite Hg.
    apply String.eqb_neq in Hne. rewrite Hne.
    specialize (Hkeys k Hin). apply get_some_in_keys in Hkeys. destruct Hkeys as [l Hl].
    rewrite Hl. simpl. eexists. split; [reflexivity|].
    rewrite loop_effect_idem; auto.
    + unfold yellow_step. rewrite Hne. reflexivity.
    + intros l0. unfold yellow_step. destruct (String.eqb k to_green); reflexivity.
  - intros k Hne Hnin. simpl. rewrite Hg. apply String.eqb_neq in Hne. rewrite Hne.
    destruct (Dict.get k (lanes s)); simpl; auto.
    now rewrite loop_effect_not_in.
  - intros k. simpl. rewrite Hg. destruct (String.eqb k to_green) eqn:E.
    + apply String.eqb_eq in E. subst k. rewrite Hget in Hl1.
      destruct (Dict.get to_green (lanes s)) as [l|]; [|discriminate].
      simpl in *. inv Hl1. simpl. f_equal.
      clear. revert l. induction (lane_ids s) as [|x ids IH]; intros l; simpl; auto.
      rewrite IH. unfold yellow_step. destruct (String.eqb x to_green); reflexivity.
    + destruct (Dict.get k (lanes s)) as [l|]; simpl; auto. f_equal.
      clear. revert l. induction (lane_ids s) as [|x ids IH]; intros l; simpl; auto.
      rewrite IH. unfold yellow_step.
      destruct (String.eqb x k); destruct (String.eqb x to_green); reflexivity.
  - intros k. simpl. rewrite Hg. destruct (String.eqb k to_green) eqn:E.
    + apply String.eqb_eq in E. subst k. rewrite Hget in Hl1.
      destruct (Dict.get to_green (lanes s)) as [l|]; [|discriminate].
      simpl in *. inv Hl1. simpl. f_equal.
      clear. revert l. induction (lane_ids s) as [|x ids IH]; intros l; simpl; auto.
      rewrite IH. unfold yellow_step. destruct (String.eqb x to_green); reflexivity.
    + destruct (Dict.get k (lanes s)) as [l|]; simpl; auto. f_equal.
      clear. revert l. induction (lane_ids s) as [|x ids IH]; intros l; simpl; auto.
      rewrite IH. unfold yellow_step.
      destruct (String.eqb x k); destruct (String.eqb x to_green); reflexivity.
Qed.

(** [store_queues] rewrites the queue lengths only. *)
Lemma store_queues_frame data s r s' :
  store_queues data s = (r, s') ->
  same_but_lanes s s' /\
  (forall k, option_map state (Dict.get k (lanes s')) =
             option_map state (Dict.get k (lanes s))) /\
  (forall k, option_map wait (Dict.get k (lanes s')) =
             option_map wait (Dict.get k (lanes s))).
Proof.
  unfold store_queues, bind, gets. intros H.
  revert H. apply for_each_preserves with
    (R := fun s s' => same_but_lanes s s' /\
       (forall k, option_map state (Dict.get k (lanes s')) =
                  option_map state (Dict.get k (lanes s))) /\
       (forall k, option_map wait (Dict.get k (lanes s')) =
                  option_map wait (Dict.get k (lanes s)))).
  - intros s0. split; [apply same_but_lanes_refl | split; reflexivity].
  - intros s1 s2 s3 [F1 [S1 W1]] [F2 [S2 W2]]. split; [|split].
    + eapply same_but_lanes_trans; eauto.
    + intros k. now rewrite S2, S1.
    + intros k. now rewrite W2, W1.
  - intros lane s0 r0 s0'. unfold lift. destruct (item lane data) as [e|x]; intros H.
    + unfold set_lane_field in H.
      destruct (Dict.get lane (lanes s0)) as [l|] eqn:El; inv H.
      * split; [reflexivity|]. simpl.
        split; intros k; rewrite get_set;
          destruct (String.eqb k lane) eqn:E; auto;
          apply String.eqb_eq in E; subst k; rewrite El; reflexivity.
      * split; [apply same_but_lanes_refl | split; reflexivity].
    + inv H. split; [apply same_but_lanes_refl | split; reflexivity].
Qed.

(** The report built from the stored lanes. *)
Lemma build_output_ok ls ids : forall out0 out,
  build_output ls ids out0 = Ok out ->
  (forall k, In k ids ->
     exists l, Dict.get k ls = Some l /\
               Dict.get k out = Some (mkReportEntry (state l) (wait l) None)) /\
  (forall k, ~ In k ids -> Dict.get k out = Dict.get k out0).
Proof.
  induction ids as [|lane ids IH]; intros out0 out H; simpl in H.
  - inv H. split; [intros k []|auto].
  - destruct (item lane ls) as [l|x] eqn:El; [|discriminate].
    apply item_ok in El. apply IH in H. destruct H as [Hin Hout]. split.
    + intros k [Hk|Hk].
      * subst k. destruct (in_dec string_dec lane ids) as [Hi|Hn]; [now apply Hin|].
        exists l. split; auto. rewrite Hout by assumption. apply get_set_same.
      * now apply Hin.
    + intros k Hn. rewrite Hout by (intros Hk; apply Hn; now right).
      apply get_set_other. intros ->. apply Hn. now left.
Qed.

Lemma build_output_total ls ids : forall out0,
  (forall k, In k ids -> In k (Dict.keys ls)) ->
  exists out, build_output ls ids out0 = Ok out.
Proof.
  induction ids as [|lane ids IH]; intros out0 Hk; simpl.
  - eauto.
  - assert (Hin : In lane (Dict.keys ls)) by (apply Hk; now left).
    apply get_some_in_keys in Hin. destruct Hin as [l Hl].
    unfold item. rewrite Hl. apply IH. intros k Hin. apply Hk. now right.
Qed.

Lemma add_green_time_ok s out0 out :
  add_green_time s out0 = Ok out ->
  exists g r, current_green s = Some g /\ Dict.get g out0 = Some r /\
    forall k, Dict.get k out =
      if String.eqb k g
      then Some (mkReportEntry (rep_state r) (rep_wait r) (Some (current_green_time s)))
      else Dict.get k out0.
Proof.
  unfold add_green_time. destruct (current_green s) as [g|]; [|discriminate].
  intros H. apply rbind_ok in H. destruct H as [r [Hr H]]. apply item_ok in Hr.
  inv H. exists g, r. split; [auto|split; [auto|]]. intros k. apply get_set.
Qed.

(** The choice of a lane touches nothing but [last_emergency_lane]. *)
Lemma choose_emergency_frame data s r s' :
  _choose_emergency_lane data s = (r, s') ->
  s' = with_last_emergency (last_emergency_lane s') s.
Proof.
  unfold _choose_emergency_lane. intros H.
  destruct (emergencies_of data); [inv H; now destruct s'|].
  match type of H with (match ?c with _ => _ end) = _ => destruct c end;
    inv H; [reflexivity | now destruct s'].
Qed.

Lemma choose_without_emergency_frame env data s r s' :
  choose_without_emergency env data s = (r, s') -> s' = s.
Proof.
  unfold choose_without_emergency.
  repeat match goal with
         | |- context [match ?x with _ => _ end] => destruct x
         end; intros H; now inv H.
Qed.

Lemma choose_frame env data s r s' :
  choose env data s = (r, s') ->
  s' = with_last_emergency (last_emergency_lane s') s.
Proof.
  unfold choose, bind. intros H.
  destruct (_choose_emergency_lane data s) as [[c|x] s0] eqn:E.
  - apply choose_emergency_frame in E.
    assert (H' : s' = s0).
    { destruct c as [c|].
      - destruct (truthy_lane (Some c)).
        + unfold ret in H. now inv H.
        + now apply choose_without_emergency_frame in H.
      - now apply choose_without_emergency_frame in H. }
    subst s0. exact E.
  - inv H. now apply choose_emergency_frame in E.
Qed.

(** The report of a call that returns, entry by entry: the chosen lane is a
    registered lane, and every registered lane is reported with its stored
    phase and wait counter. *)
Lemma update_report env lanes_data s output s' data chosen gt :
  update_steps env lanes_data s output s' data chosen gt ->
  lane_ids s' = lane_ids s /\
  current_green s' = Some chosen /\
  In chosen (lane_ids s) /\
  (forall k, In k (lane_ids s) ->
     exists l, Dict.get k (lanes s') = Some l /\
       Dict.get k output =
         Some (mkReportEntry (state l) (wait l)
                 (if String.eqb k chosen then Some (current_green_time s') else None))) /\
  (forall k, ~ In k (lane_ids s) -> Dict.get k output = None).
Proof.
  intros [s1 s2 s3 e data' out0 Hmerge Hchoose Hwaits Hentry Hgt Hyellow Hflow Hstore Hout0 Hout].
  apply store_queues_frame in Hstore. destruct Hstore as [F4 _].
  apply apply_yellow_ok in Hyellow. destruct Hyellow as [F3 _].
  apply update_waits_ok in Hwaits. destruct Hwaits as [F2 _].
  assert (Hids3 : lane_ids s3 = lane_ids s2) by (rewrite F3; reflexivity).
  assert (Hids2 : lane_ids s2 = lane_ids s1) by (apply same_but_lanes_ids; auto).
  assert (Hids1 : lane_ids s1 = lane_ids s).
  { apply choose_frame in Hchoose. rewrite Hchoose. reflexivity. }
  assert (Hids : lane_ids s' = lane_ids s).
  { rewrite (same_but_lanes_ids F4). congruence. }
  assert (Hcg : current_green s' = Some chosen).
  { rewrite F4. simpl. rewrite F3. reflexivity. }
  assert (Hgt' : current_green_time s' = current_green_time s3).
  { rewrite F4. reflexivity. }
  apply add_green_time_ok in Hout. destruct Hout as [g [r [Hg [Hr Hget]]]].
  rewrite Hcg in Hg. inv Hg.
  apply build_output_ok in Hout0. destruct Hout0 as [Hin Hnin].
  rewrite Hids in Hin, Hnin.
  assert (Hchosen : In g (lane_ids s)).
  { destruct (in_dec string_dec g (lane_ids s)) as [Hi|Hn]; auto.
    rewrite (Hnin g Hn) in Hr. discriminate. }
  split; [auto|split; [auto|split; [auto|split]]].
  - intros k Hk. destruct (Hin k Hk) as [l [Hl Ho]]. exists l. split; auto.
    rewrite Hget. destruct (String.eqb k g) eqn:E; auto.
    apply String.eqb_eq in E. subst k. rewrite Hr in Ho. inv Ho. reflexivity.
  - intros k Hk. rewrite Hget. destruct (String.eqb k g) eqn:E.
    + apply String.eqb_eq in E. subst k. contradiction.
    + now rewrite Hnin.
Qed.

(** The snapshot built from the readings. *)
Lemma merge_get ls lanes_data : forall acc data,
  merge ls lanes_data acc = Ok data ->
  forall k, Dict.get k data =
    match last_reading k lanes_data with
    | Some d =>
        option_map (fun l => mkEntry (r_normal d) (r_emergency d) (wait l))
          (Dict.get k ls)
    | None => Dict.get k acc
    end.
Proof.
  induction lanes_data as [|d rest IH]; intros acc data H k; simpl in H.
  - inv H. reflexivity.
  - destruct (item (lane_id d) ls) as [l|x] eqn:El; [|discriminate].
    apply item_ok in El. rewrite (IH _ _ H k). simpl.
    destruct (last_reading k rest); auto.
    rewrite get_set, (String.eqb_sym k).
    destruct (String.eqb (lane_id d) k) eqn:E; auto.
    apply String.eqb_eq in E. subst k. now rewrite El.
Qed.

Lemma merge_key_has_reading ls lanes_data data k :
  merge ls lanes_data Dict.empty = Ok data ->
  In k (Dict.keys data) ->
  exists d l, last_reading k lanes_data = Some d /\ Dict.get k ls = Some l /\
              Dict.get k data = Some (mkEntry (r_normal d) (r_emergency d) (wait l)).
Proof.
  intros H Hin. apply get_some_in_keys in Hin. destruct Hin as [e He].
  pose proof (@merge_get ls lanes_data _ _ H k) as G. rewrite He in G.
  destruct (last_reading k lanes_data) as [d|]; [|discriminate].
  destruct (Dict.get k ls) as [l|]; [|discriminate].
  exists d, l. simpl in G. inv G. auto.
Qed.

Lemma calculate_green_time_config s s' e :
  same_config s s' -> _calculate_green_time s' e = _calculate_green_time s e.
Proof.
  intros [H1 [H2 [_ [_ H5]]]].
  unfold _calculate_green_time, base_time. now rewrite H1, H2, H5.
Qed.

(** The stored state after a call that returns. *)
Lemma update_stored env lanes_data s output s' data chosen gt :
  update_steps env lanes_data s output s' data chosen gt ->
  phase_of s' chosen = Some Green /\
  (forall k, In k (lane_ids s) -> k <> chosen -> phase_of s' k = Some Red) /\
  (forall k, wait_of s' k =
     option_map (fun l => wait (loop_effect (waits_step chosen) (lane_ids s) k l))
       (Dict.get k (lanes s))) /\
  green_started_at s' = Some (now_start env) /\
  current_green_time s' = gt /\
  same_config s s' /\
  merge (lanes s) lanes_data Dict.empty = Ok data /\
  exists e, Dict.get chosen data = Some e /\ _calculate_green_time s e = Ok gt.
Proof.
  intros [s1 s2 s3 e data' out0 Hmerge Hchoose Hwaits Hentry Hgt Hyellow Hflow Hstore Hout0 Hout].
  apply store_queues_frame in Hstore. destruct Hstore as [F4 [St4 W4]].
  apply apply_yellow_ok in Hyellow.
  destruct Hyellow as [F3 [_ [[lg [Hlg Hgreen]] [Hred [_ [W3 _]]]]]].
  apply update_waits_ok in Hwaits. destruct Hwaits as [F2 [_ Hw]].
  apply choose_frame in Hchoose.
  assert (Hids2 : lane_ids s2 = lane_ids s).
  { rewrite (same_but_lanes_ids F2), Hchoose. reflexivity. }
  assert (Hl1 : lanes s1 = lanes s) by (rewrite Hchoose; reflexivity).
  assert (Hcfg : same_config s s').
  { unfold same_config. rewrite F4. simpl. rewrite F3. simpl. rewrite F2. simpl.
    rewrite Hchoose. simpl. auto. }
  split; [|split; [|split; [|split; [|split; [|split; [|split]]]]]].
  - unfold phase_of. rewrite St4. simpl in Hlg. rewrite Hlg. simpl. now f_equal.
  - intros k Hin Hne. unfold phase_of. rewrite St4.
    destruct (Hred k Hne) as [l [Hl Hs]]; [simpl; now rewrite Hids2|].
    rewrite Hl. simpl. now f_equal.
  - intros k. unfold wait_of. rewrite W4, W3. simpl. rewrite Hw, Hl1.
    replace (lane_ids s1) with (lane_ids s) by (rewrite Hchoose; reflexivity).
    now destruct (Dict.get k (lanes s)).
  - rewrite F4. simpl. rewrite F3. reflexivity.
  - rewrite F4. simpl. rewrite F3. reflexivity.
  - exact Hcfg.
  - exact Hmerge.
  - exists e. split; auto. rewrite <- Hgt. symmetry.
    apply calculate_green_time_config.
    unfold same_config. rewrite F2. simpl. rewrite Hchoose. simpl. auto.
Qed.

(** The chosen lane is the current green lane and is reported Green. *)
Lemma update_exactly_one_green_aux env lanes_data s output s' data chosen gt :
  update_steps env lanes_data s output s' data chosen gt ->
  current_green s' = Some chosen /\ report_phase output chosen = Some Green.
Proof.
  intros Hsteps.
  destruct (update_report Hsteps) as [_ [Hcg [Hin [Hrep _]]]].
  destruct (update_stored Hsteps) as [Hgreen _].
  split; auto. destruct (Hrep chosen Hin) as [l [Hl Ho]].
  unfold report_phase, phase_of in *. rewrite Ho. rewrite Hl in Hgreen. exact Hgreen.
Qed.

(** C1. After every call of [update] that returns, exactly one registered
    lane is Green, in the returned report and in the stored lane state, and
    every other registered lane is Red in both; the report never shows Yellow
    for any lane. *)
Theorem update_exactly_one_green env lanes_data s output s' :
  update env lanes_data s = (Ok output, s') ->
  exists g,
    In g (lane_ids s') /\
    report_phase output g = Some Green /\
    phase_of s' g = Some Green /\
    (forall k, In k (lane_ids s') -> k <> g ->
       report_phase output k = Some Red /\ phase_of s' k = Some Red) /\
    (forall k, report_phase output k <> Some Yellow).
Proof.
  intros H. apply update_inv in H. destruct H as [data [chosen [gt Hsteps]]].
  destruct (update_report Hsteps) as [Hids [Hcg [Hin [Hrep Hnone]]]].
  destruct (update_stored Hsteps) as [Hgreen [Hred _]].
  assert (Hphase : forall k, In k (lane_ids s) -> report_phase output k = phase_of s' k).
  { intros k Hk. destruct (Hrep k Hk) as [l [Hl Ho]].
    unfold report_phase, phase_of. now rewrite Hl, Ho. }
  exists chosen. rewrite Hids. split; [auto|split; [|split; [auto|split]]].
  - now rewrite Hphase.
  - intros k Hk Hne. rewrite Hphase by assumption. split; now apply Hred.
  - intros k. destruct (in_dec string_dec k (lane_ids s)) as [Hk|Hk].
    + rewrite Hphase by assumption.
      destruct (string_dec k chosen) as [->|Hne].
      * rewrite Hgreen. discriminate.
      * rewrite (Hred k Hk Hne). discriminate.
    + unfold report_phase. rewrite (Hnone k Hk). discriminate.
Qed.

Lemma update_exactly_one_green_witness :
  exists output s',
    update sample_env idle_readings (init_default 4) = (Ok output, s') /\
    exists g,
      In g (lane_ids s') /\
      report_phase output g = Some Green /\
      phase_of s' g = Some Green /\
      (forall k, In k (lane_ids s') -> k <> g ->
         report_phase output k = Some Red /\ phase_of s' k = Some Red) /\
      (forall k, report_phase output k <> Some Yellow).
Proof.
  eexists. eexists. split.
  - vm_compute. reflexivity.
  - apply (@update_exactly_one_green sample_env idle_readings (init_default 4)).
    vm_compute. reflexivity.
Defined.

(** The claim as written fails for a lane id registered twice, which the
    request handler allows: it stores the lane ids of the request as they
    come, and the loop of [_update_waits] visits lane A twice, so that A,
    not chosen, waits two cycles more after one call. *)
Lemma update_wait_counters_repeated_id :
  let readings := [mkReading "A" 0 0; mkReading "A" 0 0; mkReading "B" 5 0] in
  let c := register ["A"; "A"; "B"] in
  exists output c',
    update_signal sample_env readings server0
      = (Ok output, mkServer (Some c') ["A"; "A"; "B"]) /\
    update sample_env readings c = (Ok output, c') /\
    wait_of c "A" = Some 0 /\
    current_green c' = Some "B" /\
    wait_of c' "A" = Some 2 /\
    report_wait output "A" = Some 2.
Proof.
  cbv zeta. eexists. eexists. split; [vm_compute; reflexivity|].
  repeat split.
Qed.

(** C2, amended. In a call of [update] that returns, on a controller whose
    registered lane ids are pairwise distinct, the wait counter of the
    chosen lane becomes 0, the wait counter of every other registered lane
    grows by exactly 1, no other stored wait counter changes, and the report
    shows the stored counters. *)
Theorem update_wait_counters env lanes_data s output s' :
  NoDup (lane_ids s) ->
  update env lanes_data s = (Ok output, s') ->
  exists chosen,
    current_green s' = Some chosen /\
    In chosen (lane_ids s) /\
    wait_of s' chosen = Some 0 /\
    (forall k, In k (lane_ids s) -> k <> chosen ->
       exists w, wait_of s k = Some w /\ wait_of s' k = Some (w + 1)) /\
    (forall k, ~ In k (lane_ids s) -> wait_of s' k = wait_of s k) /\
    (forall k, In k (lane_ids s) -> report_wait output k = wait_of s' k).
Proof.
  intros Hnd H. apply update_inv in H. destruct H as [data [chosen [gt Hsteps]]].
  destruct (update_report Hsteps) as [Hids [Hcg [Hin [Hrep Hnone]]]].
  destruct (update_stored Hsteps) as [_ [_ [Hw _]]].
  assert (Hsome : forall k, In k (lane_ids s) -> exists l, Dict.get k (lanes s) = Some l).
  { intros k Hk. destruct (Hrep k Hk) as [l' [Hl' _]].
    specialize (Hw k). unfold wait_of in Hw. rewrite Hl' in Hw.
    destruct (Dict.get k (lanes s)) as [l|]; [eauto|discriminate]. }
  exists chosen. split; [auto|split; [auto|split; [|split; [|split]]]].
  - destruct (Hsome chosen Hin) as [l Hl]. rewrite Hw, Hl. simpl.
    rewrite loop_effect_nodup by assumption.
    unfold waits_step. now rewrite String.eqb_refl.
  - intros k Hk Hne. destruct (Hsome k Hk) as [l Hl]. exists (wait l).
    unfold wait_of at 1. rewrite Hl. split; [reflexivity|].
    rewrite Hw, Hl. simpl. rewrite loop_effect_nodup by assumption.
    unfold waits_step. apply String.eqb_neq in Hne. now rewrite Hne.
  - intros k Hk. rewrite Hw. unfold wait_of.
    destruct (Dict.get k (lanes s)) as [l|]; simpl; auto.
    now rewrite loop_effect_not_in.
  - intros k Hk. destruct (Hrep k Hk) as [l [Hl Ho]].
    unfold report_wait, wait_of. now rewrite Hl, Ho.
Qed.

Lemma update_wait_counters_witness :
  exists output s',
    update sample_env idle_readings (init_default 4) = (Ok output, s') /\
    exists chosen,
      current_green s' = Some chosen /\
      In chosen (lane_ids (init_default 4)) /\
      wait_of s' chosen = Some 0 /\
      (forall k, In k (lane_ids (init_default 4)) -> k <> chosen ->
         exists w, wait_of (init_default 4) k = Some w /\ wait_of s' k = Some (w + 1)) /\
      (forall k, ~ In k (lane_ids (init_default 4)) ->
         wait_of s' k = wait_of (init_default 4) k) /\
      (forall k, In k (lane_ids (init_default 4)) ->
         report_wait output k = wait_of s' k).
Proof.
  eexists. eexists. split.
  - vm_compute. reflexivity.
  - apply (@update_wait_counters sample_env idle_readings (init_default 4)).
    + vm_compute. repeat constructor; simpl; intuition discriminate.
    + vm_compute. reflexivity.
Defined.

(** C8. Every call of [update] that returns, a call that keeps the current
    green lane included, restarts the green phase: the stored start instant
    is the clock value read by [_apply_yellow] in this call, and the stored
    green duration is the estimator's value for the chosen lane on this
    call's reading and the lane's wait counter before the call; the report
    carries that duration. In the next call the elapsed time that decides
    whether the lane is kept is therefore measured from this call. *)
Theorem update_restarts_green_clock env lanes_data s output s' :
  update env lanes_data s = (Ok output, s') ->
  green_started_at s' = Some (now_start env) /\
  exists chosen d l,
    current_green s' = Some chosen /\
    last_reading chosen lanes_data = Some d /\
    Dict.get chosen (lanes s) = Some l /\
    _calculate_green_time s (mkEntry (r_normal d) (r_emergency d) (wait l))
      = Ok (current_green_time s') /\
    option_map rep_green_time (Dict.get chosen output)
      = Some (Some (current_green_time s')) /\
    forall env' data',
      choose_without_emergency env' data' s' =
        if truthy_lane (Some chosen) && truthy_time (Some (now_start env)) then
          if Qltb (now_check env' - now_start env) (current_green_time s')
          then (Ok chosen, s')
          else (_choose_normal_lane s' data', s')
        else (_choose_normal_lane s' data', s').
Proof.
  intros H. apply update_inv in H. destruct H as [data [chosen [gt Hsteps]]].
  destruct (update_report Hsteps) as [Hids [Hcg [Hin [Hrep Hnone]]]].
  destruct (update_stored Hsteps)
    as [_ [_ [_ [Hstart [Hgt [Hcfg [Hmerge [e [He Hcalc]]]]]]]]].
  split; [exact Hstart|].
  assert (Hk : In chosen (Dict.keys data)) by (apply get_some_in_keys; eauto).
  destruct (@merge_key_has_reading _ _ _ _ Hmerge Hk) as [d [l [Hd [Hl Hde]]]].
  rewrite He in Hde. inv Hde.
  exists chosen, d, l. split; [auto|split; [auto|split; [auto|split; [|split]]]].
  - exact Hcalc.
  - destruct (Hrep chosen Hin) as [l' [_ Ho]]. rewrite Ho. simpl.
    now rewrite String.eqb_refl.
  - intros env' data'. unfold choose_without_emergency.
    rewrite Hcg, Hstart. reflexivity.
Qed.

Lemma update_restarts_green_clock_witness :
  exists output s',
    update (mkEnv 2 2 (fun _ => 1)) idle_readings
      (snd (update sample_env idle_readings (init_default 4))) = (Ok output, s') /\
    green_started_at s' = Some 2%Q /\
    exists chosen d l,
      current_green s' = Some chosen /\
      last_reading chosen idle_readings = Some d /\
      Dict.get chosen (lanes (snd (update sample_env idle_readings (init_default 4))))
        = Some l /\
      _calculate_green_time (snd (update sample_env idle_readings (init_default 4)))
        (mkEntry (r_normal d) (r_emergency d) (wait l))
        = Ok (current_green_time s') /\
      option_map rep_green_time (Dict.get chosen output)
        = Some (Some (current_green_time s')) /\
      forall env' data',
        choose_without_emergency env' data' s' =
          if truthy_lane (Some chosen) && truthy_time (Some 2%Q) then
            if Qltb (now_check env' - 2) (current_green_time s')
            then (Ok chosen, s')
            else (_choose_normal_lane s' data', s')
          else (_choose_normal_lane s' data', s').
Proof.
  eexists. eexists. split.
  - vm_compute. reflexivity.
  - apply (@update_restarts_green_clock (mkEnv 2 2 (fun _ => 1)) idle_readings
             (snd (update sample_env idle_readings (init_default 4)))).
    vm_compute. reflexivity.
Defined.

(** ** Comparisons, [max] and [min] *)

Lemma Qltb_lt x y : Qltb x y = true <-> (x < y)%Q.
Proof.
  unfold Qltb. rewrite negb_true_iff. split.
  - intros H. apply Qnot_le_lt. intros Hle.
    apply Qle_bool_iff in Hle. congruence.
  - intros H. destruct (Qle_bool y x) eqn:E; auto.
    apply Qle_bool_iff in E. exfalso. eapply Qlt_not_le; eauto.
Qed.

Lemma Qltb_ge x y : Qltb x y = false <-> (y <= x)%Q.
Proof.
  unfold Qltb. rewrite negb_false_iff. apply Qle_bool_iff.
Qed.

Lemma py_max_Qmax a b : py_max a b = Qmax a b.
Proof.
  unfold py_max, Qmax, GenericMinMax.gmax.
  destruct (Qcompare_spec a b) as [H|H|H]; destruct (Qltb a b) eqn:E; auto.
  - apply Qltb_lt in E. rewrite H in E. now apply Qlt_irrefl in E.
  - apply Qltb_lt in H. congruence.
  - apply Qltb_lt in E. exfalso. eapply Qlt_irrefl, Qlt_trans; eauto.
Qed.

Lemma py_min_Qmin a b : py_min a b = Qmin a b.
Proof.
  unfold py_min, Qmin, GenericMinMax.gmin.
  destruct (Qcompare_spec a b) as [H|H|H]; destruct (Qltb b a) eqn:E; auto.
  - apply Qltb_lt in E. rewrite H in E. now apply Qlt_irrefl in E.
  - apply Qltb_lt in E. exfalso. eapply Qlt_irrefl, Qlt_trans; eauto.
  - apply Qltb_lt in H. congruence.
Qed.

Lemma to_float_ok n : in_float_range n = true -> to_float n = Ok (inject_Z n).
Proof. intros H. unfold to_float. now rewrite H. Qed.

Lemma to_float_raises n : in_float_range n = false -> to_float n = Raise OverflowError.
Proof. intros H. unfold to_float. now rewrite H. Qed.

(** The estimator computes the clamp of the specification. *)
Lemma calculate_green_time_ok s e :
  ~ (clearance_rate s == 0)%Q -> entry_in_range e ->
  _calculate_green_time s e =
  Ok (spec_green_time (min_green s) (max_green s) (clearance_rate s)
        (d_normal e) (d_emergency e) (d_wait e)).
Proof.
  intros Hrate [Hn [Hw He]]. unfold _calculate_green_time.
  rewrite (to_float_ok _ Hn), (to_float_ok _ Hw), (to_float_ok _ He). simpl.
  destruct (Qeq_bool (clearance_rate s) 0) eqn:E.
  - apply Qeq_bool_eq in E. contradiction.
  - rewrite py_max_Qmax, py_min_Qmin. reflexivity.
Qed.

(** What the estimator returns, when it returns. *)
Lemma calculate_green_time_value s e g :
  _calculate_green_time s e = Ok g ->
  g = py_max (min_green s) (py_min (base_time s e) (max_green s)) /\
  ~ (clearance_rate s == 0)%Q /\ entry_in_range e.
Proof.
  unfold _calculate_green_time, to_float, entry_in_range. intros H.
  destruct (in_float_range (d_normal e)); [|discriminate]. simpl in H.
  destruct (Qeq_bool (clearance_rate s) 0) eqn:E; [discriminate|].
  destruct (in_float_range (d_wait e)); [|discriminate]. simpl in H.
  destruct (in_float_range (d_emergency e)); [|discriminate]. simpl in H.
  injection H as <-. repeat split; auto.
  intros Hz. apply Qeq_bool_iff in Hz. congruence.
Qed.




(** ** The fairness selector *)

Lemma py_max_by_first_maximal key l c :
  py_max_by key l = Ok c -> first_maximal key l c.
Proof.
  destruct l as [|x xs]; simpl; [discriminate|]. intros H. inv H.
  assert (G : forall xs pre best post,
    (forall y, In y pre -> (key y < key best)%Q) ->
    (forall y, In y post -> (key y <= key best)%Q) ->
    first_maximal key (pre ++ best :: post ++ xs)%list
      (fold_left (fun b y => if Qltb (key b) (key y) then y else b) xs best)).
  { clear. induction xs as [|y ys IH]; intros pre best post Hpre Hpost; simpl.
    - exists pre, post. rewrite app_nil_r. auto.
    - destruct (Qltb (key best) (key y)) eqn:E.
      + apply Qltb_lt in E.
        replace (pre ++ best :: post ++ y :: ys)%list
          with ((pre ++ best :: post) ++ y :: [] ++ ys)%list
          by (rewrite <- app_assoc; reflexivity).
        apply IH; [|intros ? []].
        intros z Hz. apply in_app_or in Hz. destruct Hz as [Hz|[Hz|Hz]].
        * eapply Qlt_trans; [apply Hpre|]; eauto.
        * now subst.
        * eapply Qle_lt_trans; [apply Hpost|]; eauto.
      + apply Qltb_ge in E.
        replace (pre ++ best :: post ++ y :: ys)%list
          with (pre ++ best :: (post ++ [y]) ++ ys)%list
          by (rewrite <- app_assoc; reflexivity).
        apply IH; auto.
        intros z Hz. apply in_app_or in Hz. destruct Hz as [Hz|[Hz|[]]].
        * now apply Hpost.
        * now subst. }
  apply (G xs [] x []); intros ? [].
Qed.

Lemma first_maximal_ext key key' l c :
  (forall x, In x l -> key' x = key x) ->
  first_maximal key l c -> first_maximal key' l c.
Proof.
  intros E [pre [post [Hl [Hpre Hpost]]]]. exists pre, post.
  assert (Ec : key' c = key c).
  { apply E. rewrite Hl. apply in_or_app. right. now left. }
  split; [auto|split].
  - intros x Hx. rewrite Ec, E; auto. rewrite Hl. apply in_or_app. now left.
  - intros x Hx. rewrite Ec, E; auto. rewrite Hl. apply in_or_app. right. now right.
Qed.

Lemma first_occurrences_ext ids : forall seen seen',
  (forall y, In y seen <-> In y seen') ->
  first_occurrences seen ids = first_occurrences seen' ids.
Proof.
  induction ids as [|x ids IH]; intros seen seen' E; simpl; auto.
  assert (Ex : str_in x seen = str_in x seen').
  { destruct (str_in x seen) eqn:A; destruct (str_in x seen') eqn:B; auto.
    - apply str_in_In, E, str_in_In in A. congruence.
    - apply str_in_In, E, str_in_In in B. congruence. }
  rewrite Ex. destruct (str_in x seen'); [now apply IH|].
  f_equal. apply IH. intros y. simpl. now rewrite E.
Qed.

Lemma in_first_occurrences ids : forall seen y,
  In y ids -> In y (first_occurrences seen ids) \/ In y seen.
Proof.
  induction ids as [|x ids IH]; intros seen y Hy; simpl in *; [tauto|].
  destruct (str_in x seen) eqn:E.
  - destruct Hy as [<-|Hy]; [right; now apply str_in_In | now apply IH].
  - destruct Hy as [<-|Hy]; [left; now left|].
    destruct (IH (x :: seen) y Hy) as [H|[H|H]]; auto.
    + left. now right.
    + subst. left. now left.
Qed.

(** The first maximum among the first occurrences is the first maximum of
    the whole list. *)
Lemma first_maximal_occurrences key ids : forall seen c,
  (forall y, In y seen -> (key y < key c)%Q) ->
  first_maximal key (first_occurrences seen ids) c ->
  first_maximal key ids c.
Proof.
  induction ids as [|x ids IH]; intros seen c Hseen H; simpl in H; auto.
  destruct (str_in x seen) eqn:E.
  - apply str_in_In in E. destruct (IH _ _ Hseen H) as [pre [post [Hl [Hpre Hpost]]]].
    exists (x :: pre), post. subst ids. split; [reflexivity|split; auto].
    intros y [<-|Hy]; auto.
  - destruct H as [pre [post [Hl [Hpre Hpost]]]]. destruct pre as [|p pre]; simpl in Hl.
    + inv Hl. exists [], ids. split; [reflexivity|split; [intros ? []|]].
      intros y Hy. destruct (@in_first_occurrences ids (c :: seen) y Hy) as [Hi|[<-|Hi]].
      * now apply Hpost.
      * apply Qle_refl.
      * apply Qlt_le_weak. now apply Hseen.
    + inv Hl.
      assert (Hx : (key p < key c)%Q) by (apply Hpre; now left).
      destruct (IH (p :: seen) c) as [pre' [post' [Hl' [Hpre' Hpost']]]].
      * intros y [<-|Hy]; auto.
      * exists pre, post. split; [auto|split; auto]. intros y Hy. apply Hpre. now right.
      * exists (p :: pre'), post'. subst ids. split; [reflexivity|split; auto].
        intros y [<-|Hy]; auto.
Qed.

Lemma compute_score_ok s e sc :
  compute_score s e = Ok sc ->
  sc = score s e /\
  in_float_range (d_wait e) = true /\ in_float_range (d_normal e) = true.
Proof.
  unfold compute_score, to_float. intros H.
  destruct (in_float_range (d_wait e)); [|discriminate]. simpl in H.
  destruct (in_float_range (d_normal e)); [|discriminate]. simpl in H.
  injection H as <-. auto.
Qed.

Lemma compute_score_total s e :
  in_float_range (d_wait e) = true -> in_float_range (d_normal e) = true ->
  compute_score s e = Ok (score s e).
Proof.
  intros Hw Hn. unfold compute_score. now rewrite (to_float_ok _ Hw), (to_float_ok _ Hn).
Qed.

Lemma build_scores_ok s data ids : forall acc scores,
  build_scores s data ids acc = Ok scores ->
  Dict.keys scores = (Dict.keys acc ++ first_occurrences (Dict.keys acc) ids)%list /\
  (forall k, In k ids -> exists e, Dict.get k data = Some e /\
                                   Dict.get k scores = Some (score s e)) /\
  (forall k, ~ In k ids -> Dict.get k scores = Dict.get k acc).
Proof.
  induction ids as [|x ids IH]; intros acc scores H; simpl in H.
  - inv H. simpl. rewrite app_nil_r. split; [auto|split; [intros k []|auto]].
  - destruct (item x data) as [e|err] eqn:Ee; [|discriminate].
    simpl in H. destruct (compute_score s e) as [sc|err] eqn:Es; [|discriminate].
    apply compute_score_ok in Es. destruct Es as [-> _].
    apply item_ok in Ee. apply IH in H. destruct H as [Hkeys [Hin Hout]].
    split; [|split].
    + rewrite Hkeys. simpl. destruct (str_in x (Dict.keys acc)) eqn:E.
      * apply str_in_In in E. now rewrite keys_set_present.
      * assert (Hn : ~ In x (Dict.keys acc)).
        { intros Hi. apply str_in_In in Hi. congruence. }
        rewrite keys_set_absent by assumption. rewrite <- app_assoc. simpl.
        do 2 f_equal. apply first_occurrences_ext.
        intros y. rewrite in_app_iff. simpl. tauto.
    + intros k [<-|Hk].
      * destruct (in_dec string_dec x ids) as [Hi|Hn]; [now apply Hin|].
        exists e. split; auto. rewrite Hout by assumption. apply get_set_same.
      * now apply Hin.
    + intros k Hk. rewrite Hout by (intros Hi; apply Hk; now right).
      apply get_set_other. intros ->. apply Hk. now left.
Qed.

Lemma score_spec s e :
  (score s e == spec_score (wait_boost s) (starvation_limit s) (d_normal e) (d_wait e))%Q.
Proof.
  unfold score, spec_score.
  destruct (Z_le_dec (starvation_limit s) (d_wait e)) as [H|H].
  - apply Z.leb_le in H. rewrite H. reflexivity.
  - apply Z.leb_nle in H. rewrite H. ring.
Qed.

(** The selector returns the first registered lane with the greatest score. *)
Lemma choose_normal_lane_ok s data c :
  _choose_normal_lane s data = Ok c ->
  first_maximal (lane_score s data) (lane_ids s) c /\
  (forall k, In k (lane_ids s) -> In k (Dict.keys data)).
Proof.
  unfold _choose_normal_lane. intros H.
  destruct (build_scores s data (lane_ids s) Dict.empty) as [scores|x] eqn:B;
    [|discriminate].
  apply build_scores_ok in B. destruct B as [Hkeys [Hin _]]. simpl in Hkeys.
  apply py_max_by_first_maximal in H. rewrite Hkeys in H.
  apply first_maximal_occurrences in H; [|intros y []].
  split.
  - revert H. apply first_maximal_ext. intros k Hk.
    destruct (Hin k Hk) as [e [He Hs]]. unfold lane_score, scores_get.
    now rewrite He, Hs.
  - intros k Hk. destruct (Hin k Hk) as [e [He _]]. apply get_some_in_keys. eauto.
Qed.

(** ** [update] returns on well-formed input *)

Lemma merge_total ls lanes_data : forall acc,
  (forall d, In d lanes_data -> In (lane_id d) (Dict.keys ls)) ->
  exists data, merge ls lanes_data acc = Ok data /\
    forall k, In k (Dict.keys data) <->
              In k (Dict.keys acc) \/ In k (map lane_id lanes_data).
Proof.
  induction lanes_data as [|d rest IH]; intros acc Hd; simpl.
  - exists acc. split; auto. intros k. tauto.
  - assert (Hin : In (lane_id d) (Dict.keys ls)) by (apply Hd; now left).
    apply get_some_in_keys in Hin. destruct Hin as [l Hl].
    unfold item. rewrite Hl.
    destruct (IH (Dict.set (lane_id d) (mkEntry (r_normal d) (r_emergency d) (wait l)) acc))
      as [data [Hm Hk]].
    { intros d' Hd'. apply Hd. now right. }
    exists data. split; auto. intros k. rewrite Hk, in_keys_set.
    split; intros H; intuition auto.
Qed.

Lemma py_max_Z_spec xs : forall x,
  In (py_max_Z x xs) (x :: xs) /\
  forall y, In y (x :: xs) -> y <= py_max_Z x xs.
Proof.
  unfold py_max_Z. induction xs as [|z xs IH]; intros x; simpl.
  - split; [auto|]. intros y [<-|[]]. lia.
  - destruct (IH (if x <? z then z else x)) as [Hin Hmax]. split.
    + destruct Hin as [Hin|Hin]; [|auto].
      rewrite <- Hin. destruct (x <? z); auto.
    + intros y Hy.
      assert (Hx : x <= (if x <? z then z else x) /\ z <= (if x <? z then z else x)).
      { destruct (x <? z) eqn:E; [apply Z.ltb_lt in E|apply Z.ltb_ge in E]; lia. }
      destruct Hy as [<-|[<-|Hy]].
      * etransitivity; [apply Hx|]. apply Hmax. now left.
      * etransitivity; [apply Hx|]. apply Hmax. now left.
      * apply Hmax. now right.
Qed.

(** The lanes tied at the greatest emergency count: there is one, and each
    of them is a key of [data] with a positive count that no lane exceeds. *)
Lemma tied_spec data e0 es :
  emergencies_of data = e0 :: es ->
  let max_count := py_max_Z (emergency_at data e0) (map (emergency_at data) es) in
  let tied := tied_of data (e0 :: es) max_count in
  tied <> [] /\
  0 < max_count /\
  (forall k, In k (Dict.keys data) -> emergency_at data k <= max_count) /\
  (forall c, In c tied <->
     In c (Dict.keys data) /\ emergency_at data c = max_count).
Proof.
  intros He max_count tied.
  destruct (py_max_Z_spec (map (emergency_at data) es) (emergency_at data e0))
    as [Hin Hmax]. fold max_count in Hin, Hmax.
  change (emergency_at data e0 :: map (emergency_at data) es)
    with (map (emergency_at data) (e0 :: es)) in Hin, Hmax.
  assert (Hem : forall k, In k (e0 :: es) <->
                   In k (Dict.keys data) /\ 0 < emergency_at data k).
  { intros k. rewrite <- He. unfold emergencies_of. rewrite filter_In.
    now rewrite Z.ltb_lt. }
  apply in_map_iff in Hin. destruct Hin as [m [Hm Hmin]].
  assert (Hpos : 0 < max_count).
  { rewrite <- Hm. now apply Hem. }
  assert (Htied : forall c, In c tied <->
     In c (Dict.keys data) /\ emergency_at data c = max_count).
  { intros c. unfold tied, tied_of. rewrite filter_In, Z.eqb_eq, Hem.
    split; [tauto|]. intros [H1 H2]. rewrite H2. tauto. }
  split; [|split; [auto|split; [|auto]]].
  - intros Hnil. assert (Hi : In m tied) by (apply Htied; split; [now apply Hem|auto]).
    rewrite Hnil in Hi. destruct Hi.
  - intros k Hk. destruct (Z_lt_le_dec 0 (emergency_at data k)) as [Hp|Hp]; [|lia].
    apply Hmax. apply in_map. apply Hem. auto.
Qed.

Lemma circular_scan_some ids tied start lane :
  circular_scan ids tied start = Some lane -> In lane tied.
Proof.
  unfold circular_scan. intros H. apply find_some in H.
  now apply str_in_In.
Qed.

(** The emergency chooser never raises; what it returns is a lane tied at
    the greatest positive emergency count, which it also remembers. *)
Lemma choose_emergency_lane_ok data s :
  (emergencies_of data = [] /\ _choose_emergency_lane data s = (Ok None, s)) \/
  (exists c,
     _choose_emergency_lane data s = (Ok (Some c), with_last_emergency (Some c) s) /\
     In c (Dict.keys data) /\
     0 < emergency_at data c /\
     forall k, In k (Dict.keys data) -> emergency_at data k <= emergency_at data c).
Proof.
  unfold _choose_emergency_lane.
  destruct (emergencies_of data) as [|e0 es] eqn:He; [left; auto|right].
  destruct (tied_spec data He) as [Hne [Hpos [Hmax Htied]]].
  set (max_count := py_max_Z (emergency_at data e0) (map (emergency_at data) es)) in *.
  set (tied := tied_of data (e0 :: es) max_count) in *.
  assert (G : forall c, In c tied ->
    In c (Dict.keys data) /\ 0 < emergency_at data c /\
    forall k, In k (Dict.keys data) -> emergency_at data k <= emergency_at data c).
  { intros c Hc. apply Htied in Hc. destruct Hc as [H1 H2]. rewrite H2. auto. }
  destruct tied as [|c [|c' rest]] eqn:Et.
  - contradiction.
  - exists c. split; [reflexivity|]. apply G. now left.
  - destruct (circular_scan (lane_ids s) (c :: c' :: rest) (scan_start s)) as [lane|] eqn:Es.
    + exists lane. split; [reflexivity|]. apply G. eapply circular_scan_some; eauto.
    + exists c. split; [reflexivity|]. apply G. now left.
Qed.

Lemma build_scores_total s data ids : forall acc,
  data_in_range data ->
  (forall k, In k ids -> In k (Dict.keys data)) ->
  exists scores, build_scores s data ids acc = Ok scores.
Proof.
  induction ids as [|x ids IH]; intros acc Hr Hk; simpl; [eauto|].
  assert (Hin : In x (Dict.keys data)) by (apply Hk; now left).
  apply get_some_in_keys in Hin. destruct Hin as [e He].
  unfold item. rewrite He. simpl.
  destruct (Hr x e He) as [Hn [Hw _]].
  rewrite (compute_score_total s e Hw Hn).
  apply IH; [exact Hr|]. intros k Hi. apply Hk. now right.
Qed.

Lemma first_maximal_in key l c : first_maximal key l c -> In c l.
Proof.
  intros [pre [post [-> _]]]. apply in_or_app. right. now left.
Qed.

Lemma choose_normal_lane_total s data :
  lane_ids s <> [] -> data_in_range data ->
  (forall k, In k (lane_ids s) -> In k (Dict.keys data)) ->
  exists c, _choose_normal_lane s data = Ok c /\ In c (lane_ids s).
Proof.
  intros Hne Hr Hk. unfold _choose_normal_lane.
  destruct (@build_scores_total s data (lane_ids s) Dict.empty Hr Hk) as [scores Hs].
  assert (E : exists c, py_max_by (scores_get scores) (Dict.keys scores) = Ok c).
  { pose proof (build_scores_ok _ _ _ _ Hs) as [Hkeys _]. simpl in Hkeys.
    rewrite Hkeys. destruct (lane_ids s) as [|x ids]; [congruence|].
    simpl. eauto. }
  destruct E as [c Hc]. exists c.
  assert (H : _choose_normal_lane s data = Ok c).
  { unfold _choose_normal_lane. now rewrite Hs. }
  unfold _choose_normal_lane in H. rewrite Hs in *. split; auto.
  assert (H' : _choose_normal_lane s data = Ok c).
  { unfold _choose_normal_lane. now rewrite Hs. }
  apply choose_normal_lane_ok in H'. destruct H' as [Hf _].
  eapply first_maximal_in; eauto.
Qed.

Lemma bind_eq A B (m : M A) (k : A -> M B) s a s1 :
  m s = (Ok a, s1) -> bind m k s = k a s1.
Proof. unfold bind. now intros ->. Qed.

Lemma choose_total env data s :
  lane_ids s <> [] -> data_in_range data ->
  (forall k, In k (lane_ids s) <-> In k (Dict.keys data)) ->
  (forall g, current_green s = Some g -> In g (lane_ids s)) ->
  exists c s1, choose env data s = (Ok c, s1) /\ In c (lane_ids s).
Proof.
  intros Hne Hr Hkeys Hcg.
  assert (N : forall s0, lane_ids s0 = lane_ids s -> current_green s0 = current_green s ->
     exists c, choose_without_emergency env data s0 = (Ok c, s0) /\ In c (lane_ids s)).
  { intros s0 Hids Hg.
    destruct (@choose_normal_lane_total s0 data) as [c [Hc Hin]].
    { now rewrite Hids. }
    { exact Hr. }
    { intros k Hk. apply Hkeys. now rewrite <- Hids. }
    rewrite Hids in Hin.
    unfold choose_without_emergency. rewrite Hg.
    destruct (current_green s) as [g|] eqn:Eg;
      [destruct (green_started_at s0) as [t0|]|];
      try (exists c; rewrite Hc; now split).
    destruct (truthy_lane (Some g) && truthy_time (Some t0));
      try (exists c; rewrite Hc; now split).
    destruct (Qltb (now_check env - t0) (current_green_time s0));
      try (exists c; rewrite Hc; now split).
    exists g. split; auto. }
  unfold choose.
  destruct (choose_emergency_lane_ok data s) as [[_ H]|[c [H [Hin _]]]].
  - destruct (N s eq_refl eq_refl) as [c [Hc Hin]].
    exists c, s. split; auto. erewrite bind_eq by exact H. exact Hc.
  - destruct (truthy_lane (Some c)) eqn:T.
    + exists c, (with_last_emergency (Some c) s). split; [|now apply Hkeys].
      erewrite bind_eq by exact H. cbv beta iota. now rewrite T.
    + destruct (N (with_last_emergency (Some c) s) eq_refl eq_refl) as [c' [Hc Hin']].
      exists c', (with_last_emergency (Some c) s). split; auto.
      erewrite bind_eq by exact H. cbv beta iota. now rewrite T.
Qed.

Lemma update_waits_total chosen s :
  (forall k, In k (lane_ids s) -> In k (Dict.keys (lanes s))) ->
  exists s', _update_waits chosen s = (Ok tt, s').
Proof.
  intros Hk. destruct (field_loop_total (waits_step chosen) (lane_ids s) s Hk) as [s' H].
  exists s'. unfold _update_waits. erewrite bind_eq by reflexivity.
  rewrite <- H. apply for_each_ext. intros lane s0. unfold waits_step.
  destruct (String.eqb lane chosen); reflexivity.
Qed.

Lemma apply_yellow_total to_green now s :
  (forall k, In k (lane_ids s) -> In k (Dict.keys (lanes s))) ->
  In to_green (lane_ids s) ->
  exists s', _apply_yellow to_green now s = (Ok tt, s').
Proof.
  intros Hk Hin.
  destruct (field_loop_total (yellow_step to_green) (lane_ids s) s Hk) as [s1 H].
  assert (H' : for_each (lane_ids s)
            (fun lane => if String.eqb lane to_green
                         then set_lane_field lane (set_state Yellow)
                         else set_lane_field lane (set_state Red)) s = (Ok tt, s1)).
  { rewrite <- H. apply for_each_ext. intros lane s0. unfold yellow_step.
    destruct (String.eqb lane to_green); reflexivity. }
  apply field_loop_ok in H. destruct H as [_ [_ Hget]].
  assert (Hg : exists l, Dict.get to_green (lanes s1) = Some l).
  { rewrite Hget. apply Hk, get_some_in_keys in Hin. destruct Hin as [l ->].
    simpl. eauto. }
  destruct Hg as [l Hl].
  eexists. unfold _apply_yellow.
  erewrite bind_eq by reflexivity.
  erewrite bind_eq by exact H'.
  erewrite bind_eq by (unfold set_lane_field; rewrite Hl; reflexivity).
  reflexivity.
Qed.

Lemma arrivals_total rand chosen ids : forall k0 data,
  (forall k, In k ids -> In k (Dict.keys data)) ->
  exists data', arrivals rand chosen ids k0 data = Ok data' /\
    forall k, In k (Dict.keys data') <-> In k (Dict.keys data).
Proof.
  induction ids as [|x ids IH]; intros k0 data Hk; simpl.
  - exists data. split; auto. tauto.
  - destruct (String.eqb x chosen).
    + apply IH. intros k Hi. apply Hk. now right.
    + assert (Hin : In x (Dict.keys data)) by (apply Hk; now left).
      pose proof Hin as Hin'.
      apply get_some_in_keys in Hin. destruct Hin as [e He].
      unfold item. rewrite He.
      destruct (IH (S k0) (Dict.set x (entry_set_normal (d_normal e + rand k0) e) data))
        as [data' [Hd Hkeys]].
      { intros k Hi. apply in_keys_set. right. apply Hk. now right. }
      exists data'. split; auto. intros k. rewrite Hkeys, in_keys_set.
      split; [intros [->|H]; auto | auto].
Qed.

Lemma simulate_flow_total s rand data chosen gt :
  In chosen (Dict.keys data) ->
  (forall k, In k (lane_ids s) -> In k (Dict.keys data)) ->
  finite_float (clearance_rate s * gt) = true ->
  exists data', _simulate_flow s rand data chosen gt = Ok data' /\
    forall k, In k (Dict.keys data') <-> In k (Dict.keys data).
Proof.
  intros Hc Hk Hfin. unfold _simulate_flow.
  pose proof Hc as Hc'. apply get_some_in_keys in Hc. destruct Hc as [e He].
  unfold item. rewrite He. simpl. unfold py_int. rewrite Hfin. simpl.
  match goal with |- context [arrivals _ _ _ _ ?d] =>
    destruct (@arrivals_total rand chosen (lane_ids s) O d) as [data' [Hd Hkeys]]
  end.
  { intros k Hi. apply in_keys_set. right. now apply Hk. }
  exists data'. split; auto. intros k. rewrite Hkeys, in_keys_set.
  split; [intros [->|H]; auto | auto].
Qed.

Lemma store_queues_total data s :
  (forall k, In k (lane_ids s) -> In k (Dict.keys data)) ->
  (forall k, In k (lane_ids s) -> In k (Dict.keys (lanes s))) ->
  exists s', store_queues data s = (Ok tt, s').
Proof.
  intros Hd Hl. unfold store_queues. erewrite bind_eq by reflexivity.
  revert Hd Hl. generalize (lane_ids s) as ids. intros ids. revert s.
  induction ids as [|x ids IH]; intros s Hd Hl; simpl.
  - eexists. reflexivity.
  - assert (Hx : In x (Dict.keys data)) by (apply Hd; now left).
    apply get_some_in_keys in Hx. destruct Hx as [e He].
    assert (Hy : In x (Dict.keys (lanes s))) by (apply Hl; now left).
    apply get_some_in_keys in Hy. destruct Hy as [l Hy].
    erewrite bind_eq.
    2:{ erewrite bind_eq by (unfold lift, item; rewrite He; reflexivity).
        unfold set_lane_field. rewrite Hy. reflexivity. }
    apply IH.
    + intros k Hi. apply Hd. now right.
    + intros k Hi. simpl. apply in_keys_set. right. apply Hl. now right.
Qed.

Lemma keys_of_option_map V W (f : V -> W) (d d' : Dict.t V) :
  (forall k, option_map f (Dict.get k d') = option_map f (Dict.get k d)) ->
  forall k, In k (Dict.keys d') <-> In k (Dict.keys d).
Proof.
  intros H k. rewrite <- !get_some_in_keys. specialize (H k).
  destruct (Dict.get k d'), (Dict.get k d); simpl in H; try discriminate;
    split; intros [x Hx]; eauto; discriminate.
Qed.

(** On a well-formed controller whose readings name exactly the registered
    lanes every step of [update] succeeds. *)
Lemma merge_keys ls lanes_data : forall acc data,
  merge ls lanes_data acc = Ok data ->
  forall k, In k (Dict.keys data) <->
            In k (Dict.keys acc) \/ In k (map lane_id lanes_data).
Proof.
  induction lanes_data as [|d rest IH]; intros acc data H k; simpl in H.
  - inv H. simpl. tauto.
  - destruct (item (lane_id d) ls) as [l|x]; [|discriminate].
    rewrite (IH _ _ H k), in_keys_set. simpl. split; intros G; intuition auto.
Qed.

(** Once the snapshot is built, a lane chosen and its green time computed,
    nothing else in [update] raises on a well-formed controller. *)
Lemma update_ok_steps env lanes_data s data c s1 e gt :
  wf s -> readings_cover s lanes_data ->
  merge (lanes s) lanes_data Dict.empty = Ok data ->
  choose env data s = (Ok c, s1) -> In c (lane_ids s) ->
  Dict.get c data = Some e ->
  _calculate_green_time s e = Ok gt ->
  finite_float (clearance_rate s * gt) = true ->
  exists output s', update env lanes_data s = (Ok output, s') /\ wf s'.
Proof.
  intros [Hne [Hkeys [Hcg Hrate]]] Hcov Hm Hc Hin He Hgt0 Hfin.
  unfold readings_cover in Hcov.
  assert (Hdata : forall k, In k (lane_ids s) <-> In k (Dict.keys data)).
  { intros k. rewrite (@merge_keys _ _ _ _ Hm k), Hcov. simpl. tauto. }
  pose proof (choose_frame _ _ _ Hc) as F1.
  assert (Hids1 : lane_ids s1 = lane_ids s) by (rewrite F1; reflexivity).
  assert (Hl1 : lanes s1 = lanes s) by (rewrite F1; reflexivity).
  destruct (@update_waits_total c s1) as [s2 Hw].
  { rewrite Hids1, Hl1. intros k. apply Hkeys. }
  pose proof (update_waits_ok _ _ Hw) as [F2 [_ G2]].
  assert (Hids2 : lane_ids s2 = lane_ids s).
  { rewrite (same_but_lanes_ids F2). exact Hids1. }
  assert (K2 : forall k, In k (Dict.keys (lanes s2)) <-> In k (Dict.keys (lanes s))).
  { intros k. rewrite <- !get_some_in_keys, G2, Hl1.
    destruct (Dict.get k (lanes s)); simpl; split; intros [v Hv]; eauto; discriminate. }
  assert (Hcd : In c (Dict.keys data)) by now apply Hdata.
  assert (Hrate2 : clearance_rate s2 = clearance_rate s).
  { rewrite F2. simpl. rewrite F1. reflexivity. }
  assert (Hgt : _calculate_green_time s2 e = Ok gt).
  { rewrite <- Hgt0. unfold _calculate_green_time, base_time.
    rewrite F2. simpl. rewrite F1. reflexivity. }
  destruct (@apply_yellow_total c (now_start env) (with_green_time gt s2)) as [s3 Hy].
  { simpl. rewrite Hids2. intros k Hk. apply (proj2 (K2 _)). apply (proj1 (Hkeys _)). exact Hk. }
  { simpl. now rewrite Hids2. }
  pose proof (apply_yellow_ok _ _ _ Hy) as [F3 [_ [_ [_ [_ [W3 _]]]]]].
  simpl in W3, F3.
  assert (Hids3 : lane_ids s3 = lane_ids s) by (rewrite F3; simpl; exact Hids2).
  assert (K3 : forall k, In k (Dict.keys (lanes s3)) <-> In k (Dict.keys (lanes s))).
  { intros k. rewrite <- K2. revert k. eapply keys_of_option_map. exact W3. }
  destruct (@simulate_flow_total s3 (randint env) data c (current_green_time s3))
    as [data' [Hf Kd]]; auto.
  { rewrite Hids3. intros k. apply Hdata. }
  { rewrite F3. simpl. rewrite Hrate2. exact Hfin. }
  destruct (@store_queues_total data' s3) as [s4 Hs].
  { rewrite Hids3. intros k Hk. apply (proj2 (Kd _)). apply (proj1 (Hdata _)). exact Hk. }
  { rewrite Hids3. intros k Hk. apply (proj2 (K3 _)). apply (proj1 (Hkeys _)). exact Hk. }
  pose proof (store_queues_frame _ _ Hs) as [F4 [_ W4]].
  assert (Hids4 : lane_ids s4 = lane_ids s).
  { rewrite (same_but_lanes_ids F4). exact Hids3. }
  assert (K4 : forall k, In k (Dict.keys (lanes s4)) <-> In k (Dict.keys (lanes s))).
  { intros k. rewrite <- K3. revert k. eapply keys_of_option_map. exact W4. }
  destruct (@build_output_total (lanes s4) (lane_ids s4) Dict.empty) as [out0 Ho].
  { rewrite Hids4. intros k Hk. apply (proj2 (K4 _)). apply (proj1 (Hkeys _)). exact Hk. }
  assert (Hcg4 : current_green s4 = Some c).
  { rewrite F4. simpl. rewrite F3. reflexivity. }
  pose proof (build_output_ok _ _ _ Ho) as [Hin0 _].
  destruct (Hin0 c) as [l [_ Hgo]]; [now rewrite Hids4|].
  eexists. exists s4. split.
  - unfold update.
    erewrite bind_eq by reflexivity.
    erewrite bind_eq by (unfold lift; rewrite Hm; reflexivity).
    erewrite bind_eq by exact Hc.
    erewrite bind_eq by exact Hw.
    erewrite bind_eq by reflexivity.
    erewrite bind_eq
      by (unfold lift, item; rewrite He; simpl; rewrite Hgt; reflexivity).
    erewrite bind_eq by reflexivity.
    erewrite bind_eq by exact Hy.
    erewrite bind_eq by reflexivity.
    erewrite bind_eq by (unfold lift; rewrite Hf; reflexivity).
    erewrite bind_eq by exact Hs.
    erewrite bind_eq by reflexivity.
    erewrite bind_eq by (unfold lift; rewrite Ho; reflexivity).
    unfold lift, add_green_time. rewrite Hcg4. unfold item. rewrite Hgo. reflexivity.
  - split; [now rewrite Hids4|split; [|split]].
    + intros k. rewrite Hids4, K4. apply Hkeys.
    + intros g Hg. rewrite Hcg4 in Hg. inv Hg. now rewrite Hids4.
    + rewrite F4. simpl. rewrite F3. simpl. rewrite Hrate2. exact Hrate.
Qed.

(** The snapshot of readings and waits that convert to float. *)
Lemma merge_in_range ls lanes_data : forall acc data,
  merge ls lanes_data acc = Ok data ->
  readings_in_range lanes_data ->
  (forall k l, Dict.get k ls = Some l -> in_float_range (wait l) = true) ->
  data_in_range acc -> data_in_range data.
Proof.
  induction lanes_data as [|d rest IH]; intros acc data H Hr Hw Ha; simpl in H.
  - now inv H.
  - destruct (item (lane_id d) ls) as [l|x] eqn:El; [|discriminate].
    apply item_ok in El. eapply IH; [exact H| | exact Hw|].
    + intros d' Hd'. apply Hr. now right.
    + intros k e. rewrite get_set. destruct (String.eqb k (lane_id d)).
      * intros E. inv E. destruct (Hr d (or_introl eq_refl)) as [Hn He].
        repeat split; simpl; eauto.
      * apply Ha.
Qed.

(** The green time lies between [min_green] and the greater of the two
    bounds. *)
Lemma green_time_between s e gt :
  _calculate_green_time s e = Ok gt ->
  (min_green s <= gt)%Q /\ (gt <= Qmax (min_green s) (max_green s))%Q.
Proof.
  intros H. apply calculate_green_time_value in H. destruct H as [-> _].
  rewrite py_max_Qmax, py_min_Qmin. split.
  - apply Q.le_max_l.
  - apply Q.max_le_compat_l, Q.le_min_r.
Qed.

Lemma update_ok env lanes_data s :
  wf s -> readings_cover s lanes_data ->
  readings_in_range lanes_data -> waits_in_range s -> flow_in_range s ->
  exists output s', update env lanes_data s = (Ok output, s') /\ wf s'.
Proof.
  intros Hwf Hcov Hrr Hwr Hfr.
  pose proof Hwf as [Hne [Hkeys [Hcg Hrate]]]. unfold readings_cover in Hcov.
  destruct (@merge_total (lanes s) lanes_data Dict.empty) as [data [Hm Hdk]].
  { intros d Hd. apply (proj1 (Hkeys _)). apply (proj1 (Hcov _)). apply in_map. exact Hd. }
  assert (Hdata : forall k, In k (lane_ids s) <-> In k (Dict.keys data)).
  { intros k. rewrite Hdk, Hcov. simpl. tauto. }
  assert (Hdr : data_in_range data).
  { eapply merge_in_range; [exact Hm|exact Hrr|exact Hwr|]. intros k e H. discriminate. }
  destruct (@choose_total env data s Hne Hdr Hdata Hcg) as [c [s1 [Hc Hin]]].
  assert (Hcd : In c (Dict.keys data)) by now apply Hdata.
  apply get_some_in_keys in Hcd. destruct Hcd as [e He].
  pose proof (@calculate_green_time_ok s e Hrate (Hdr c e He)) as Hgt.
  destruct (green_time_between _ _ Hgt) as [Hlo Hhi].
  eapply update_ok_steps; eauto.
Qed.

(** Tuning constants that keep the flow finite: non-negative, with
    [clearance_rate] times the greater green bound within the float range. *)
Lemma flow_in_range_bound s :
  (0 <= clearance_rate s)%Q -> (0 <= min_green s)%Q ->
  (clearance_rate s * Qmax (min_green s) (max_green s) < inject_Z float_limit)%Q ->
  flow_in_range s.
Proof.
  intros Hr Hm Hb g Hlo Hhi. unfold finite_float. apply Qltb_lt.
  assert (Hg : (0 <= g)%Q) by (eapply Qle_trans; eauto).
  rewrite Qabs_pos by (now apply Qmult_le_0_compat).
  eapply Qle_lt_trans; [|exact Hb].
  rewrite !(Qmult_comm (clearance_rate s)). now apply Qmult_le_compat_r.
Qed.

(** [update] returns a report on a well-formed controller whose readings
    name exactly the registered lanes, when the counts of the readings and
    the stored waits convert to float and the tuning constants keep
    [clearance_rate * green_time] finite; the controller stays well-formed
    and keeps its list of lanes. *)
Theorem update_returns env lanes_data s :
  wf s -> readings_cover s lanes_data ->
  readings_in_range lanes_data -> waits_in_range s -> flow_in_range s ->
  exists output s',
    update env lanes_data s = (Ok output, s') /\ wf s' /\ lane_ids s' = lane_ids s.
Proof.
  intros Hwf Hcov Hrr Hwr Hfr.
  destruct (@update_ok env lanes_data s Hwf Hcov Hrr Hwr Hfr)
    as [output [s' [Hup Hwf']]].
  exists output, s'. split; [exact Hup|split; [exact Hwf'|]].
  destruct (update_inv _ _ _ Hup) as [data [chosen [gt Hsteps]]].
  now destruct (update_report Hsteps) as [Hids _].
Qed.

Lemma last_reading_some lanes_data : forall k d,
  last_reading k lanes_data = Some d -> In d lanes_data /\ lane_id d = k.
Proof.
  induction lanes_data as [|d0 rest IH]; intros k d H; simpl in H; [discriminate|].
  destruct (last_reading k rest) as [d'|] eqn:E.
  - inv H. destruct (IH _ _ E). split; [now right|auto].
  - destruct (String.eqb (lane_id d0) k) eqn:Ek; [|discriminate].
    inv H. apply String.eqb_eq in Ek. split; [now left|auto].
Qed.

Lemma last_reading_exists lanes_data : forall k,
  In k (map lane_id lanes_data) -> exists d, last_reading k lanes_data = Some d.
Proof.
  induction lanes_data as [|d0 rest IH]; intros k H; simpl in *; [destruct H|].
  destruct (last_reading k rest) as [d'|] eqn:E; [eauto|].
  destruct H as [<-|H].
  - rewrite String.eqb_refl. eauto.
  - destruct (IH k H) as [d Hd]. congruence.
Qed.

(** Without a positive emergency count the chooser returns [None] and
    remembers nothing. *)
Lemma choose_emergency_lane_none data s :
  (forall k, In k (Dict.keys data) -> emergency_at data k <= 0) ->
  _choose_emergency_lane data s = (Ok None, s).
Proof.
  intros H. destruct (choose_emergency_lane_ok data s) as [[_ E]|[c [_ [Hin [Hpos _]]]]].
  - exact E.
  - specialize (H c Hin). lia.
Qed.

(** With all queues empty and no waiting, the raw green time is zero. *)
Lemma green_time_idle s :
  ~ (clearance_rate s == 0)%Q -> (0 <= min_green s)%Q ->
  exists g, _calculate_green_time s (mkEntry 0 0 0) = Ok g /\ (g == min_green s)%Q.
Proof.
  intros Hrate Hmin.
  eexists. split; [apply calculate_green_time_ok; [exact Hrate|repeat split]|].
  unfold spec_green_time. simpl.
  apply Q.max_l. eapply Qle_trans; [apply Q.le_min_l|].
  assert (E : (inject_Z 0 / clearance_rate s + inject_Z 0 * (4 # 10) + inject_Z 0 * 2 == 0)%Q).
  { unfold Qdiv. change (inject_Z 0) with 0%Q. ring. }
  rewrite E. exact Hmin.
Qed.

(** ** The order of binary64 numbers *)

Ltac float_order_cases :=
  repeat (match goal with
          | s : bool |- _ => destruct s
          end);
  simpl;
  repeat (match goal with
          | |- context [Z.compare ?a ?b] => destruct (Z.compare_spec a b)
          | |- context [Pos.compare_cont Eq ?a ?b] =>
              change (Pos.compare_cont Eq a b) with (Pos.compare a b);
              destruct (Pos.compare_spec a b)
          end);
  simpl; subst;
  (split;
   [let K := fresh "K" in
    intros K; try discriminate K; repeat split; try discriminate; lia
   |intros [_ [_ ?]]; try reflexivity; exfalso; lia]).

Lemma float_ltb_rank f g :
  SFltb f g = true <->
  Binary64.is_nan f = false /\ Binary64.is_nan g = false /\
  Binary64.lex_lt (Binary64.rank f) (Binary64.rank g).
Proof.
  unfold SFltb, SFcompare, Binary64.lex_lt.
  destruct f as [s1|s1| |s1 m1 e1]; destruct g as [s2|s2| |s2 m2 e2];
    try (simpl; split; [discriminate | intros [A [B _]]; discriminate]);
    float_order_cases.
Qed.

Lemma float_leb_rank f g :
  SFleb f g = true <->
  Binary64.is_nan f = false /\ Binary64.is_nan g = false /\
  Binary64.lex_le (Binary64.rank f) (Binary64.rank g).
Proof.
  unfold SFleb, SFcompare, Binary64.lex_le.
  destruct f as [s1|s1| |s1 m1 e1]; destruct g as [s2|s2| |s2 m2 e2];
    try (simpl; split; [discriminate | intros [A [B _]]; discriminate]);
    float_order_cases.
Qed.

Lemma float_ltb_trans a b c :
  SFltb a b = true -> SFltb b c = true -> SFltb a c = true.
Proof.
  rewrite !float_ltb_rank. unfold Binary64.lex_lt.
  destruct (Binary64.rank a) as [a1 [a2 a3]], (Binary64.rank b) as [b1 [b2 b3]],
    (Binary64.rank c) as [c1 [c2 c3]].
  simpl. intuition lia.
Qed.

Lemma float_leb_ltb_trans a b c :
  SFleb a b = true -> SFltb b c = true -> SFltb a c = true.
Proof.
  rewrite !float_ltb_rank, float_leb_rank. unfold Binary64.lex_lt, Binary64.lex_le.
  destruct (Binary64.rank a) as [a1 [a2 a3]], (Binary64.rank b) as [b1 [b2 b3]],
    (Binary64.rank c) as [c1 [c2 c3]].
  simpl. intuition lia.
Qed.

Lemma float_ltb_leb a b : SFltb a b = true -> SFleb a b = true.
Proof.
  rewrite float_ltb_rank, float_leb_rank. unfold Binary64.lex_lt, Binary64.lex_le.
  destruct (Binary64.rank a) as [a1 [a2 a3]], (Binary64.rank b) as [b1 [b2 b3]].
  simpl. intuition lia.
Qed.

Lemma float_not_ltb_leb a b :
  Binary64.is_nan a = false -> Binary64.is_nan b = false ->
  SFltb a b = false -> SFleb b a = true.
Proof.
  intros Ha Hb H. apply float_leb_rank. split; [auto|split; [auto|]].
  assert (N : ~ Binary64.lex_lt (Binary64.rank a) (Binary64.rank b)).
  { intros L. assert (T : SFltb a b = true) by (apply float_ltb_rank; auto).
    congruence. }
  revert N. unfold Binary64.lex_lt, Binary64.lex_le.
  destruct (Binary64.rank a) as [a1 [a2 a3]], (Binary64.rank b) as [b1 [b2 b3]].
  simpl. lia.
Qed.

Lemma float_leb_refl a : Binary64.is_nan a = false -> SFleb a a = true.
Proof.
  intros H. apply float_leb_rank. unfold Binary64.lex_le.
  destruct (Binary64.rank a) as [a1 [a2 a3]]. simpl. intuition lia.
Qed.

Lemma float_ltb_irrefl a : SFltb a a = false.
Proof.
  destruct (SFltb a a) eqn:E; auto. apply float_ltb_rank in E. revert E.
  unfold Binary64.lex_lt. destruct (Binary64.rank a) as [a1 [a2 a3]].
  simpl. intuition lia.
Qed.

(** ** The fairness selector in binary64 *)

(** [max] with float keys returns the first element of greatest key, when
    no key is a NaN. *)
Lemma float_max_by_first_maximal key l c :
  (forall x, In x l -> Binary64.is_nan (key x) = false) ->
  Binary64.py_max_by key l = Ok c -> Binary64.first_maximal key l c.
Proof.
  destruct l as [|x xs]; simpl; [discriminate|]. intros Hnn H. inv H.
  assert (G : forall xs pre best post,
    (forall y, In y (best :: xs) -> Binary64.is_nan (key y) = false) ->
    (forall y, In y pre -> SFltb (key y) (key best) = true) ->
    (forall y, In y post -> SFleb (key y) (key best) = true) ->
    Binary64.first_maximal key (pre ++ best :: post ++ xs)%list
      (fold_left (fun b y => if SFltb (key b) (key y) then y else b) xs best)).
  { clear. induction xs as [|y ys IH]; intros pre best post Hnn Hpre Hpost; simpl.
    - exists pre, post. rewrite app_nil_r. auto.
    - destruct (SFltb (key best) (key y)) eqn:E.
      + replace (pre ++ best :: post ++ y :: ys)%list
          with ((pre ++ best :: post) ++ y :: [] ++ ys)%list
          by (rewrite <- app_assoc; reflexivity).
        apply IH; [|
        |intros ? []].
        * intros z [<-|Hz]; apply Hnn; [right; now left | right; now right].
        * intros z Hz. apply in_app_or in Hz. destruct Hz as [Hz|[Hz|Hz]].
          -- eapply float_ltb_trans; [apply Hpre|]; eauto.
          -- now subst.
          -- eapply float_leb_ltb_trans; [apply Hpost|]; eauto.
      + replace (pre ++ best :: post ++ y :: ys)%list
          with (pre ++ best :: (post ++ [y]) ++ ys)%list
          by (rewrite <- app_assoc; reflexivity).
        apply IH; auto.
        * intros z [<-|Hz]; apply Hnn; [now left | right; now right].
        * intros z Hz. apply in_app_or in Hz. destruct Hz as [Hz|[Hz|[]]].
          -- now apply Hpost.
          -- subst z. apply float_not_ltb_leb; auto; apply Hnn;
               [now left | right; now left]. }
  apply (G xs [] x []); [exact Hnn|intros ? []|intros ? []].
Qed.

Lemma float_first_maximal_ext key key' l c :
  (forall x, In x l -> key' x = key x) ->
  Binary64.first_maximal key l c -> Binary64.first_maximal key' l c.
Proof.
  intros E [pre [post [Hl [Hpre Hpost]]]]. exists pre, post.
  assert (Ec : key' c = key c).
  { apply E. rewrite Hl. apply in_or_app. right. now left. }
  split; [auto|split].
  - intros x Hx. rewrite Ec, E; auto. rewrite Hl. apply in_or_app. now left.
  - intros x Hx. rewrite Ec, E; auto. rewrite Hl. apply in_or_app. right. now right.
Qed.

Lemma float_first_maximal_occurrences key ids : forall seen c,
  Binary64.is_nan (key c) = false ->
  (forall y, In y seen -> SFltb (key y) (key c) = true) ->
  Binary64.first_maximal key (first_occurrences seen ids) c ->
  Binary64.first_maximal key ids c.
Proof.
  induction ids as [|x ids IH]; intros seen c Hc Hseen H; simpl in H; auto.
  destruct (str_in x seen) eqn:E.
  - apply str_in_In in E. destruct (IH _ _ Hc Hseen H) as [pre [post [Hl [Hpre Hpost]]]].
    exists (x :: pre), post. subst ids. split; [reflexivity|split; auto].
    intros y [<-|Hy]; auto.
  - destruct H as [pre [post [Hl [Hpre Hpost]]]]. destruct pre as [|p pre]; simpl in Hl.
    + inv Hl. exists [], ids. split; [reflexivity|split; [intros ? []|]].
      intros y Hy. destruct (@in_first_occurrences ids (c :: seen) y Hy) as [Hi|[<-|Hi]].
      * now apply Hpost.
      * now apply float_leb_refl.
      * apply float_ltb_leb. now apply Hseen.
    + inv Hl.
      assert (Hx : SFltb (key p) (key c) = true) by (apply Hpre; now left).
      destruct (IH (p :: seen) c Hc) as [pre' [post' [Hl' [Hpre' Hpost']]]].
      * intros y [<-|Hy]; auto.
      * exists pre, post. split; [auto|split; auto]. intros y Hy. apply Hpre. now right.
      * exists (p :: pre'), post'. subst ids. split; [reflexivity|split; auto].
        intros y [<-|Hy]; auto.
Qed.

Lemma float_build_scores_ok wb sl data ids : forall acc scores,
  Binary64.build_scores wb sl data ids acc = Ok scores ->
  Dict.keys scores = (Dict.keys acc ++ first_occurrences (Dict.keys acc) ids)%list /\
  (forall k, In k ids ->
     Dict.get k scores = Some (Binary64.lane_score wb sl data k)) /\
  (forall k, ~ In k ids -> Dict.get k scores = Dict.get k acc).
Proof.
  induction ids as [|x ids IH]; intros acc scores H; simpl in H.
  - inv H. simpl. rewrite app_nil_r. split; [auto|split; [intros k []|auto]].
  - destruct (rbind (item x data) (Binary64.score wb sl)) as [sc|err] eqn:Es;
      [|discriminate].
    apply IH in H. destruct H as [Hkeys [Hin Hout]].
    split; [|split].
    + rewrite Hkeys. simpl. destruct (str_in x (Dict.keys acc)) eqn:E.
      * apply str_in_In in E. now rewrite keys_set_present.
      * assert (Hn : ~ In x (Dict.keys acc)).
        { intros Hi. apply str_in_In in Hi. congruence. }
        rewrite keys_set_absent by assumption. rewrite <- app_assoc. simpl.
        do 2 f_equal. apply first_occurrences_ext.
        intros y. rewrite in_app_iff. simpl. tauto.
    + intros k [<-|Hk].
      * destruct (in_dec string_dec x ids) as [Hi|Hn]; [now apply Hin|].
        rewrite Hout by assumption. rewrite get_set_same.
        unfold Binary64.lane_score. now rewrite Es.
      * now apply Hin.
    + intros k Hk. rewrite Hout by (intros Hi; apply Hk; now right).
      apply get_set_other. intros ->. apply Hk. now left.
Qed.

Lemma float_build_scores_total wb sl data ids : forall acc,
  (forall k, In k ids ->
     exists f, rbind (item k data) (Binary64.score wb sl) = Ok f) ->
  exists scores, Binary64.build_scores wb sl data ids acc = Ok scores.
Proof.
  induction ids as [|x ids IH]; intros acc Hk; simpl; [eauto|].
  destruct (Hk x (or_introl eq_refl)) as [f Hf]. rewrite Hf.
  apply IH. intros k Hi. apply Hk. now right.
Qed.

(** The binary64 selector returns the first registered lane whose computed
    score is greatest. *)
Lemma float_choose_normal_lane_ok wb sl ids data c :
  Binary64._choose_normal_lane wb sl ids data = Ok c ->
  (forall k, In k ids -> Binary64.is_nan (Binary64.lane_score wb sl data k) = false) ->
  Binary64.first_maximal (Binary64.lane_score wb sl data) ids c.
Proof.
  unfold Binary64._choose_normal_lane. intros H Hnn.
  destruct (Binary64.build_scores wb sl data ids Dict.empty) as [scores|x] eqn:B;
    [|discriminate].
  apply float_build_scores_ok in B. destruct B as [Hkeys [Hin _]]. simpl in Hkeys.
  assert (Hocc : forall k, In k (first_occurrences [] ids) -> In k ids).
  { intros k Hk. clear - Hk. revert Hk. generalize (@nil string).
    induction ids as [|x ids IH]; intros seen; simpl; [tauto|].
    destruct (str_in x seen).
    - intros H. right. eapply IH; eauto.
    - intros [H|H]; [now left|]. right. eapply IH; eauto. }
  assert (Hget : forall k, In k ids ->
            Binary64.scores_get scores k = Binary64.lane_score wb sl data k).
  { intros k Hk. unfold Binary64.scores_get. now rewrite (Hin k Hk). }
  apply float_max_by_first_maximal in H.
  2:{ intros k Hk. rewrite Hkeys in Hk. rewrite Hget by auto. auto. }
  rewrite Hkeys in H.
  apply float_first_maximal_ext with (key' := Binary64.lane_score wb sl data) in H.
  2:{ intros k Hk. symmetry. apply Hget. now apply Hocc. }
  assert (Hc : In c ids).
  { destruct H as [pre [post [Hl _]]]. apply Hocc. rewrite Hl.
    apply in_or_app. right. now left. }
  apply float_first_maximal_occurrences in H; [exact H|now apply Hnn|intros y []].
Qed.

(** The score of an idle lane, for a finite [wait_boost]: [0.0], or
    [1000.0] when the starvation limit is not positive. *)
Lemma float_score_idle wb sl :
  Binary64.is_finite wb = true ->
  exists v, Binary64.score wb sl (mkEntry 0 0 0) = Ok v /\ Binary64.is_nan v = false.
Proof.
  intros Hf. unfold Binary64.score. simpl.
  destruct wb as [s|s| |s m e]; try discriminate; destruct s;
    destruct (sl <=? 0); eexists; (split; [vm_compute; reflexivity|reflexivity]).
Qed.

(** The claim as written fails on a tie of the exact scores: lanes with
    11 vehicles after one cycle of waiting and 7 vehicles after three both
    score [77/5] at [waitBoost = 0.4], so the first of them should win; in
    binary64 the products round to different numbers, and the selector
    returns the second. *)
Lemma fairness_tie_broken_by_rounding :
  (spec_score (4 # 10) 8 11 1 == spec_score (4 # 10) 8 7 3)%Q /\
  Binary64.score Binary64.zero_point_four 8 (mkEntry 11 0 1)
    = Ok (S754_finite false 8669429282688204 (-49)) /\
  Binary64.score Binary64.zero_point_four 8 (mkEntry 7 0 3)
    = Ok (S754_finite false 8669429282688206 (-49)) /\
  Binary64._choose_normal_lane Binary64.zero_point_four 8
    ["Lane_1"; "Lane_2"] Binary64.tied_lanes = Ok "Lane_2".
Proof. repeat split; vm_compute; reflexivity. Qed.

(** C5, amended. Whenever the fairness selector returns, the lane it returns
    is the first registered lane whose score, as computed in binary64
    ([normal * (1 + wait * waitBoost)], plus 1000 when
    [wait >= starvationLimit], each operation rounded), is greatest, no
    computed score being a NaN: the registration order alone breaks ties
    between computed scores. With every lane idle ([normal = 0], [wait = 0])
    and a finite [waitBoost], the selector returns the first registered
    lane. And on a controller that never had a green lane, with every wait
    counter 0, a non-zero clearance rate, [0 <= minGreen] and a finite
    flow, readings that give every registered lane [normal = 0] and
    [emergency = 0] make [update] choose the first registered lane for a
    green time equal to [minGreen]. *)
Theorem fairness_selector_first_maximum :
  (forall wait_boost starvation_limit ids data chosen,
     Binary64._choose_normal_lane wait_boost starvation_limit ids data = Ok chosen ->
     (forall k, In k ids ->
        Binary64.is_nan (Binary64.lane_score wait_boost starvation_limit data k)
          = false) ->
     Binary64.first_maximal
       (Binary64.lane_score wait_boost starvation_limit data) ids chosen) /\
  (forall wait_boost starvation_limit first rest data,
     Binary64.is_finite wait_boost = true ->
     (forall k, In k (first :: rest) -> Dict.get k data = Some (mkEntry 0 0 0)) ->
     Binary64._choose_normal_lane wait_boost starvation_limit (first :: rest) data
       = Ok first) /\
  (forall env lanes_data s first rest,
     lane_ids s = first :: rest ->
     (forall k, In k (lane_ids s) <-> In k (Dict.keys (lanes s))) ->
     current_green s = None ->
     (forall k, In k (lane_ids s) -> wait_of s k = Some 0) ->
     readings_cover s lanes_data ->
     (forall d, In d lanes_data -> r_normal d = 0 /\ r_emergency d = 0) ->
     ~ (clearance_rate s == 0)%Q ->
     (0 <= min_green s)%Q ->
     flow_in_range s ->
     exists output s',
       update env lanes_data s = (Ok output, s') /\
       current_green s' = Some first /\
       (current_green_time s' == min_green s)%Q /\
       option_map rep_green_time (Dict.get first output)
         = Some (Some (current_green_time s'))).
Proof.
  split; [|split].
  - intros wb sl ids data chosen H Hnn. now apply float_choose_normal_lane_ok.
  - intros wb sl first rest data Hfin Hidle.
    destruct (@float_score_idle wb sl Hfin) as [v [Hv Hvn]].
    assert (Hsc : forall k, In k (first :: rest) ->
              rbind (item k data) (Binary64.score wb sl) = Ok v).
    { intros k Hk. unfold item. rewrite (Hidle k Hk). exact Hv. }
    assert (Hls : forall k, In k (first :: rest) -> Binary64.lane_score wb sl data k = v).
    { intros k Hk. unfold Binary64.lane_score. now rewrite (Hsc k Hk). }
    destruct (@float_build_scores_total wb sl data (first :: rest) Dict.empty)
      as [scores Hs]; [intros k Hk; eauto|].
    assert (E : exists c, Binary64._choose_normal_lane wb sl (first :: rest) data = Ok c).
    { unfold Binary64._choose_normal_lane. rewrite Hs.
      apply float_build_scores_ok in Hs. destruct Hs as [Hkeys _].
      simpl in Hkeys. rewrite Hkeys. simpl. eauto. }
    destruct E as [c Hc]. rewrite Hc. f_equal.
    apply float_choose_normal_lane_ok in Hc.
    2:{ intros k Hk. now rewrite Hls. }
    destruct Hc as [pre [post [Hl [Hpre _]]]]. destruct pre as [|p pre].
    + simpl in Hl. now inv Hl.
    + exfalso. specialize (Hpre p (or_introl eq_refl)).
      rewrite !Hls in Hpre.
      * now rewrite float_ltb_irrefl in Hpre.
      * rewrite Hl. apply in_or_app. right. now left.
      * rewrite Hl. now left.
  - intros env lanes_data s first rest Hids Hkeys Hnone Hwait Hcov Hzero Hrate Hmin Hflow.
    assert (Hwf : wf s).
    { split; [rewrite Hids; discriminate|split; [auto|split; [|auto]]].
      intros g Hg. congruence. }
    assert (Hrr : readings_in_range lanes_data).
    { intros d Hd. destruct (Hzero d Hd) as [-> ->]. split; reflexivity. }
    assert (Hwr : waits_in_range s).
    { intros k l Hl.
      assert (Hk : In k (lane_ids s)).
      { apply Hkeys. apply get_some_in_keys. eauto. }
      specialize (Hwait k Hk). unfold wait_of in Hwait. rewrite Hl in Hwait.
      simpl in Hwait. injection Hwait as ->. reflexivity. }
    destruct (@update_ok env lanes_data s Hwf Hcov Hrr Hwr Hflow)
      as [output [s' [Hup _]]].
    exists output, s'. split; [exact Hup|].
    destruct (update_inv _ _ _ Hup) as [data [chosen [gt Hsteps]]].
    destruct (update_report Hsteps) as [_ [Hcg [Hin [Hrep _]]]].
    destruct (update_stored Hsteps) as [_ [_ [_ [_ [Hgt [_ [Hmerge [e [He Hcalc]]]]]]]]].
    assert (Hentry : forall k, In k (Dict.keys data) -> Dict.get k data = Some (mkEntry 0 0 0)).
    { intros k Hk.
      destruct (@merge_key_has_reading _ _ _ _ Hmerge Hk) as [d [l [Hd [Hl Hde]]]].
      apply last_reading_some in Hd. destruct Hd as [Hd Hid].
      destruct (Hzero d Hd) as [Hn Hem].
      assert (Hw : wait l = 0).
      { assert (Hi : In k (lane_ids s)) by (apply Hcov; rewrite <- Hid; now apply in_map).
        specialize (Hwait k Hi). unfold wait_of in Hwait. rewrite Hl in Hwait.
        now inv Hwait. }
      rewrite Hde, Hn, Hem, Hw. reflexivity. }
    assert (Hchosen : chosen = first).
    { destruct Hsteps as [s1 s2 s3 e' data' out0 _ Hchoose _ _ _ _ _ _ _ _].
      unfold choose in Hchoose.
      erewrite bind_eq in Hchoose.
      2:{ apply choose_emergency_lane_none. intros k Hk. unfold emergency_at.
          rewrite (Hentry k Hk). simpl. lia. }
      unfold choose_without_emergency in Hchoose. rewrite Hnone in Hchoose.
      destruct (_choose_normal_lane s data) as [c|x] eqn:Ec; [|discriminate].
      injection Hchoose as Hc _. subst c.
      apply choose_normal_lane_ok in Ec. destruct Ec as [[pre [post [Hl [Hpre _]]]] Hall].
      destruct pre as [|p pre].
      - rewrite Hids in Hl. simpl in Hl. now inv Hl.
      - exfalso. assert (Hp : In p (lane_ids s)).
        { rewrite Hl. now left. }
        assert (Hc : In chosen (lane_ids s)).
        { rewrite Hl. apply in_or_app. right. now left. }
        specialize (Hpre p (or_introl eq_refl)). unfold lane_score in Hpre.
        rewrite (Hentry p (Hall p Hp)), (Hentry chosen (Hall chosen Hc)) in Hpre.
        now apply Qlt_irrefl in Hpre. }
    subst chosen. split; [auto|split].
    + assert (Hk : In first (Dict.keys data)) by (apply get_some_in_keys; eauto).
      rewrite (Hentry first Hk) in He. inv He.
      destruct (@green_time_idle s Hrate Hmin) as [g [Hg Heq]].
      rewrite Hg in Hcalc. injection Hcalc as <-. exact Heq.
    + destruct (Hrep first Hin) as [l [_ Ho]]. rewrite Ho. simpl.
      now rewrite String.eqb_refl.
Qed.

Lemma fairness_selector_first_maximum_witness :
  Binary64.first_maximal
    (Binary64.lane_score Binary64.zero_point_four 8 Binary64.tied_lanes)
    ["Lane_1"; "Lane_2"] "Lane_2" /\
  Binary64._choose_normal_lane Binary64.zero_point_four 8
    ["Lane_1"; "Lane_2"; "Lane_3"]
    [("Lane_1", mkEntry 0 0 0); ("Lane_2", mkEntry 0 0 0); ("Lane_3", mkEntry 0 0 0)]
    = Ok "Lane_1" /\
  exists output s',
    update sample_env idle_readings (init_default 4) = (Ok output, s') /\
    current_green s' = Some "Lane_1" /\
    (current_green_time s' == min_green (init_default 4))%Q /\
    option_map rep_green_time (Dict.get "Lane_1" output)
      = Some (Some (current_green_time s')).
Proof.
  split; [|split].
  - apply (proj1 fairness_selector_first_maximum Binary64.zero_point_four 8
             ["Lane_1"; "Lane_2"] Binary64.tied_lanes "Lane_2").
    + vm_compute. reflexivity.
    + intros k Hk. simpl in Hk. destruct Hk as [<-|[<-|[]]]; vm_compute; reflexivity.
  - apply (proj1 (proj2 fairness_selector_first_maximum) Binary64.zero_point_four 8
             "Lane_1" ["Lane_2"; "Lane_3"]).
    + reflexivity.
    + intros k Hk. simpl in Hk. destruct Hk as [<-|[<-|[<-|[]]]]; reflexivity.
  - apply (proj2 (proj2 fairness_selector_first_maximum) sample_env idle_readings
             (init_default 4) "Lane_1" ["Lane_2"; "Lane_3"; "Lane_4"]).
    + reflexivity.
    + intros k. vm_compute. tauto.
    + reflexivity.
    + intros k Hk. vm_compute in Hk.
      repeat (destruct Hk as [<-|Hk]; [reflexivity|]). destruct Hk.
    + intros k. vm_compute. tauto.
    + intros d Hd. vm_compute in Hd.
      repeat (destruct Hd as [<-|Hd]; [split; reflexivity|]). destruct Hd.
    + vm_compute. discriminate.
    + vm_compute. discriminate.
    + apply flow_in_range_bound; vm_compute; try discriminate; reflexivity.
Defined.

(** ** The empty lane set *)

(** With no lane registered the fairness selector is asked for the maximum
    of an empty score table. *)
Lemma update_empty_counterexample :
  update sample_env [] (init_default 0) = (Raise ValueError, init_default 0) /\
  fst (update_signal sample_env [] server0) = Raise ValueError.
Proof. split; vm_compute; reflexivity. Qed.

(** C9, amended. With no registered lane, no current green lane and no
    readings, [update] raises [ValueError] and leaves the controller as it
    was; it returns no report. That is the case of every controller
    constructed with [N = 0], whatever its tuning constants. *)
Theorem update_empty_lane_set_raises :
  (forall env s,
     lane_ids s = [] -> current_green s = None ->
     update env [] s = (Raise ValueError, s)) /\
  (forall env yt ming maxg wb sl cr dbg,
     update env [] (__init__ 0 yt ming maxg wb sl cr dbg)
     = (Raise ValueError, __init__ 0 yt ming maxg wb sl cr dbg)).
Proof.
  assert (G : forall env s,
     lane_ids s = [] -> current_green s = None ->
     update env [] s = (Raise ValueError, s)).
  { intros env s Hids Hnone. unfold update.
    erewrite bind_eq by reflexivity.
    erewrite bind_eq by reflexivity.
    unfold bind, choose, bind, _choose_emergency_lane. simpl.
    unfold choose_without_emergency. rewrite Hnone.
    unfold _choose_normal_lane. rewrite Hids. reflexivity. }
  split; [exact G|].
  intros env yt ming maxg wb sl cr dbg. apply G; reflexivity.
Qed.

Lemma update_empty_lane_set_raises_witness :
  update sample_env [] (with_lanes [("A", fresh_lane)] (init_default 0))
  = (Raise ValueError, with_lanes [("A", fresh_lane)] (init_default 0)) /\
  update sample_env [] (init_default 0) = (Raise ValueError, init_default 0).
Proof.
  split.
  - apply (proj1 update_empty_lane_set_raises sample_env
             (with_lanes [("A", fresh_lane)] (init_default 0))); reflexivity.
  - apply (proj2 update_empty_lane_set_raises sample_env).
Defined.

(** ** Starvation *)








(** ** Lane ids that Python takes for false *)

(** C3 at a lane registered under the empty string. The request handler
    registers the lanes [""] and ["B"]; lane [""] reports one emergency
    vehicle and lane ["B"] none. The emergency chooser picks [""] and
    remembers it, but [update] tests the choice with [if not chosen], takes
    the empty string for no choice, and hands the cycle to the fairness
    selector: lane ["B"], which has no emergency, gets the green. *)
Theorem emergency_in_unnamed_lane_ignored :
  exists output srv c,
    update_signal sample_env unnamed_emergency server0 = (Ok output, srv) /\
    controller srv = Some c /\
    lane_ids c = [""; "B"] /\
    current_green c = Some "B" /\
    last_emergency_lane c = Some "" /\
    report_phase output "B" = Some Green /\
    report_phase output "" = Some Red.
Proof.
  do 3 eexists. split; [vm_compute; reflexivity|]. repeat split.
Qed.

(** C7 at a lane registered under the empty string. The first request makes
    lane [""] green at time 1 for 3 seconds. The second request arrives at
    time 2, within the green time and without any emergency; [update] tests
    [self.current_green] for truth, takes the empty string for no green
    lane, and runs the fairness selector, which moves the green to ["B"]. *)
Theorem unexpired_green_of_unnamed_lane_dropped :
  exists output1 srv1 c1 output2 srv2 c2,
    update_signal (mkEnv 1 1 (fun _ => 0)) unnamed_idle server0 = (Ok output1, srv1) /\
    controller srv1 = Some c1 /\
    current_green c1 = Some "" /\
    green_started_at c1 = Some 1%Q /\
    Qltb (2 - 1) (current_green_time c1) = true /\
    update_signal (mkEnv 2 2 (fun _ => 0)) unnamed_then_B srv1 = (Ok output2, srv2) /\
    controller srv2 = Some c2 /\
    current_green c2 = Some "B" /\
    report_phase output2 "" = Some Red.
Proof.
  do 6 eexists. split; [vm_compute; reflexivity|].
  split; [reflexivity|]. split; [reflexivity|]. split; [reflexivity|].
  split; [reflexivity|]. split; [vm_compute; reflexivity|]. repeat split.
Qed.

(** ** [aggregate_counts] *)

Section AggregateFacts.
Import ModelApi.

Variable classify : list Q -> result string.
Variable crop_pipeline : string -> result (list Q).

Local Abbreviation is_emergency := (counts_as_emergency classify crop_pipeline).
Local Abbreviation step := (count_detection classify crop_pipeline).
Local Abbreviation tally := (tally classify crop_pipeline).

Lemma count_in_lane_cons p lane d ds :
  count_in_lane p lane (d :: ds) =
  (if in_lane lane d && p d then 1 else 0) + count_in_lane p lane ds.
Proof.
  unfold count_in_lane. simpl. destruct (in_lane lane d && p d); simpl length; lia.
Qed.

Lemma count_in_lane_nonneg p lane ds : 0 <= count_in_lane p lane ds.
Proof. unfold count_in_lane. lia. Qed.

Lemma step_get acc d lane :
  Dict.get lane (step acc d) =
  if in_lane lane d
  then Some (tally d (match Dict.get lane acc with
                      | Some c => c
                      | None => mkCounts 0 0
                      end))
  else Dict.get lane acc.
Proof.
  unfold count_detection, in_lane. destruct (det_lane_id d) as [l|]; [|reflexivity].
  set (acc' := if Dict.mem l acc then acc else Dict.set l (mkCounts 0 0) acc).
  assert (Hl : Dict.get l acc' =
               Some (match Dict.get l acc with Some c => c | None => mkCounts 0 0 end)).
  { unfold acc', Dict.mem. destruct (Dict.get l acc) as [c|] eqn:E.
    - exact E.
    - apply get_set_same. }
  assert (Ho : forall k, k <> l -> Dict.get k acc' = Dict.get k acc).
  { intros k Hk. unfold acc', Dict.mem. destruct (Dict.get l acc); auto.
    apply get_set_other. congruence. }
  assert (G : forall f, Dict.get lane (bump f l acc') =
    if String.eqb l lane
    then Some (f (match Dict.get lane acc with Some c => c | None => mkCounts 0 0 end))
    else Dict.get lane acc).
  { intros f. unfold bump. rewrite Hl, get_set, (String.eqb_sym lane l).
    destruct (String.eqb l lane) eqn:E.
    - apply String.eqb_eq in E. now subst.
    - apply String.eqb_neq in E. apply Ho. congruence. }
  unfold tally. destruct (is_emergency d); apply G.
Qed.

Lemma step_keys acc d :
  NoDup (Dict.keys acc) -> NoDup (Dict.keys (step acc d)).
Proof.
  intros Hnd. unfold count_detection. destruct (det_lane_id d) as [l|]; auto.
  set (acc' := if Dict.mem l acc then acc else Dict.set l (mkCounts 0 0) acc).
  assert (Hnd' : NoDup (Dict.keys acc') /\ In l (Dict.keys acc')).
  { unfold acc', Dict.mem. destruct (Dict.get l acc) as [c|] eqn:E.
    - split; auto. apply get_some_in_keys. eauto.
    - apply get_none_not_in_keys in E. rewrite keys_set_absent by assumption.
      split.
      + apply NoDup_app; auto; [repeat constructor; intros []|].
        intros x Hx [<-|[]]. auto.
      + apply in_or_app. right. now left. }
  destruct Hnd' as [Hn Hi].
  assert (G : forall f, NoDup (Dict.keys (bump f l acc'))).
  { intros f. unfold bump. destruct (Dict.get l acc'); auto.
    now rewrite keys_set_present. }
  destruct (is_emergency d); apply G.
Qed.

Lemma count_in_lane_split lane ds :
  count_in_lane (fun d => negb (is_emergency d)) lane ds
  + count_in_lane is_emergency lane ds
  = count_in_lane (fun _ => true) lane ds.
Proof.
  unfold count_in_lane. rewrite <- Nat2Z.inj_add. f_equal.
  induction ds as [|d ds IH]; simpl; auto.
  destruct (in_lane lane d); simpl; auto.
  destruct (is_emergency d); simpl; lia.
Qed.

(** The table [counts] after the loop. *)
Lemma counts_after_loop dets : forall acc lane,
  Dict.get lane (fold_left step dets acc) =
  if (count_in_lane (fun _ => true) lane dets =? 0)
  then Dict.get lane acc
  else
    let c := match Dict.get lane acc with Some c => c | None => mkCounts 0 0 end in
    Some (mkCounts
            (c_normal c + count_in_lane (fun d => negb (is_emergency d)) lane dets)
            (c_emergency c + count_in_lane is_emergency lane dets)).
Proof.
  induction dets as [|d ds IH]; intros acc lane; [reflexivity|].
  simpl fold_left. rewrite IH, step_get, !count_in_lane_cons.
  pose proof (count_in_lane_split lane ds) as Hsplit.
  pose proof (count_in_lane_nonneg is_emergency lane ds) as Hem.
  pose proof (count_in_lane_nonneg (fun d => negb (is_emergency d)) lane ds) as Hno.
  set (all := count_in_lane (fun _ => true) lane ds) in *.
  set (em := count_in_lane is_emergency lane ds) in *.
  set (no := count_in_lane (fun d => negb (is_emergency d)) lane ds) in *.
  destruct (in_lane lane d); cbn [andb]; [|reflexivity].
  unfold ModelApi.tally.
  set (c0 := match Dict.get lane acc with Some c => c | None => mkCounts 0 0 end).
  destruct (Z.eqb_spec (1 + all) 0) as [E|E]; [lia|].
  destruct (Z.eqb_spec all 0) as [E0|E0]; cbv zeta;
    destruct (is_emergency d); cbn [negb c_normal c_emergency];
    f_equal; f_equal; lia.
Qed.

Lemma fold_step_keys dets : forall acc,
  NoDup (Dict.keys acc) -> NoDup (Dict.keys (fold_left step dets acc)).
Proof.
  induction dets as [|d ds IH]; intros acc H; simpl; auto.
  apply IH. now apply step_keys.
Qed.

Lemma in_dict_get V (d : Dict.t V) k v :
  NoDup (Dict.keys d) -> (In (k, v) d <-> Dict.get k d = Some v).
Proof.
  induction d as [|[k0 v0] d IH]; simpl; intros Hnd.
  - split; [tauto|discriminate].
  - inv Hnd. destruct (String.eqb k k0) eqn:E.
    + apply String.eqb_eq in E. subst k0. split.
      * intros [H|H]; [now inv H|]. exfalso. apply H1.
        change k with (fst (k, v)). now apply in_map.
      * intros H. inv H. now left.
    + apply String.eqb_neq in E. rewrite <- IH by assumption. split.
      * intros [H|H]; [inv H; congruence|auto].
      * auto.
Qed.

(** C10. Whatever the classifier and the image pipeline do, raising
    included, [aggregate_counts] returns: its result has one entry for each
    lane that has a detection and no other, and the entry of a lane counts
    each of the lane's detections exactly once, as emergency when its label
    names an emergency vehicle and as normal otherwise. A detection whose
    classification fails, or that has no label source, is counted as
    normal. *)
Theorem aggregate_counts_lenient (detections : list Detection) :
  let output := aggregate_counts classify crop_pipeline detections in
  NoDup (map lane_id output) /\
  (forall lane n e,
     In (mkReading lane n e) output <->
     0 < count_in_lane (fun _ => true) lane detections /\
     n = count_in_lane (fun d => negb (is_emergency d)) lane detections /\
     e = count_in_lane is_emergency lane detections) /\
  (forall lane,
     count_in_lane (fun d => negb (is_emergency d)) lane detections
     + count_in_lane is_emergency lane detections
     = count_in_lane (fun _ => true) lane detections) /\
  (forall d, classification_fails classify crop_pipeline d = true ->
             is_emergency d = false).
Proof.
  cbv zeta. unfold aggregate_counts.
  set (counts := fold_left step detections Dict.empty).
  assert (Hnd : NoDup (Dict.keys counts)).
  { apply fold_step_keys. constructor. }
  split; [|split; [|split]].
  - rewrite map_map. simpl. exact Hnd.
  - intros lane n e. rewrite in_map_iff.
    pose proof (counts_after_loop detections Dict.empty lane) as G.
    fold counts in G. simpl in G.
    pose proof (count_in_lane_nonneg (fun _ => true) lane detections) as Hall.
    split.
    + intros [[k c] [Hr Hin]]. simpl in Hr. inv Hr.
      apply in_dict_get in Hin; auto. rewrite Hin in G.
      destruct (count_in_lane (fun _ => true) lane detections =? 0) eqn:E;
        [discriminate|].
      apply Z.eqb_neq in E. inv G. simpl. repeat split; lia.
    + intros [Hpos [Hn He]].
      destruct (count_in_lane (fun _ => true) lane detections =? 0) eqn:E.
      * apply Z.eqb_eq in E. lia.
      * eexists (lane, _). split; [|apply in_dict_get; [auto|exact G]].
        simpl. subst. reflexivity.
  - intros lane. apply count_in_lane_split.
  - intros d H. unfold classification_fails in H. unfold counts_as_emergency, label_of.
    apply andb_true_iff in H. destruct H as [Hp H].
    apply negb_true_iff in Hp. rewrite Hp.
    destruct (embedding d) as [emb|].
    + destruct (classify emb); [discriminate|reflexivity].
    + destruct (crop_base64 d) as [crop|]; [|reflexivity].
      destruct (truthy_str (Some crop)); [|reflexivity].
      destruct (rbind (crop_pipeline crop) classify); [discriminate|reflexivity].
Qed.

End AggregateFacts.

(** ** Emergency priority and the round robin *)

Lemma find_first (f : string -> bool) l x :
  find f l = Some x ->
  exists pre post, l = (pre ++ x :: post)%list /\ f x = true /\
                   forall y, In y pre -> f y = false.
Proof.
  induction l as [|a l IH]; simpl; [discriminate|].
  destruct (f a) eqn:E; intros H.
  - inv H. exists [], l. split; [reflexivity|split; [auto|intros ? []]].
  - destruct (IH H) as [pre [post [Hl [Hx Hpre]]]].
    exists (a :: pre), post. subst l. split; [reflexivity|split; [auto|]].
    intros y [<-|Hy]; auto.
Qed.

Lemma in_split_first (x : string) l :
  In x l -> exists pre post, l = (pre ++ x :: post)%list /\ ~ In x pre.
Proof.
  induction l as [|a l IH]; simpl; [tauto|]. intros H.
  destruct (string_dec a x) as [->|N].
  - exists [], l. split; [reflexivity|intros []].
  - destruct H as [H|H]; [congruence|].
    destruct (IH H) as [pre [post [Hl Hn]]]. exists (a :: pre), post.
    subst l. split; [reflexivity|]. intros [E|E]; [congruence|auto].
Qed.

Lemma in_rotate n l (x : string) : In x (rotate n l) <-> In x l.
Proof.
  unfold rotate. rewrite in_app_iff. rewrite <- (firstn_skipn n l) at 3.
  rewrite in_app_iff. tauto.
Qed.

Lemma nth_map_seq (f : nat -> string) n i d :
  (i < n)%nat -> nth i (map f (seq 0 n)) d = f i.
Proof.
  intros H. rewrite (nth_indep _ d (f O)) by (rewrite length_map, length_seq; exact H).
  rewrite map_nth, seq_nth by exact H. reflexivity.
Qed.

(** The lanes visited by the scanning loop, in order. *)
Lemma scan_list ids start :
  (start < length ids)%nat ->
  map (fun i => nth ((start + i) mod length ids) ids "") (seq 0 (length ids))
  = rotate start ids.
Proof.
  intros Hlt. unfold rotate.
  apply nth_ext with (d := "") (d' := "").
  - rewrite length_map, length_seq, length_app, length_skipn, length_firstn. lia.
  - rewrite length_map, length_seq. intros i Hi.
    rewrite nth_map_seq by exact Hi.
    destruct (Nat.lt_ge_cases i (length ids - start)) as [H|H].
    + rewrite app_nth1 by (rewrite length_skipn; exact H).
      rewrite nth_skipn. rewrite Nat.mod_small by lia. reflexivity.
    + rewrite app_nth2 by (rewrite length_skipn; exact H).
      rewrite length_skipn, nth_firstn.
      assert (E : (i - (length ids - start) <? start)%nat = true)
        by (apply Nat.ltb_lt; lia).
      rewrite E. f_equal.
      replace (start + i)%nat with ((i - (length ids - start)) + 1 * length ids)%nat by lia.
      rewrite Nat.Div0.mod_add. apply Nat.mod_small. lia.
Qed.

Lemma scan_start_lt s : lane_ids s <> [] -> (scan_start s < length (lane_ids s))%nat.
Proof.
  intros Hne. assert (0 < length (lane_ids s))%nat.
  { destruct (lane_ids s); [congruence|simpl; lia]. }
  unfold scan_start. destruct (last_emergency_lane s) as [l|]; auto.
  destruct (str_in l (lane_ids s)); auto.
  apply Nat.mod_upper_bound. lia.
Qed.

Lemma circular_scan_rotate s tied :
  lane_ids s <> [] ->
  circular_scan (lane_ids s) tied (scan_start s)
  = find (fun lane => str_in lane tied) (scan_order s).
Proof.
  intros Hne. unfold circular_scan, scan_order.
  now rewrite scan_list by (now apply scan_start_lt).
Qed.

(** Where the scan starts, in words: without a remembered lane among the
    registered ones it follows the registration order; otherwise it starts
    right after the remembered lane and ends with it. *)
Lemma scan_order_no_memory s :
  (forall l, last_emergency_lane s = Some l -> ~ In l (lane_ids s)) ->
  scan_order s = lane_ids s.
Proof.
  intros H. unfold scan_order, scan_start, rotate.
  destruct (last_emergency_lane s) as [l|].
  - destruct (str_in l (lane_ids s)) eqn:E.
    + apply str_in_In in E. exfalso. eapply H; eauto.
    + simpl. apply app_nil_r.
  - simpl. apply app_nil_r.
Qed.

Lemma index_first (x : string) a b : ~ In x a -> index x (a ++ x :: b) = length a.
Proof.
  induction a as [|y a IH]; simpl; intros H.
  - now rewrite String.eqb_refl.
  - destruct (String.eqb x y) eqn:E.
    + apply String.eqb_eq in E. subst. tauto.
    + f_equal. apply IH. tauto.
Qed.

Lemma scan_order_after_last s l a b :
  last_emergency_lane s = Some l ->
  lane_ids s = (a ++ l :: b)%list -> ~ In l a ->
  scan_order s = (b ++ a ++ [l])%list.
Proof.
  intros Hl Hids Hn. unfold scan_order, scan_start, rotate. rewrite Hl, Hids.
  assert (E : str_in l (a ++ l :: b) = true).
  { apply str_in_In. apply in_or_app. right. now left. }
  rewrite E, index_first by assumption.
  rewrite length_app. simpl length.
  destruct b as [|y b].
  - replace (length a + 1)%nat with (length a + 1 + 0)%nat at 1 2 by lia.
    simpl length. rewrite Nat.add_0_r.
    rewrite Nat.Div0.mod_same. simpl. now rewrite app_nil_r.
  - rewrite Nat.mod_small by (simpl; lia).
    replace (a ++ l :: y :: b)%list with ((a ++ [l]) ++ y :: b)%list
      by (rewrite <- app_assoc; reflexivity).
    assert (L : length (a ++ [l]) = (length a + 1)%nat)
      by (rewrite length_app; reflexivity).
    rewrite <- L. rewrite skipn_app, firstn_app, skipn_all, firstn_all.
    rewrite Nat.sub_diag. simpl. now rewrite app_nil_r.
Qed.

(** The lane returned by the emergency chooser is the first lane of the
    scan that is tied at the greatest emergency count. *)
Lemma choose_emergency_lane_scan data s c s1 :
  _choose_emergency_lane data s = (Ok (Some c), s1) ->
  In c (lane_ids s) ->
  first_such (tied_at data (emergency_at data c)) (scan_order s) c.
Proof.
  unfold _choose_emergency_lane. intros H Hin.
  destruct (emergencies_of data) as [|e0 es] eqn:He; [discriminate|].
  destruct (tied_spec data He) as [Hne [Hpos [Hmax Htied]]].
  set (max_count := py_max_Z (emergency_at data e0) (map (emergency_at data) es)) in *.
  set (tied := tied_of data (e0 :: es) max_count) in *.
  assert (Hids : lane_ids s <> []) by (intros E; rewrite E in Hin; destruct Hin).
  assert (Hscan : In c (scan_order s)) by (now apply in_rotate).
  assert (G : In c tied ->
    (forall pre post, scan_order s = (pre ++ c :: post)%list ->
       (forall y, In y pre -> ~ In y tied) ->
       first_such (tied_at data (emergency_at data c)) (scan_order s) c)).
  { intros Hc pre post Hl Hpre. exists pre, post.
    apply Htied in Hc. destruct Hc as [Hk Hm].
    split; [auto|split].
    - split; auto.
    - intros y Hy [Hyk Hym]. apply (Hpre y Hy). apply Htied. split; auto.
      now rewrite Hym. }
  destruct tied as [|c0 [|c1 rest]] eqn:Et.
  - contradiction.
  - inv H. destruct (in_split_first _ _ Hscan) as [pre [post [Hl Hn]]].
    apply (G (or_introl eq_refl) pre post Hl).
    intros y Hy [<-|[]]. contradiction.
  - rewrite circular_scan_rotate in H by assumption.
    destruct (find (fun lane => str_in lane (c0 :: c1 :: rest)) (scan_order s))
      as [lane|] eqn:Ef.
    + inv H. destruct (find_first _ _ Ef) as [pre [post [Hl [Hc Hpre]]]].
      apply str_in_In in Hc. apply (G Hc pre post Hl).
      intros y Hy Hyt. apply str_in_In in Hyt. rewrite (Hpre y Hy) in Hyt. discriminate.
    + inv H. exfalso.
      pose proof (find_none _ _ Ef c Hscan) as Hf. simpl in Hf.
      rewrite String.eqb_refl in Hf. discriminate.
Qed.

(** The emergency rule of [update] for lanes with a non-empty id: when some
    reading reports an emergency vehicle and no reading names the empty
    string, the lane chosen by a call that returns has the greatest
    emergency count of the snapshot, it is the first lane of the circular
    scan tied at that count, and it becomes the remembered emergency lane. *)
Theorem emergency_priority_named_lanes env lanes_data s output s' data :
  update env lanes_data s = (Ok output, s') ->
  snapshot s lanes_data = Ok data ->
  (exists k, In k (Dict.keys data) /\ 0 < emergency_at data k) ->
  (forall d, In d lanes_data -> lane_id d <> "") ->
  exists chosen,
    current_green s' = Some chosen /\
    last_emergency_lane s' = Some chosen /\
    0 < emergency_at data chosen /\
    (forall k, In k (Dict.keys data) -> emergency_at data k <= emergency_at data chosen) /\
    first_such (tied_at data (emergency_at data chosen)) (scan_order s) chosen.
Proof.
  intros Hup Hsnap [k0 [Hk0 Hpos0]] Hnamed.
  destruct (update_inv _ _ _ Hup) as [data' [chosen [gt Hsteps]]].
  destruct (update_report Hsteps) as [_ [Hcg [Hin _]]].
  exists chosen. split; [exact Hcg|].
  destruct Hsteps as [s1 s2 s3 e d' out0 Hmerge Hchoose Hwaits _ _ Hyellow _ Hstore _ _].
  unfold snapshot in Hsnap. rewrite Hsnap in Hmerge. inv Hmerge.
  apply store_queues_frame in Hstore. destruct Hstore as [F4 _].
  apply apply_yellow_ok in Hyellow. destruct Hyellow as [F3 _].
  apply update_waits_ok in Hwaits. destruct Hwaits as [F2 _].
  assert (Hmem : last_emergency_lane s' = last_emergency_lane s1).
  { rewrite F4. simpl. rewrite F3. simpl. rewrite F2. reflexivity. }
  destruct (choose_emergency_lane_ok data' s) as [[He _]|[c [Hc [Hck [Hcpos Hcmax]]]]].
  - exfalso. assert (Hi : In k0 (emergencies_of data')).
    { unfold emergencies_of. apply filter_In. split; auto. now apply Z.ltb_lt. }
    rewrite He in Hi. destruct Hi.
  - assert (Hne : c <> "").
    { apply (merge_keys _ _ _ Hsnap) in Hck. destruct Hck as [[]|Hck].
      apply in_map_iff in Hck. destruct Hck as [d [<- Hd]]. now apply Hnamed. }
    unfold choose in Hchoose. erewrite bind_eq in Hchoose by exact Hc.
    cbv beta iota in Hchoose.
    assert (T : truthy_lane (Some c) = true).
    { simpl. apply negb_true_iff. now apply String.eqb_neq. }
    rewrite T in Hchoose. unfold ret in Hchoose. inv Hchoose.
    split; [rewrite Hmem; reflexivity|split; [auto|split; [auto|]]].
    eapply choose_emergency_lane_scan; eauto.
Qed.

Lemma emergency_priority_named_lanes_witness :
  let s := snd (update sample_env tied_emergencies (register ["A"; "B"])) in
  let data := [("A", mkEntry 0 2 0); ("B", mkEntry 0 2 1)] in
  exists output s',
    update (mkEnv 2 2 (fun _ => 0)) tied_emergencies s = (Ok output, s') /\
    exists chosen,
      current_green s' = Some chosen /\
      last_emergency_lane s' = Some chosen /\
      0 < emergency_at data chosen /\
      (forall k, In k (Dict.keys data) -> emergency_at data k <= emergency_at data chosen) /\
      first_such (tied_at data (emergency_at data chosen)) (scan_order s) chosen.
Proof.
  intros s data. eexists. eexists. split; [vm_compute; reflexivity|].
  eapply (@emergency_priority_named_lanes (mkEnv 2 2 (fun _ => 0)) tied_emergencies s).
  - vm_compute. reflexivity.
  - vm_compute. reflexivity.
  - exists "A". split; [now left | reflexivity].
  - intros d [<-|[<-|[]]]; discriminate.
Defined.

(** The carve-out of [update] for a green lane with a non-empty id and a
    non-zero start instant: without emergency, while the elapsed time is
    below the allotted green time, the green lane is kept, whatever the
    fairness selector would say of the snapshot. The selector is consulted
    only when no lane is green or the time has elapsed
    ([choose_without_emergency_expired]). *)
Theorem green_kept_within_green_time env lanes_data s output s' data g t0 :
  update env lanes_data s = (Ok output, s') ->
  snapshot s lanes_data = Ok data ->
  (forall k, In k (Dict.keys data) -> emergency_at data k <= 0) ->
  current_green s = Some g -> g <> "" ->
  green_started_at s = Some t0 -> ~ (t0 == 0)%Q ->
  (now_check env - t0 < current_green_time s)%Q ->
  current_green s' = Some g /\
  report_phase output g = Some Green /\
  forall data0, choose_without_emergency env data0 s = (Ok g, s).
Proof.
  intros Hup Hsnap Hnoem Hg Hne Ht Hnz Hlt.
  assert (Hkeep : forall data0, choose_without_emergency env data0 s = (Ok g, s)).
  { intros data0. unfold choose_without_emergency. rewrite Hg, Ht.
    assert (T1 : truthy_lane (Some g) = true).
    { simpl. apply negb_true_iff. now apply String.eqb_neq. }
    assert (T2 : truthy_time (Some t0) = true).
    { simpl. apply negb_true_iff. destruct (Qeq_bool t0 0) eqn:E; auto.
      apply Qeq_bool_eq in E. contradiction. }
    rewrite T1, T2. simpl. apply Qltb_lt in Hlt. now rewrite Hlt. }
  destruct (update_inv _ _ _ Hup) as [data' [chosen [gt Hsteps]]].
  destruct (update_exactly_one_green_aux Hsteps) as [Hcg Hgreen].
  destruct Hsteps as [s1 s2 s3 e d' out0 Hmerge Hchoose _ _ _ _ _ _ _ _].
  unfold snapshot in Hsnap. rewrite Hsnap in Hmerge. inv Hmerge.
  unfold choose in Hchoose.
  erewrite bind_eq in Hchoose by (now apply choose_emergency_lane_none).
  cbv beta iota in Hchoose. rewrite Hkeep in Hchoose. inv Hchoose.
  auto.
Qed.

Lemma green_kept_within_green_time_witness :
  exists output s',
    update (mkEnv 2 2 (fun _ => 1)) idle_readings
      (snd (update sample_env idle_readings (init_default 4))) = (Ok output, s') /\
    current_green s' = Some "Lane_1" /\
    report_phase output "Lane_1" = Some Green /\
    forall data0,
      choose_without_emergency (mkEnv 2 2 (fun _ => 1)) data0
        (snd (update sample_env idle_readings (init_default 4)))
      = (Ok "Lane_1", snd (update sample_env idle_readings (init_default 4))).
Proof.
  eexists. eexists. split; [vm_compute; reflexivity|].
  apply (@green_kept_within_green_time (mkEnv 2 2 (fun _ => 1)) idle_readings
           (snd (update sample_env idle_readings (init_default 4))) _ _
           [("Lane_1", mkEntry 0 0 0); ("Lane_2", mkEntry 0 0 1);
            ("Lane_3", mkEntry 0 0 1); ("Lane_4", mkEntry 0 0 1)] "Lane_1" 1%Q).
  - vm_compute. reflexivity.
  - vm_compute. reflexivity.
  - intros k Hk. simpl in Hk.
    repeat (destruct Hk as [<-|Hk]; [vm_compute; discriminate|]). destruct Hk.
  - reflexivity.
  - discriminate.
  - reflexivity.
  - vm_compute. discriminate.
  - vm_compute. reflexivity.
Defined.

(** ** Registration *)

Lemma fresh_lanes_keys ids : forall k,
  In k (Dict.keys (fresh_lanes ids)) <-> In k ids.
Proof.
  unfold fresh_lanes.
  assert (G : forall (acc : Dict.t Lane) k,
    In k (Dict.keys (fold_left (fun d lane => Dict.set lane fresh_lane d) ids acc))
    <-> In k (Dict.keys acc) \/ In k ids).
  { induction ids as [|x ids IH]; intros acc k; simpl; [tauto|].
    rewrite IH, in_keys_set. split; intros H; intuition auto. }
  intros k. rewrite G. simpl. tauto.
Qed.

Lemma fresh_lanes_get ids k :
  Dict.get k (fresh_lanes ids) = if str_in k ids then Some fresh_lane else None.
Proof.
  unfold fresh_lanes.
  assert (G : forall acc : Dict.t Lane,
    Dict.get k (fold_left (fun d lane => Dict.set lane fresh_lane d) ids acc)
    = if str_in k ids then Some fresh_lane else Dict.get k acc).
  { induction ids as [|x ids IH]; intros acc; simpl; auto.
    rewrite IH, get_set. destruct (str_in k ids); simpl; [now rewrite orb_true_r|].
    rewrite orb_false_r. reflexivity. }
  apply (G Dict.empty).
Qed.

(** The constructor builds a well-formed controller. *)
Lemma init_wf N yt ming maxg wb sl cr dbg :
  (0 < N)%nat -> ~ (cr == 0)%Q -> wf (__init__ N yt ming maxg wb sl cr dbg).
Proof.
  intros HN Hcr. unfold wf, __init__. simpl. split; [|split; [|split; auto]].
  - destruct N; [lia|]. simpl. discriminate.
  - intros k. now rewrite fresh_lanes_keys.
  - intros g Hg. discriminate.
Qed.

(** So does the request handler for a non-empty lane set. *)
Lemma register_wf incoming : incoming <> [] -> wf (register incoming).
Proof.
  intros Hne. unfold wf, register. simpl. split; [auto|split; [|split]].
  - intros k. now rewrite fresh_lanes_keys.
  - intros g Hg. discriminate.
  - vm_compute. discriminate.
Qed.

Lemma set_neq_false a b :
  set_neq a b = false -> forall k, In k a <-> In k b.
Proof.
  unfold set_neq. rewrite negb_false_iff, andb_true_iff, !forallb_forall.
  intros [H1 H2] k. split; intros H.
  - apply str_in_In. now apply H1.
  - apply str_in_In. now apply H2.
Qed.

(** A controller with fresh lanes has waits of 0. *)
Lemma fresh_waits_in_range ids s :
  lanes s = fresh_lanes ids -> waits_in_range s.
Proof.
  intros E k l H. rewrite E, fresh_lanes_get in H.
  destruct (str_in k ids); inv H. reflexivity.
Qed.

(** The controller of the request handler is within range. *)
Lemma register_in_range incoming :
  waits_in_range (register incoming) /\ flow_in_range (register incoming).
Proof.
  split.
  - now apply (@fresh_waits_in_range incoming).
  - apply flow_in_range_bound; unfold register; simpl;
      try discriminate; reflexivity.
Qed.

(** The request handler returns a report for every non-empty request whose
    counts convert to float, when the stored waits of its controller do and
    the tuning constants of the controller keep the flow finite; it keeps
    its invariant. *)
Theorem update_signal_returns env input_data srv :
  server_ok srv -> server_in_range srv ->
  input_data <> [] -> readings_in_range input_data ->
  exists output srv',
    update_signal env input_data srv = (Ok output, srv') /\ server_ok srv'.
Proof.
  intros Hok Hsr Hne Hrr. unfold update_signal.
  set (incoming := map lane_id input_data).
  assert (Hinc : incoming <> []).
  { unfold incoming. destruct input_data; [congruence|discriminate]. }
  assert (G : forall c lanes0,
    wf c -> readings_cover c input_data -> lanes0 = lane_ids c ->
    waits_in_range c -> flow_in_range c ->
    exists output srv',
      (let (r, c') := update env input_data c in (r, mkServer (Some c') lanes0))
      = (Ok output, srv') /\ server_ok srv').
  { intros c lanes0 Hwf Hcov Hl Hwr Hfr.
    destruct (@update_ok env input_data c Hwf Hcov Hrr Hwr Hfr)
      as [output [c' [Hup Hwf']]].
    rewrite Hup. exists output, (mkServer (Some c') lanes0). split; auto.
    unfold server_ok. simpl. split; auto.
    destruct (update_inv _ _ _ Hup) as [data [chosen [gt Hsteps]]].
    destruct (update_report Hsteps) as [Hids _]. congruence. }
  assert (Hreg : readings_cover (register incoming) input_data).
  { intros k. reflexivity. }
  destruct (register_in_range incoming) as [Hrw Hrf].
  unfold server_ok in Hok. unfold server_in_range in Hsr.
  destruct (controller srv) as [c|] eqn:Ec.
  - destruct Hok as [Hwf Hcur]. destruct Hsr as [Hcw Hcf].
    destruct (set_neq incoming (current_lanes srv)) eqn:Es.
    + simpl. apply G; auto. now apply register_wf.
    + rewrite Ec. apply G; auto.
      intros k. rewrite <- Hcur. now apply set_neq_false.
  - simpl. apply G; auto. now apply register_wf.
Qed.

Lemma update_signal_returns_witness :
  exists output srv',
    update_signal sample_env tied_emergencies server0 = (Ok output, srv') /\
    server_ok srv'.
Proof.
  apply (@update_signal_returns sample_env tied_emergencies server0).
  - exact I.
  - exact I.
  - discriminate.
  - intros d Hd. simpl in Hd. destruct Hd as [<-|[<-|[]]]; split; reflexivity.
Defined.

Lemma update_returns_witness :
  exists output s',
    update sample_env idle_readings (init_default 4) = (Ok output, s') /\ wf s' /\
    lane_ids s' = lane_ids (init_default 4).
Proof.
  apply (@update_returns sample_env idle_readings (init_default 4)).
  - apply init_wf; [lia | vm_compute; discriminate].
  - intros k. vm_compute. tauto.
  - intros d Hd. vm_compute in Hd.
    repeat (destruct Hd as [<-|Hd]; [split; reflexivity|]). destruct Hd.
  - now apply (@fresh_waits_in_range (map lane_name (seq 0 4))).
  - apply flow_in_range_bound; vm_compute; try discriminate; reflexivity.
Defined.

(** ** The scenarios of the specification, evaluated *)

(** Scenario A: four idle lanes on a fresh controller. *)
Example scenario_A :
  fst (update sample_env idle_readings (init_default 4)) =
  Ok [("Lane_1", mkReportEntry Green 0 (Some 3%Q));
      ("Lane_2", mkReportEntry Red 1 None);
      ("Lane_3", mkReportEntry Red 1 None);
      ("Lane_4", mkReportEntry Red 1 None)].
Proof. vm_compute. reflexivity. Qed.

(** Scenario B: only lane B has vehicles. *)
Example scenario_B :
  fst (update_signal sample_env
         [mkReading "A" 0 0; mkReading "B" 2 0; mkReading "C" 0 0; mkReading "D" 0 0]
         server0) =
  Ok [("A", mkReportEntry Red 1 None);
      ("B", mkReportEntry Green 0 (Some 3%Q));
      ("C", mkReportEntry Red 1 None);
      ("D", mkReportEntry Red 1 None)].
Proof. vm_compute. reflexivity. Qed.

(** Scenario C: two lanes tied at two emergency vehicles are served in turn. *)
Example scenario_C :
  let first := update_signal sample_env tied_emergencies server0 in
  let second := update_signal (mkEnv 2 2 (fun _ => 0)) tied_emergencies (snd first) in
  option_map current_green (controller (snd first)) = Some (Some "A") /\
  option_map last_emergency_lane (controller (snd first)) = Some (Some "A") /\
  option_map current_green (controller (snd second)) = Some (Some "B").
Proof. vm_compute. repeat split. Qed.

(** Scenario D: a request with a different lane set is served by a fresh
    controller. *)
Example scenario_D :
  let first := update_signal sample_env busy_B server0 in
  let readings := [mkReading "A" 0 0; mkReading "B" 0 0; mkReading "C" 0 0] in
  fst (update_signal (mkEnv 2 2 (fun _ => 0)) readings (snd first)) =
  fst (update_signal (mkEnv 2 2 (fun _ => 0)) readings server0).
Proof. vm_compute. reflexivity. Qed.

(** A lane id registered twice through the request handler is visited twice
    by the loop of [_update_waits]: lane A waits two cycles per call. *)
Example repeated_lane_id_waits_twice :
  let readings := [mkReading "A" 0 0; mkReading "A" 0 0; mkReading "B" 5 0] in
  option_map (fun c => (lane_ids c, wait_of c "A", current_green c))
    (controller (snd (update_signal sample_env readings server0)))
  = Some (["A"; "A"; "B"], Some 2, Some "B").
Proof. vm_compute. reflexivity. Qed.

(** Without classifier and with a failing image pipeline every unlabelled
    detection is counted, as normal. *)
Example aggregate_counts_sample :
  ModelApi.aggregate_counts no_classifier no_pipeline sample_detections =
  [mkReading "A" 2 1; mkReading "B" 1 0].
Proof. vm_compute. reflexivity. Qed.

(** * Further properties of the code *)

(** ** The constructor *)

Lemma lane_name_inj i j : lane_name i = lane_name j -> i = j.
Proof.
  unfold lane_name. simpl. intros H. injection H as H.
  assert (E : Nat.to_uint (S i) = Nat.to_uint (S j)).
  { pose proof (NilEmpty.usu (Nat.to_uint (S i))) as Hi.
    rewrite H, NilEmpty.usu in Hi. now inv Hi. }
  apply DecimalNat.Unsigned.to_uint_inj in E. now inv E.
Qed.

Lemma first_occurrences_nodup ids : forall seen,
  NoDup ids -> (forall x, In x ids -> ~ In x seen) ->
  first_occurrences seen ids = ids.
Proof.
  induction ids as [|x ids IH]; intros seen Hnd Hs; simpl; auto.
  inv Hnd. destruct (str_in x seen) eqn:E.
  - apply str_in_In in E. exfalso. apply (Hs x); [now left | exact E].
  - f_equal. apply IH; auto.
    intros y Hy [<-|Hi]; [contradiction|]. apply (Hs y); [now right | exact Hi].
Qed.

Lemma fresh_lanes_keys_list ids :
  Dict.keys (fresh_lanes ids) = first_occurrences [] ids.
Proof.
  unfold fresh_lanes.
  assert (G : forall acc : Dict.t Lane,
    Dict.keys (fold_left (fun d lane => Dict.set lane fresh_lane d) ids acc)
    = (Dict.keys acc ++ first_occurrences (Dict.keys acc) ids)%list).
  { induction ids as [|x ids IH]; intros acc; simpl; [now rewrite app_nil_r|].
    rewrite IH. destruct (str_in x (Dict.keys acc)) eqn:E.
    - apply str_in_In in E. now rewrite keys_set_present.
    - assert (Hn : ~ In x (Dict.keys acc)).
      { intros Hi. apply str_in_In in Hi. congruence. }
      rewrite keys_set_absent by assumption. rewrite <- app_assoc. simpl.
      do 2 f_equal. apply first_occurrences_ext.
      intros y. rewrite in_app_iff. simpl. tauto. }
  apply (G Dict.empty).
Qed.

(** The constructor registers the lanes [Lane_1], ..., [Lane_N]: [N]
    pairwise distinct, non-empty ids, in this order, each with an entry of
    zero counts, zero wait and phase Red, and no other entry; no lane is
    green and the allotted green time starts at [min_green]. *)
Theorem constructor_registers_distinct_lanes N yt ming maxg wb sl cr dbg :
  let s := __init__ N yt ming maxg wb sl cr dbg in
  length (lane_ids s) = N /\
  (forall i, (i < N)%nat -> nth i (lane_ids s) "" = lane_name i) /\
  NoDup (lane_ids s) /\
  ~ In "" (lane_ids s) /\
  Dict.keys (lanes s) = lane_ids s /\
  (forall k, In k (lane_ids s) -> Dict.get k (lanes s) = Some (mkLane 0 0 0 Red)) /\
  current_green s = None /\
  last_emergency_lane s = None /\
  current_green_time s = ming.
Proof.
  cbv zeta. unfold __init__. cbn [lane_ids lanes current_green last_emergency_lane
                                  current_green_time].
  assert (Hnd : NoDup (map lane_name (seq 0 N))).
  { apply NoDup_map_NoDup_ForallPairs; [|apply seq_NoDup].
    intros i j _ _. apply lane_name_inj. }
  split; [now rewrite length_map, length_seq|].
  split.
  { intros i Hi. rewrite nth_map_seq by exact Hi. reflexivity. }
  split; [exact Hnd|]. split.
  { intros H. apply in_map_iff in H. destruct H as [i [H _]]. discriminate. }
  split.
  { rewrite fresh_lanes_keys_list. apply first_occurrences_nodup; auto. }
  split; [|auto].
  intros k Hk. rewrite fresh_lanes_get. apply str_in_In in Hk. now rewrite Hk.
Qed.

(** ** What [update] never changes *)

Section Keeps.
Variable R : Controller -> Controller -> Prop.
Hypothesis R_refl : forall s, R s s.
Hypothesis R_trans : forall s1 s2 s3, R s1 s2 -> R s2 s3 -> R s1 s3.

Lemma keeps_lift A (r : result A) : keeps R (lift r).
Proof. intros s r0 s' H. unfold lift in H. inv H. apply R_refl. Qed.

Lemma keeps_gets A (f : Controller -> A) : keeps R (gets f).
Proof. intros s r0 s' H. unfold gets in H. inv H. apply R_refl. Qed.

Lemma keeps_ret A (a : A) : keeps R (ret a).
Proof. intros s r0 s' H. unfold ret in H. inv H. apply R_refl. Qed.

Lemma keeps_bind A B (m : M A) (k : A -> M B) :
  keeps R m -> (forall a, keeps R (k a)) -> keeps R (bind m k).
Proof.
  intros Hm Hk s r s' H. unfold bind in H.
  destruct (m s) as [[a|e] s1] eqn:E.
  - eapply R_trans; [eapply Hm; eauto | eapply Hk; eauto].
  - inv H. eapply Hm; eauto.
Qed.

Lemma keeps_for_each X (l : list X) (body : X -> M unit) :
  (forall x, keeps R (body x)) -> keeps R (for_each l body).
Proof.
  intros Hb s r s' H. eapply for_each_preserves; eauto.
Qed.
End Keeps.

Lemma untouched_refl s : untouched s s.
Proof. unfold untouched, same_config. tauto. Qed.

Lemma untouched_trans s1 s2 s3 : untouched s1 s2 -> untouched s2 s3 -> untouched s1 s3.
Proof.
  unfold untouched, same_config.
  intros [A1 [[B1 [C1 [D1 [E1 [F1 [G1 H1]]]]]] [K1 L1]]]
         [A2 [[B2 [C2 [D2 [E2 [F2 [G2 H2]]]]]] [K2 L2]]].
  repeat split; try congruence. all: intros k; now rewrite L2, L1.
Qed.

Lemma set_lane_field_untouched lane f :
  (forall l, emergency (f l) = emergency l) ->
  keeps untouched (set_lane_field lane f).
Proof.
  intros Hf s r s' H. unfold set_lane_field in H.
  destruct (Dict.get lane (lanes s)) as [l|] eqn:El; inv H.
  - unfold untouched, same_config. simpl. repeat split; auto.
    + apply keys_set_present. apply get_some_in_keys. eauto.
    + intros k. rewrite get_set. destruct (String.eqb k lane) eqn:E; auto.
      apply String.eqb_eq in E. subst k. rewrite El. simpl. now rewrite Hf.
  - apply untouched_refl.
Qed.

Lemma choose_untouched env data : keeps untouched (choose env data).
Proof.
  intros s r s' H. apply choose_frame in H. rewrite H.
  unfold untouched, same_config. simpl. repeat split; auto.
Qed.

Lemma modify_untouched f :
  (forall s, untouched s (f s)) -> keeps untouched (modify f).
Proof. intros Hf s r s' H. unfold modify in H. inv H. apply Hf. Qed.

Ltac keeps_step :=
  first
    [ apply keeps_lift; apply untouched_refl
    | apply keeps_gets; apply untouched_refl
    | apply choose_untouched
    | apply set_lane_field_untouched; intros; reflexivity
    | apply modify_untouched; intros;
      unfold untouched, same_config; simpl; repeat split; reflexivity
    | match goal with
      | |- keeps _ (if ?b then _ else _) => destruct b
      end
    | apply keeps_for_each; [apply untouched_refl | apply untouched_trans | intros]
    | apply keeps_bind; [apply untouched_trans | | intros] ].

Lemma update_untouched env lanes_data s r s' :
  update env lanes_data s = (r, s') -> untouched s s'.
Proof.
  revert s r s'. change (keeps untouched (update env lanes_data)).
  unfold update. repeat keeps_step.
Qed.

(** Whether a call of [update] returns or raises, it leaves the list of
    registered lanes, the tuning constants, the keys of [lanes] and the
    emergency count stored with every lane as they were: the counts of
    emergency vehicles of the readings are never stored. *)
Theorem update_leaves_registration env lanes_data s r s' :
  update env lanes_data s = (r, s') ->
  lane_ids s' = lane_ids s /\
  Dict.keys (lanes s') = Dict.keys (lanes s) /\
  (forall k, option_map emergency (Dict.get k (lanes s'))
             = option_map emergency (Dict.get k (lanes s))) /\
  yellow_time s' = yellow_time s /\ min_green s' = min_green s /\
  max_green s' = max_green s /\ wait_boost s' = wait_boost s /\
  starvation_limit s' = starvation_limit s /\
  clearance_rate s' = clearance_rate s /\ debug s' = debug s.
Proof.
  intros H. apply update_untouched in H. unfold untouched, same_config in H.
  tauto.
Qed.

Lemma update_leaves_registration_witness :
  let s := init_default 4 in
  let s' := snd (update sample_env [mkReading "Lane_1" 0 1] s) in
  fst (update sample_env [mkReading "Lane_1" 0 1] s) = Raise (KeyError "Lane_2") /\
  wait_of s' "Lane_2" = Some 1 /\
  lane_ids s' = lane_ids s /\
  Dict.keys (lanes s') = Dict.keys (lanes s) /\
  (forall k, option_map emergency (Dict.get k (lanes s'))
             = option_map emergency (Dict.get k (lanes s))) /\
  yellow_time s' = yellow_time s /\ min_green s' = min_green s /\
  max_green s' = max_green s /\ wait_boost s' = wait_boost s /\
  starvation_limit s' = starvation_limit s /\
  clearance_rate s' = clearance_rate s /\ debug s' = debug s.
Proof.
  intros s s'. split; [vm_compute; reflexivity|]. split; [vm_compute; reflexivity|].
  apply (@update_leaves_registration sample_env [mkReading "Lane_1" 0 1] s
           (fst (update sample_env [mkReading "Lane_1" 0 1] s))).
  apply surjective_pairing.
Defined.

(** ** The phases in every state a program can reach *)

Lemma bind_any A B (m : M A) (k : A -> M B) s r s' :
  bind m k s = (r, s') ->
  (exists a s1, m s = (Ok a, s1) /\ k a s1 = (r, s')) \/
  (exists e, m s = (Raise e, s') /\ r = Raise e).
Proof.
  unfold bind. destruct (m s) as [[a|e] s1]; intros H.
  - left. eauto.
  - inv H. right. eauto.
Qed.

Lemma same_phases_refl s : same_phases s s.
Proof. unfold same_phases. auto. Qed.

Lemma same_phases_trans s1 s2 s3 :
  same_phases s1 s2 -> same_phases s2 s3 -> same_phases s1 s3.
Proof.
  intros [A1 [B1 C1]] [A2 [B2 C2]]. unfold same_phases.
  repeat split; try congruence. all: intros k; now rewrite C2, C1.
Qed.

Lemma set_lane_field_same_phases lane f :
  (forall l, state (f l) = state l) ->
  keeps same_phases (set_lane_field lane f).
Proof.
  intros Hf s r s' H. unfold set_lane_field in H.
  destruct (Dict.get lane (lanes s)) as [l|] eqn:El; inv H.
  - unfold same_phases, phase_of. simpl. repeat split.
    intros k. rewrite get_set. destruct (String.eqb k lane) eqn:E; auto.
    apply String.eqb_eq in E. subst k. rewrite El. simpl. now rewrite Hf.
  - apply same_phases_refl.
Qed.

Lemma update_waits_same_phases chosen : keeps same_phases (_update_waits chosen).
Proof.
  unfold _update_waits.
  apply keeps_bind; [apply same_phases_trans | apply keeps_gets, same_phases_refl|].
  intros ids. apply keeps_for_each; [apply same_phases_refl | apply same_phases_trans|].
  intros x. destruct (String.eqb x chosen);
    apply set_lane_field_same_phases; intros; reflexivity.
Qed.

Lemma store_queues_same_phases data : keeps same_phases (store_queues data).
Proof.
  intros s r s' H. apply store_queues_frame in H. destruct H as [F [St _]].
  unfold same_phases, phase_of. rewrite F. simpl. auto.
Qed.

Lemma choose_same_phases env data : keeps same_phases (choose env data).
Proof.
  intros s r s' H. apply choose_frame in H. rewrite H.
  unfold same_phases, phase_of. simpl. auto.
Qed.

Lemma phases_consistent_same s s' :
  same_phases s s' -> phases_consistent s -> phases_consistent s'.
Proof.
  intros [A [B C]] [H1 [H2 [H3 H4]]]. unfold phases_consistent.
  rewrite A, B. repeat split.
  - intros H. rewrite C. now apply H1.
  - intros H. apply H1. now rewrite <- C.
  - intros k. rewrite C. apply H2.
  - intros k. rewrite C. apply H3.
  - intros g Hg. rewrite C. now apply H4.
Qed.

Lemma phase_of_in_keys s k : phase_of s k <> None <-> In k (Dict.keys (lanes s)).
Proof.
  unfold phase_of. rewrite <- get_some_in_keys.
  destruct (Dict.get k (lanes s)); simpl; split; intros H;
    try congruence; eauto. destruct H. discriminate.
Qed.

(** The lane chosen on a consistent controller is a registered lane. *)
Lemma choose_registered env lanes_data data s c s1 :
  phases_consistent s ->
  merge (lanes s) lanes_data Dict.empty = Ok data ->
  choose env data s = (Ok c, s1) ->
  In c (lane_ids s).
Proof.
  intros [H1 [_ [_ H4]]] Hm Hc.
  assert (N : forall s0, choose_without_emergency env data s0 = (Ok c, s1) ->
              lane_ids s0 = lane_ids s -> current_green s0 = current_green s ->
              In c (lane_ids s)).
  { intros s0 H Hids Hg. unfold choose_without_emergency in H. rewrite Hg in H.
    assert (F : (_choose_normal_lane s0 data, s0) = (Ok c, s1) -> In c (lane_ids s)).
    { intros E. inv E. rewrite <- Hids.
      match goal with H : _ = Ok c |- _ => apply choose_normal_lane_ok in H;
        destruct H as [Hf _]; eapply first_maximal_in; eauto end. }
    destruct (current_green s) as [g|] eqn:Eg; [|auto].
    destruct (green_started_at s0) as [t0|]; [|auto].
    destruct (truthy_lane (Some g) && truthy_time (Some t0)); [|auto].
    destruct (Qltb (now_check env - t0) (current_green_time s0)); [|auto].
    inv H. apply H1. rewrite (H4 c eq_refl). discriminate. }
  unfold choose in Hc. apply bind_ok in Hc. destruct Hc as [o [s0 [He Hc]]].
  pose proof (choose_emergency_frame _ _ He) as F.
  assert (Hids : lane_ids s0 = lane_ids s) by (rewrite F; reflexivity).
  assert (Hg : current_green s0 = current_green s) by (rewrite F; reflexivity).
  destruct o as [c0|]; [|eapply N; eauto].
  destruct (truthy_lane (Some c0)); [|eapply N; eauto].
  unfold ret in Hc. inv Hc.
  destruct (choose_emergency_lane_ok data s) as [[_ E]|[c' [E [Hk _]]]];
    rewrite E in He; inv He.
  destruct (@merge_key_has_reading _ _ _ _ Hm Hk) as [d [l [_ [Hl _]]]].
  apply H1. unfold phase_of. rewrite Hl. discriminate.
Qed.

(** On a consistent controller [_apply_yellow] cannot fail for a registered
    lane, and leaves a consistent controller. *)
Lemma apply_yellow_consistent c now s r s' :
  phases_consistent s -> In c (lane_ids s) ->
  _apply_yellow c now s = (r, s') ->
  r = Ok tt /\ phases_consistent s'.
Proof.
  intros [H1 [H2 [H3 H4]]] Hin H.
  assert (Hk : forall k, In k (lane_ids s) -> In k (Dict.keys (lanes s))).
  { intros k Hk. apply phase_of_in_keys. now apply H1. }
  destruct (@apply_yellow_total c now s Hk Hin) as [s2 Hok].
  rewrite Hok in H. inv H. split; [reflexivity|].
  apply apply_yellow_ok in Hok.
  destruct Hok as [F [_ [[lg [Hlg Hg]] [Hred [Hother _]]]]].
  assert (Hids : lane_ids s' = lane_ids s) by (rewrite F; reflexivity).
  assert (Hcg : current_green s' = Some c) by (rewrite F; reflexivity).
  assert (Hc : phase_of s' c = Some Green).
  { unfold phase_of. rewrite Hlg. simpl. now f_equal. }
  assert (Hr : forall k, k <> c -> In k (lane_ids s) -> phase_of s' k = Some Red).
  { intros k Hne Hi. destruct (Hred k Hne Hi) as [l [Hl Hs]].
    unfold phase_of. rewrite Hl. simpl. now f_equal. }
  assert (Ho : forall k, k <> c -> ~ In k (lane_ids s) -> phase_of s' k = None).
  { intros k Hne Hi. unfold phase_of. rewrite (Hother k Hne Hi).
    destruct (Dict.get k (lanes s)) eqn:E; auto.
    exfalso. apply Hi. apply H1. unfold phase_of. rewrite E. discriminate. }
  assert (Cases : forall k, (k = c /\ phase_of s' k = Some Green) \/
                            (In k (lane_ids s) /\ phase_of s' k = Some Red) \/
                            (~ In k (lane_ids s) /\ phase_of s' k = None)).
  { intros k. destruct (string_dec k c) as [->|Hne]; [auto|].
    destruct (in_dec string_dec k (lane_ids s)); [right; left|right; right]; auto. }
  unfold phases_consistent. rewrite Hids, Hcg. repeat split.
  - intros Hi. destruct (Cases k) as [[_ E]|[[_ E]|[N _]]];
      [rewrite E; discriminate | rewrite E; discriminate | contradiction].
  - intros Hp. destruct (Cases k) as [[-> _]|[[Hi _]|[_ E]]]; auto. congruence.
  - intros k. destruct (Cases k) as [[_ E]|[[_ E]|[_ E]]]; rewrite E; discriminate.
  - intros k Hp. destruct (Cases k) as [[-> _]|[[_ E]|[_ E]]]; auto; congruence.
  - intros g Hg'. inv Hg'. exact Hc.
Qed.

(** [update] keeps the phases consistent, whether it returns or raises. *)
Lemma update_consistent env lanes_data s r s' :
  phases_consistent s -> update env lanes_data s = (r, s') -> phases_consistent s'.
Proof.
  intros Hc H. unfold update in H.
  apply bind_any in H. destruct H as [[ls [s0 [H0 H]]]|[e [H0 _]]];
    [|unfold gets in H0; discriminate].
  apply gets_ok in H0. destruct H0; subst ls s0.
  apply bind_any in H. destruct H as [[data [s0 [H0 H]]]|[e [H0 _]]];
    [|unfold lift in H0; now inv H0].
  apply lift_ok in H0. destruct H0 as [Hm ->].
  apply bind_any in H. destruct H as [[c [s1 [Hch H]]]|[e [H0 _]]];
    [|eapply phases_consistent_same; [eapply choose_same_phases; eauto|auto]].
  pose proof (choose_registered _ _ Hc Hm Hch) as Hin.
  assert (C1 : phases_consistent s1).
  { eapply phases_consistent_same; [eapply choose_same_phases; eauto|auto]. }
  assert (I1 : lane_ids s1 = lane_ids s).
  { apply choose_frame in Hch. rewrite Hch. reflexivity. }
  apply bind_any in H. destruct H as [[[] [s2 [Hw H]]]|[e [H0 _]]];
    [|eapply phases_consistent_same; [eapply update_waits_same_phases; eauto|auto]].
  assert (P2 : same_phases s1 s2) by (eapply update_waits_same_phases; eauto).
  assert (C2 : phases_consistent s2) by (eapply phases_consistent_same; eauto).
  apply bind_any in H. destruct H as [[self [s0 [H0 H]]]|[e [H0 _]]];
    [|unfold gets in H0; discriminate].
  apply gets_ok in H0. destruct H0; subst self s0.
  apply bind_any in H. destruct H as [[gt [s0 [H0 H]]]|[e [H0 _]]];
    [|unfold lift in H0; now inv H0].
  apply lift_ok in H0. destruct H0 as [_ ->].
  apply bind_any in H. destruct H as [[[] [s0 [H0 H]]]|[e [H0 _]]];
    [|unfold modify in H0; discriminate].
  unfold modify in H0. inv H0.
  assert (C2' : phases_consistent (with_green_time gt s2)).
  { eapply phases_consistent_same; [|exact C2]. unfold same_phases, phase_of. auto. }
  apply bind_any in H. destruct H as [[[] [s3 [Hy H]]]|[e [Hy _]]].
  2:{ eapply apply_yellow_consistent in Hy; eauto.
      - now destruct Hy.
      - simpl. destruct P2 as [I2 _]. now rewrite I2, I1. }
  assert (C3 : phases_consistent s3).
  { eapply apply_yellow_consistent in Hy; eauto.
    - now destruct Hy.
    - simpl. destruct P2 as [I2 _]. now rewrite I2, I1. }
  apply bind_any in H. destruct H as [[self [s0 [H0 H]]]|[e [H0 _]]];
    [|unfold gets in H0; discriminate].
  apply gets_ok in H0. destruct H0; subst self s0.
  apply bind_any in H. destruct H as [[data' [s0 [H0 H]]]|[e [H0 _]]];
    [|unfold lift in H0; now inv H0].
  apply lift_ok in H0. destruct H0 as [_ ->].
  assert (F : forall r4 s4, store_queues data' s3 = (r4, s4) -> phases_consistent s4).
  { intros r4 s4 Hs. eapply phases_consistent_same; [eapply store_queues_same_phases; eauto|auto]. }
  apply bind_any in H. destruct H as [[[] [s4 [Hs H]]]|[e [Hs _]]]; [|eapply F; eauto].
  apply bind_any in H. destruct H as [[self [s0 [H0 H]]]|[e [H0 _]]];
    [|unfold gets in H0; discriminate].
  apply gets_ok in H0. destruct H0; subst self s0.
  apply bind_any in H. destruct H as [[out [s0 [H0 H]]]|[e [H0 _]]].
  - unfold lift in H0, H. inv H0. inv H. eapply F; eauto.
  - unfold lift in H0. inv H0. eapply F; eauto.
Qed.

Lemma fresh_consistent ids s :
  lane_ids s = ids -> lanes s = fresh_lanes ids -> current_green s = None ->
  phases_consistent s.
Proof.
  intros Hids Hl Hg.
  assert (P : forall k, phase_of s k = if str_in k ids then Some Red else None).
  { intros k. unfold phase_of. rewrite Hl, fresh_lanes_get.
    now destruct (str_in k ids). }
  unfold phases_consistent. rewrite Hids, Hg. repeat split.
  - intros H. rewrite P. apply str_in_In in H. rewrite H. discriminate.
  - intros H. rewrite P in H. apply str_in_In.
    destruct (str_in k ids); congruence.
  - intros k. rewrite P. destruct (str_in k ids); discriminate.
  - intros k. rewrite P. destruct (str_in k ids); discriminate.
  - discriminate.
Qed.

Lemma reachable_consistent s : reachable s -> phases_consistent s.
Proof.
  induction 1.
  - eapply fresh_consistent; reflexivity.
  - eapply fresh_consistent; reflexivity.
  - eapply update_consistent; eauto.
Qed.

(** In every state a program can reach, after calls that returned and calls
    that raised alike: no stored phase is Yellow, at most one lane is Green,
    the Green lane is exactly the current green lane, and [lanes] has an
    entry for exactly the registered lanes. *)
Theorem reachable_at_most_one_green s :
  reachable s ->
  (forall k, phase_of s k <> Some Yellow) /\
  (forall k k', phase_of s k = Some Green -> phase_of s k' = Some Green -> k = k') /\
  (forall g, current_green s = Some g <-> phase_of s g = Some Green) /\
  (forall k, In k (lane_ids s) <-> In k (Dict.keys (lanes s))).
Proof.
  intros H. apply reachable_consistent in H. destruct H as [H1 [H2 [H3 H4]]].
  split; [exact H2|split; [|split]].
  - intros k k' Hk Hk'. apply H3 in Hk. apply H3 in Hk'. congruence.
  - intros g. split; [apply H4 | apply H3].
  - intros k. rewrite H1. apply phase_of_in_keys.
Qed.

Lemma reachable_at_most_one_green_witness :
  let s := snd (update sample_env [mkReading "Lane_1" 0 1] (init_default 4)) in
  fst (update sample_env [mkReading "Lane_1" 0 1] (init_default 4))
    = Raise (KeyError "Lane_2") /\
  (forall k, phase_of s k <> Some Yellow) /\
  (forall k k', phase_of s k = Some Green -> phase_of s k' = Some Green -> k = k') /\
  (forall g, current_green s = Some g <-> phase_of s g = Some Green) /\
  (forall k, In k (lane_ids s) <-> In k (Dict.keys (lanes s))).
Proof.
  intros s. split; [vm_compute; reflexivity|].
  apply (@reachable_at_most_one_green s).
  eapply reach_update; [apply reach_init|].
  unfold s. apply surjective_pairing.
Defined.

(** The emergency count stored with a lane is 0 in every state a program
    can reach: [update] stores the queue lengths of the readings, never
    their emergency counts. *)
Theorem stored_emergency_always_zero s :
  reachable s ->
  forall k l, Dict.get k (lanes s) = Some l -> emergency l = 0.
Proof.
  induction 1 as [N yt ming maxg wb sl cr dbg | incoming | env rd s r s' Hr IH Hup].
  - intros k l H. simpl in H. rewrite fresh_lanes_get in H.
    destruct (str_in k _); inv H. reflexivity.
  - intros k l H. simpl in H. rewrite fresh_lanes_get in H.
    destruct (str_in k _); inv H. reflexivity.
  - intros k l H. apply update_untouched in Hup.
    destruct Hup as [_ [_ [_ He]]]. specialize (He k). rewrite H in He.
    destruct (Dict.get k (lanes s)) as [l0|] eqn:E; [|discriminate].
    simpl in He. injection He as He. rewrite He. eapply IH. exact E.
Qed.

Lemma stored_emergency_always_zero_witness :
  let s := snd (update sample_env tied_emergencies (register ["A"; "B"])) in
  current_green s = Some "A" /\
  forall k l, Dict.get k (lanes s) = Some l -> emergency l = 0.
Proof.
  intros s. split; [reflexivity|].
  apply (@stored_emergency_always_zero s).
  eapply reach_update; [apply reach_register|]. apply surjective_pairing.
Defined.

(** ** The queues after a call *)

(** The arrivals loop on distinct lane ids: every lane but the chosen one
    gets one draw added to its queue; nothing else changes. *)
Lemma arrivals_ok rand chosen ids : forall k0 data data',
  arrivals rand chosen ids k0 data = Ok data' ->
  NoDup ids ->
  (forall k, ~ In k ids \/ k = chosen -> Dict.get k data' = Dict.get k data) /\
  (forall k, In k ids -> k <> chosen ->
     exists e j, Dict.get k data = Some e /\
       Dict.get k data' = Some (entry_set_normal (d_normal e + rand j) e)).
Proof.
  induction ids as [|x ids IH]; intros k0 data data' H Hnd; simpl in H.
  - inv H. split; [auto|intros k []].
  - inv Hnd. destruct (String.eqb x chosen) eqn:Ex.
    + apply String.eqb_eq in Ex. subst x.
      destruct (IH _ _ _ H H3) as [Hsame Hadd]. split.
      * intros k [Hk|Hk]; apply Hsame; [left; intros Hi; apply Hk; now right | now right].
      * intros k [<-|Hk] Hne; [congruence|now apply Hadd].
    + apply String.eqb_neq in Ex.
      destruct (item x data) as [e|err] eqn:Ee; [|discriminate].
      apply item_ok in Ee.
      destruct (IH _ _ _ H H3) as [Hsame Hadd]. split.
      * intros k Hk. rewrite Hsame.
        -- apply get_set_other. intros ->. destruct Hk as [Hk|Hk]; [|congruence].
           apply Hk. now left.
        -- destruct Hk as [Hk|Hk]; [left; intros Hi; apply Hk; now right | now right].
      * intros k [<-|Hk] Hne.
        -- exists e, k0. split; auto. rewrite Hsame by (now left). apply get_set_same.
        -- destruct (Hadd k Hk Hne) as [e' [j [He' Hd']]].
           rewrite get_set_other in He' by (intros ->; contradiction).
           eauto.
Qed.

(** [_simulate_flow] on distinct lane ids. *)
Lemma simulate_flow_ok s rand data chosen gt data' :
  _simulate_flow s rand data chosen gt = Ok data' ->
  NoDup (lane_ids s) ->
  (exists e units, Dict.get chosen data = Some e /\
     py_int (clearance_rate s * gt) = Ok units /\
     Dict.get chosen data' =
       Some (entry_set_normal (d_normal e - Z.min (d_normal e) units) e)) /\
  (forall k, In k (lane_ids s) -> k <> chosen ->
     exists e j, Dict.get k data = Some e /\
       Dict.get k data' = Some (entry_set_normal (d_normal e + rand j) e)).
Proof.
  unfold _simulate_flow. intros H Hnd.
  apply rbind_ok in H. destruct H as [e [He H]]. apply item_ok in He.
  cbv zeta in H. apply rbind_ok in H. destruct H as [units [Hu H]].
  destruct (@arrivals_ok _ _ _ _ _ _ H Hnd) as [Hsame Hadd]. split.
  - exists e, units. split; [auto|split; [auto|]].
    rewrite Hsame by (now right). apply get_set_same.
  - intros k Hk Hne. destruct (Hadd k Hk Hne) as [e' [j [He' Hd']]].
    rewrite get_set_other in He' by congruence. eauto.
Qed.

(** [store_queues] copies the queue length of every registered lane. *)
Lemma store_queues_ok data s s' :
  store_queues data s = (Ok tt, s') ->
  forall k, In k (lane_ids s) ->
    exists e, Dict.get k data = Some e /\ stored_normal s' k = Some (d_normal e).
Proof.
  unfold store_queues. intros H.
  apply bind_ok in H. destruct H as [ids [s0 [H0 H]]].
  apply gets_ok in H0. destruct H0; subst ids s0.
  set (f := fun lane (l : Lane) =>
              match Dict.get lane data with
              | Some e => set_normal (d_normal e) l
              | None => l
              end).
  assert (G : forall ids s1 s2,
    for_each ids (fun lane => e <- lift (item lane data) ;;
                              set_lane_field lane (set_normal (d_normal e)))%py s1
      = (Ok tt, s2) ->
    for_each ids (fun lane => set_lane_field lane (f lane)) s1 = (Ok tt, s2) /\
    forall k, In k ids -> exists e, Dict.get k data = Some e).
  { induction ids as [|x ids IH]; intros s1 s2 Hl; simpl in *.
    - split; [exact Hl|intros k []].
    - apply bind_ok in Hl. destruct Hl as [[] [s3 [Hb Hl]]].
      apply bind_ok in Hb. destruct Hb as [e [s4 [Hi Hb]]].
      apply lift_ok in Hi. destruct Hi as [Hi ->]. apply item_ok in Hi.
      destruct (IH _ _ Hl) as [Hl' Hin]. split.
      + erewrite bind_eq; [exact Hl'|]. unfold f. cbv beta. rewrite Hi. exact Hb.
      + intros k [<-|Hk]; eauto. }
  destruct (G _ _ _ H) as [H' Hin].
  apply field_loop_ok in H'. destruct H' as [_ [Hkeys Hget]].
  intros k Hk. destruct (Hin k Hk) as [e He]. exists e. split; auto.
  unfold stored_normal. rewrite Hget.
  specialize (Hkeys k Hk). apply get_some_in_keys in Hkeys. destruct Hkeys as [l Hl].
  rewrite Hl. simpl. rewrite loop_effect_idem; auto.
  - unfold f. now rewrite He.
  - intros l0. unfold f. now rewrite He.
Qed.

Lemma int_of_float_nonneg x : (0 <= x)%Q -> 0 <= int_of_float x.
Proof.
  intros H. unfold int_of_float. apply Z.quot_pos; [|reflexivity].
  unfold Qle in H. simpl in H. lia.
Qed.

(** After a call of [update] that returns, on distinct lane ids, the stored
    queue of the chosen lane is its reading less the vehicles cleared, and
    the vehicles cleared are never more than the reading, so that queue
    never becomes negative; with a non-negative clearance rate, minimum
    green time and reading they are not fewer than 0 either, so that queue
    never grows. The stored queue of every other registered lane is its
    reading plus one draw of [random.randint(0, 3)]: with a draw between 0
    and 3 it grows by at most 3. *)
Theorem update_queues env lanes_data s output s' :
  update env lanes_data s = (Ok output, s') ->
  NoDup (lane_ids s) ->
  exists chosen,
    current_green s' = Some chosen /\
    (exists d cleared, last_reading chosen lanes_data = Some d /\
       stored_normal s' chosen = Some (r_normal d - cleared) /\
       cleared <= r_normal d /\
       ((0 <= clearance_rate s)%Q -> (0 <= min_green s)%Q -> 0 <= r_normal d ->
        0 <= cleared)) /\
    (forall k, In k (lane_ids s) -> k <> chosen ->
       exists d j, last_reading k lanes_data = Some d /\
         stored_normal s' k = Some (r_normal d + randint env j) /\
         (0 <= randint env j <= 3 ->
            exists n, stored_normal s' k = Some n /\ r_normal d <= n <= r_normal d + 3)).
Proof.
  intros Hup Hnd.
  destruct (update_inv _ _ _ Hup) as [data [chosen [gt Hsteps]]].
  destruct (update_report Hsteps) as [_ [Hcg [Hin _]]].
  destruct (update_stored Hsteps) as [_ [_ [_ [_ [Hgt' [_ [_ [ec [_ Hcalc]]]]]]]]].
  assert (Hlo : (min_green s <= current_green_time s')%Q).
  { rewrite Hgt'. now destruct (green_time_between _ _ Hcalc). }
  clear Hgt' Hcalc.
  exists chosen. split; [exact Hcg|].
  destruct Hsteps as [s1 s2 s3 e data' out0 Hmerge Hchoose Hwaits Hentry Hgt Hyellow
                        Hflow Hstore _ _].
  pose proof (store_queues_frame _ _ Hstore) as [F4 _].
  pose proof (apply_yellow_ok _ _ _ Hyellow) as [F3 _].
  pose proof (update_waits_ok _ _ Hwaits) as [F2 _].
  apply choose_frame in Hchoose.
  assert (I3 : lane_ids s3 = lane_ids s).
  { rewrite F3. simpl. rewrite (same_but_lanes_ids F2), Hchoose. reflexivity. }
  assert (R3 : clearance_rate s3 = clearance_rate s).
  { rewrite F3. simpl. rewrite F2. simpl. rewrite Hchoose. reflexivity. }
  assert (G3 : current_green_time s3 = current_green_time s').
  { rewrite F4. reflexivity. }
  rewrite <- I3 in Hnd.
  destruct (@simulate_flow_ok _ _ _ _ _ _ Hflow Hnd) as [[e0 [units [He0 [Hu Hc]]]] Hothers].
  pose proof (@store_queues_ok _ _ _ Hstore) as Hst.
  assert (Hrd : forall k ek, Dict.get k data = Some ek ->
            exists d, last_reading k lanes_data = Some d /\ d_normal ek = r_normal d).
  { intros k ek Hk.
    assert (Hi : In k (Dict.keys data)) by (apply get_some_in_keys; eauto).
    destruct (@merge_key_has_reading _ _ _ _ Hmerge Hi) as [d [l [Hd [_ Hde]]]].
    rewrite Hk in Hde. inv Hde. eauto. }
  split.
  - destruct (Hrd _ _ He0) as [d [Hd En]].
    exists d, (Z.min (r_normal d) units). split; [exact Hd|].
    destruct (Hst chosen) as [e1 [He1 Hn]]; [now rewrite I3|].
    rewrite Hc in He1. inv He1. simpl in Hn. rewrite En in Hn.
    split; [exact Hn|]. split; [apply Z.le_min_l|].
    intros Hrate Hmin Hpos.
    assert (Hunits : 0 <= units).
    { unfold py_int in Hu. destruct (finite_float _); [|discriminate].
      injection Hu as <-. apply int_of_float_nonneg.
      rewrite R3, G3. apply Qmult_le_0_compat; [exact Hrate|].
      eapply Qle_trans; eauto. }
    lia.
  - intros k Hk Hne. rewrite <- I3 in Hk.
    destruct (Hothers k Hk Hne) as [ek [j [Hek Hd']]].
    destruct (Hrd _ _ Hek) as [d [Hd En]]. exists d, j. split; [exact Hd|].
    destruct (Hst k Hk) as [e1 [He1 Hn]].
    rewrite Hd' in He1. inv He1. simpl in Hn. rewrite En in Hn.
    split; [exact Hn|]. intros Hb. eexists. split; [exact Hn|]. lia.
Qed.

Lemma update_queues_witness :
  exists output s',
    update sample_env busy_B (register ["A"; "B"]) = (Ok output, s') /\
    exists chosen,
      current_green s' = Some chosen /\
      (exists d cleared, last_reading chosen busy_B = Some d /\
         stored_normal s' chosen = Some (r_normal d - cleared) /\
         cleared <= r_normal d /\
         ((0 <= clearance_rate (register ["A"; "B"]))%Q ->
          (0 <= min_green (register ["A"; "B"]))%Q -> 0 <= r_normal d ->
          0 <= cleared)) /\
      (forall k, In k (lane_ids (register ["A"; "B"])) -> k <> chosen ->
         exists d j, last_reading k busy_B = Some d /\
           stored_normal s' k = Some (r_normal d + randint sample_env j) /\
           (0 <= randint sample_env j <= 3 ->
              exists n, stored_normal s' k = Some n /\
                        r_normal d <= n <= r_normal d + 3)).
Proof.
  eexists. eexists. split; [vm_compute; reflexivity|].
  eapply (@update_queues sample_env busy_B (register ["A"; "B"])).
  - vm_compute. reflexivity.
  - vm_compute. repeat constructor; simpl; intuition discriminate.
Defined.

(** ** What a decision depends on *)

Lemma merge_ext ls ls' lanes_data : forall acc,
  (forall k, option_map wait (Dict.get k ls') = option_map wait (Dict.get k ls)) ->
  merge ls' lanes_data acc = merge ls lanes_data acc.
Proof.
  intros acc H. revert acc. induction lanes_data as [|d rest IH]; intros acc; simpl; auto.
  specialize (H (lane_id d)). unfold item.
  destruct (Dict.get (lane_id d) ls') as [l'|], (Dict.get (lane_id d) ls) as [l|];
    simpl in H; try discriminate; auto.
  injection H as H. rewrite H. apply IH.
Qed.

Lemma build_scores_with_lanes L s data ids : forall acc,
  build_scores (with_lanes L s) data ids acc = build_scores s data ids acc.
Proof.
  induction ids as [|x ids IH]; intros acc; simpl; auto.
  destruct (item x data) as [e|]; simpl; auto.
  change (compute_score (with_lanes L s) e) with (compute_score s e).
  destruct (compute_score s e); auto.
Qed.

(** The choice of a lane does not read [lanes]. *)
Lemma choose_with_lanes env data L s :
  choose env data (with_lanes L s) =
  (fst (choose env data s), with_lanes L (snd (choose env data s))).
Proof.
  assert (N : _choose_normal_lane (with_lanes L s) data = _choose_normal_lane s data).
  { unfold _choose_normal_lane. simpl. now rewrite build_scores_with_lanes. }
  assert (W : forall s0, choose_without_emergency env data (with_lanes L s0) =
     (fst (choose_without_emergency env data s0),
      with_lanes L (snd (choose_without_emergency env data s0)))).
  { intros s0.
    assert (N0 : _choose_normal_lane (with_lanes L s0) data = _choose_normal_lane s0 data).
    { unfold _choose_normal_lane. simpl. now rewrite build_scores_with_lanes. }
    unfold choose_without_emergency. simpl. rewrite N0.
    destruct (current_green s0) as [g|]; [|reflexivity].
    destruct (green_started_at s0) as [t0|]; [|reflexivity].
    destruct (negb (g =? "")%string && negb (Qeq_bool t0 0)); [|reflexivity].
    destruct (Qltb (now_check env - t0) (current_green_time s0)); reflexivity. }
  assert (E : _choose_emergency_lane data (with_lanes L s) =
     (fst (_choose_emergency_lane data s),
      with_lanes L (snd (_choose_emergency_lane data s)))).
  { unfold _choose_emergency_lane, scan_start. simpl.
    destruct (emergencies_of data); [reflexivity|].
    match goal with |- context [match ?c with Ok _ => _ | Raise _ => _ end] =>
      destruct c end; reflexivity. }
  unfold choose, bind. rewrite E.
  destruct (_choose_emergency_lane data s) as [[[c|]|e] s0]; simpl.
  - destruct (negb (c =? "")%string); [reflexivity|apply W].
  - apply W.
  - reflexivity.
Qed.

Lemma loop_effect_waits chosen ids k : forall l1 l2,
  wait l1 = wait l2 ->
  wait (loop_effect (waits_step chosen) ids k l1)
  = wait (loop_effect (waits_step chosen) ids k l2).
Proof.
  induction ids as [|x ids IH]; intros l1 l2 H; simpl; auto.
  apply IH. destruct (String.eqb x k); auto.
  unfold waits_step. destruct (String.eqb x chosen); simpl; congruence.
Qed.

Lemma simulate_flow_finite s rand data chosen gt data' :
  _simulate_flow s rand data chosen gt = Ok data' ->
  finite_float (clearance_rate s * gt) = true.
Proof.
  unfold _simulate_flow. intros H.
  apply rbind_ok in H. destruct H as [e [_ H]]. cbv zeta in H.
  apply rbind_ok in H. destruct H as [units [Hu _]].
  unfold py_int in Hu. now destruct (finite_float _).
Qed.

(** The stored queue lengths, emergency counts and phases of the lanes have
    no part in a decision: when [update] returns on a well-formed
    controller whose readings name the registered lanes, it returns as well
    on a controller that differs in [lanes] only, with the same wait
    counters, chooses the same lane for the same green time and gives the
    same report. The queue lengths that [update] stores are only ever read
    back by the status request. *)
Theorem decision_ignores_stored_queues env lanes_data s t output s' :
  wf s -> readings_cover s lanes_data ->
  same_but_lanes s t ->
  (forall k, wait_of t k = wait_of s k) ->
  update env lanes_data s = (Ok output, s') ->
  exists output_t t',
    update env lanes_data t = (Ok output_t, t') /\
    current_green t' = current_green s' /\
    current_green_time t' = current_green_time s' /\
    (forall k, Dict.get k output_t = Dict.get k output).
Proof.
  intros Hwf Hcov Hst Hw Hup.
  assert (Hkeys : forall k, In k (Dict.keys (lanes t)) <-> In k (Dict.keys (lanes s))).
  { eapply keys_of_option_map. exact Hw. }
  assert (Hwft : wf t).
  { destruct Hwf as [A [B [C D]]]. rewrite Hst. unfold wf. simpl.
    split; [auto|split; [|auto]]. intros k. rewrite B. symmetry.
    rewrite Hst in Hkeys. exact (Hkeys k). }
  assert (Hcovt : readings_cover t lanes_data).
  { unfold readings_cover. rewrite Hst. exact Hcov. }
  assert (Hupt : exists out_t t', update env lanes_data t = (Ok out_t, t')).
  { destruct (update_inv _ _ _ Hup) as [data [c [gt St]]].
    destruct (update_report St) as [_ [_ [Hin _]]].
    destruct (update_stored St) as [_ [_ [_ [_ [Hgt [_ [Hm [e [He Hcalc]]]]]]]]].
    destruct St as [s1 s2 s3 e0 d' o0 _ Hch Hwt _ _ Hy Hfl Hsq _ _].
    apply simulate_flow_finite in Hfl.
    pose proof (store_queues_frame _ _ Hsq) as [F4 _].
    pose proof (apply_yellow_ok _ _ _ Hy) as [F3 _].
    pose proof (update_waits_ok _ _ Hwt) as [F2 _].
    pose proof (choose_frame _ _ _ Hch) as F1.
    assert (R3 : clearance_rate s3 = clearance_rate s).
    { rewrite F3. simpl. rewrite F2. simpl. rewrite F1. reflexivity. }
    assert (G3 : current_green_time s3 = gt).
    { rewrite <- Hgt, F4. reflexivity. }
    rewrite R3, G3 in Hfl.
    assert (P1 : merge (lanes t) lanes_data Dict.empty = Ok data).
    { rewrite (@merge_ext (lanes s) (lanes t)) by exact Hw. exact Hm. }
    assert (P2 : choose env data (with_lanes (lanes t) s)
                 = (Ok c, with_lanes (lanes t) s1)).
    { rewrite choose_with_lanes, Hch. reflexivity. }
    unfold same_but_lanes in Hst. rewrite <- Hst in P2.
    assert (P3 : In c (lane_ids t)) by (rewrite Hst; exact Hin).
    assert (P4 : _calculate_green_time t e = Ok gt).
    { rewrite (@calculate_green_time_config s t); [exact Hcalc|].
      rewrite Hst. unfold same_config. simpl. auto. }
    assert (P5 : finite_float (clearance_rate t * gt) = true).
    { rewrite Hst. exact Hfl. }
    destruct (@update_ok_steps env lanes_data t data c
                (with_lanes (lanes t) s1) e gt Hwft Hcovt P1 P2 P3 He P4 P5)
      as [o [t' [Ht _]]].
    eauto. }
  destruct Hupt as [out_t [t' Hupt]]. rename output into out.
  exists out_t, t'. split; [exact Hupt|].
  destruct (update_inv _ _ _ Hup) as [data [c [gt St]]].
  destruct (update_inv _ _ _ Hupt) as [data_t [c_t [gt_t Stt]]].
  destruct (update_report St) as [_ [Hcg [Hin [Hrep Hnone]]]].
  destruct (update_report Stt) as [_ [Hcgt [_ [Hrept Hnonet]]]].
  destruct (update_stored St) as [Hg [Hr [Hws [_ [Hgt [_ [Hm [e [He Hcalc]]]]]]]]].
  destruct (update_stored Stt) as [Hg' [Hr' [Hws' [_ [Hgt' [_ [Hm' [e' [He' Hcalc']]]]]]]]].
  assert (Ed : data_t = data).
  { rewrite (@merge_ext (lanes s) (lanes t)) in Hm' by exact Hw. congruence. }
  subst data_t.
  assert (Ec : c_t = c).
  { destruct St as [s1 ? ? ? ? ? _ Hch _ _ _ _ _ _ _ _].
    destruct Stt as [t1 ? ? ? ? ? _ Hcht _ _ _ _ _ _ _ _].
    rewrite Hst, choose_with_lanes, Hch in Hcht. simpl in Hcht. now inv Hcht. }
  subst c_t.
  assert (Eg : gt_t = gt).
  { rewrite He in He'. inv He'.
    rewrite (@calculate_green_time_config s t) in Hcalc'; [congruence|].
    rewrite Hst. unfold same_config. simpl. auto. }
  assert (Ids : lane_ids t = lane_ids s) by (rewrite Hst; reflexivity).
  split; [congruence|split; [congruence|]].
  intros k. destruct (in_dec string_dec k (lane_ids s)) as [Hk|Hk].
  - destruct (Hrep k Hk) as [l [Hl Ho]].
    destruct (Hrept k) as [l' [Hl' Ho']]; [now rewrite Ids|].
    rewrite Ho, Ho'.
    assert (Es : state l' = state l).
    { destruct (string_dec k c) as [->|Hne].
      - unfold phase_of in Hg, Hg'. rewrite Hl in Hg. rewrite Hl' in Hg'.
        simpl in *. congruence.
      - specialize (Hr k Hk Hne). rewrite <- Ids in Hk. specialize (Hr' k Hk Hne).
        unfold phase_of in Hr, Hr'. rewrite Hl in Hr. rewrite Hl' in Hr'.
        simpl in *. congruence. }
    assert (Ew : wait l' = wait l).
    { specialize (Hws k). specialize (Hws' k). specialize (Hw k).
      unfold wait_of in *. rewrite Hl in Hws. rewrite Hl' in Hws'. rewrite Ids in Hws'.
      destruct (Dict.get k (lanes s)) as [a|], (Dict.get k (lanes t)) as [b|];
        simpl in *; try discriminate.
      inv Hws. inv Hws'. inv Hw.
      rewrite H0, H1. now apply loop_effect_waits. }
    rewrite Es, Ew. do 2 f_equal. destruct (String.eqb k c); congruence.
  - rewrite (Hnone k Hk). apply Hnonet. now rewrite Ids.
Qed.

Lemma decision_ignores_stored_queues_witness :
  exists output s',
    update sample_env idle_readings (init_default 4) = (Ok output, s') /\
    exists output_t t',
      update sample_env idle_readings scrambled_lanes = (Ok output_t, t') /\
      current_green t' = current_green s' /\
      current_green_time t' = current_green_time s' /\
      (forall k, Dict.get k output_t = Dict.get k output).
Proof.
  eexists. eexists. split; [vm_compute; reflexivity|].
  eapply (@decision_ignores_stored_queues sample_env idle_readings
            (init_default 4) scrambled_lanes).
  5:{ vm_compute. reflexivity. }
  - apply init_wf; [lia | vm_compute; discriminate].
  - intros k. vm_compute. tauto.
  - reflexivity.
  - intros k.
    destruct (string_dec k "Lane_1") as [->|N1]; [reflexivity|].
    destruct (string_dec k "Lane_2") as [->|N2]; [reflexivity|].
    destruct (string_dec k "Lane_3") as [->|N3]; [reflexivity|].
    destruct (string_dec k "Lane_4") as [->|N4]; [reflexivity|].
    apply String.eqb_neq in N1, N2, N3, N4.
    unfold wait_of.
    replace (lanes (init_default 4))
      with [("Lane_1", fresh_lane); ("Lane_2", fresh_lane);
            ("Lane_3", fresh_lane); ("Lane_4", fresh_lane)]
      by (vm_compute; reflexivity).
    simpl. now rewrite N1, N2, N3, N4.
Defined.

(** ** The round robin among emergency lanes *)

Lemma nodup_split_unique (x : string) : forall p1 q1 p2 q2,
  NoDup (p1 ++ x :: q1) -> (p1 ++ x :: q1 = p2 ++ x :: q2)%list -> p1 = p2.
Proof.
  induction p1 as [|a p1 IH]; intros q1 p2 q2 Hnd E.
  - destruct p2 as [|b p2]; auto. simpl in *. inv E.
    inv Hnd. exfalso. apply H1. apply in_or_app. right. now left.
  - destruct p2 as [|b p2]; simpl in *.
    + inv E. inv Hnd. exfalso. apply H1. apply in_or_app. right. now left.
    + inv E. inv Hnd. f_equal. eapply IH; eauto.
Qed.

Lemma nodup_rotate n (l : list string) : NoDup l -> NoDup (rotate n l).
Proof.
  intros H. unfold rotate.
  eapply Permutation_NoDup; [|exact H].
  rewrite <- (firstn_skipn n l) at 1. apply Permutation_app_comm.
Qed.

(** The lane chosen by a call with an emergency, for readings without an
    empty lane id. *)
Lemma update_emergency_choice env lanes_data s output s' data :
  update env lanes_data s = (Ok output, s') ->
  snapshot s lanes_data = Ok data ->
  (exists k, In k (Dict.keys data) /\ 0 < emergency_at data k) ->
  (forall d, In d lanes_data -> lane_id d <> "") ->
  exists chosen,
    current_green s' = Some chosen /\
    In chosen (lane_ids s) /\
    In chosen (Dict.keys data) /\
    (forall k, In k (Dict.keys data) -> emergency_at data k <= emergency_at data chosen) /\
    first_such (tied_at data (emergency_at data chosen)) (scan_order s) chosen.
Proof.
  intros Hup Hsnap [k0 [Hk0 Hpos0]] Hnamed.
  destruct (update_inv _ _ _ Hup) as [data' [chosen [gt Hsteps]]].
  destruct (update_report Hsteps) as [_ [Hcg [Hin _]]].
  exists chosen. split; [exact Hcg|]. split; [exact Hin|].
  destruct Hsteps as [s1 s2 s3 e d' out0 Hmerge Hchoose _ _ _ _ _ _ _ _].
  unfold snapshot in Hsnap. rewrite Hsnap in Hmerge. inv Hmerge.
  destruct (choose_emergency_lane_ok data' s) as [[He _]|[c [Hc [Hck [Hcpos Hcmax]]]]].
  - exfalso. assert (Hi : In k0 (emergencies_of data')).
    { unfold emergencies_of. apply filter_In. split; auto. now apply Z.ltb_lt. }
    rewrite He in Hi. destruct Hi.
  - assert (Hne : c <> "").
    { apply (merge_keys _ _ _ Hsnap) in Hck. destruct Hck as [[]|Hck].
      apply in_map_iff in Hck. destruct Hck as [d [<- Hd]]. now apply Hnamed. }
    unfold choose in Hchoose. erewrite bind_eq in Hchoose by exact Hc.
    cbv beta iota in Hchoose.
    assert (T : truthy_lane (Some c) = true).
    { simpl. apply negb_true_iff. now apply String.eqb_neq. }
    rewrite T in Hchoose. unfold ret in Hchoose. inv Hchoose.
    split; [auto|split; [auto|]].
    eapply choose_emergency_lane_scan; eauto.
Qed.

(** The round robin moves on: with distinct registered lane ids and
    readings without an empty lane id, when a registered lane other than
    the remembered last emergency lane has the greatest emergency count of
    the snapshot (alone or tied), the remembered lane is not served
    again. *)
Theorem emergency_round_robin_moves_on env lanes_data s output s' data c t :
  update env lanes_data s = (Ok output, s') ->
  snapshot s lanes_data = Ok data ->
  (forall d, In d lanes_data -> lane_id d <> "") ->
  NoDup (lane_ids s) ->
  last_emergency_lane s = Some c ->
  t <> c -> In t (lane_ids s) -> In t (Dict.keys data) ->
  0 < emergency_at data t ->
  (forall k, In k (Dict.keys data) -> emergency_at data k <= emergency_at data t) ->
  current_green s' <> Some c.
Proof.
  intros Hup Hsnap Hnamed Hnd Hlast Hne Ht Htk Hpos Hmax Hcg.
  destruct (update_emergency_choice _ _ _ Hup Hsnap) as
    [chosen [Hcg' [Hin [Hck [Hcmax [pre [post [Hl [_ Hpre]]]]]]]]]; eauto.
  assert (chosen = c) by congruence. subst chosen.
  destruct (in_split_first _ _ Hin) as [a [b [Hids Hna]]].
  rewrite (scan_order_after_last _ _ _ Hlast Hids Hna) in Hl.
  assert (Hnd' : NoDup ((b ++ a) ++ c :: [])).
  { rewrite <- app_assoc. rewrite <- (scan_order_after_last _ _ _ Hlast Hids Hna).
    now apply nodup_rotate. }
  assert (Hp : (b ++ a)%list = pre).
  { eapply nodup_split_unique; [exact Hnd'|]. rewrite <- app_assoc. exact Hl. }
  apply (Hpre t).
  - rewrite <- Hp. rewrite Hids in Ht. apply in_app_or in Ht.
    apply in_or_app. destruct Ht as [Ht|[Ht|Ht]]; auto. congruence.
  - split; auto. specialize (Hcmax t Htk). specialize (Hmax c Hck). lia.
Qed.

Lemma emergency_round_robin_moves_on_witness :
  let s := snd (update sample_env tied_emergencies (register ["A"; "B"])) in
  last_emergency_lane s = Some "A" /\
  exists output s',
    update (mkEnv 2 2 (fun _ => 0)) tied_emergencies s = (Ok output, s') /\
    current_green s' <> Some "A".
Proof.
  intros s. split; [reflexivity|].
  eexists. eexists. split; [vm_compute; reflexivity|].
  eapply (@emergency_round_robin_moves_on (mkEnv 2 2 (fun _ => 0)) tied_emergencies s
            _ _ [("A", mkEntry 0 2 0); ("B", mkEntry 0 2 1)] "A" "B").
  - vm_compute. reflexivity.
  - vm_compute. reflexivity.
  - intros d [<-|[<-|[]]]; discriminate.
  - vm_compute. repeat constructor; simpl; intuition discriminate.
  - reflexivity.
  - discriminate.
  - vm_compute. auto.
  - simpl. auto.
  - reflexivity.
  - intros k [<-|[<-|[]]]; vm_compute; discriminate.
Defined.

(** ** The report *)

(** The report of a call that returns has exactly one entry with a green
    time, that of the chosen lane; the time is the stored one, and it lies
    between [min_green] and [max_green] when these are ordered. Every other
    registered lane has an entry without green time, and no other key has
    an entry. *)
Theorem report_green_time_for_chosen_only env lanes_data s output s' :
  update env lanes_data s = (Ok output, s') ->
  exists chosen,
    current_green s' = Some chosen /\
    option_map rep_green_time (Dict.get chosen output)
      = Some (Some (current_green_time s')) /\
    (forall k, k <> chosen -> In k (lane_ids s) ->
       option_map rep_green_time (Dict.get k output) = Some None) /\
    (forall k, ~ In k (lane_ids s) -> Dict.get k output = None) /\
    ((min_green s <= max_green s)%Q ->
       (min_green s <= current_green_time s')%Q /\
       (current_green_time s' <= max_green s)%Q).
Proof.
  intros Hup.
  destruct (update_inv _ _ _ Hup) as [data [chosen [gt Hsteps]]].
  destruct (update_report Hsteps) as [_ [Hcg [Hin [Hrep Hnone]]]].
  destruct (update_stored Hsteps) as [_ [_ [_ [_ [Hgt [_ [_ [e [_ Hcalc]]]]]]]]].
  exists chosen. split; [exact Hcg|split; [|split; [|split; [exact Hnone|]]]].
  - destruct (Hrep chosen Hin) as [l [_ Ho]]. rewrite Ho. simpl.
    now rewrite String.eqb_refl.
  - intros k Hne Hk. destruct (Hrep k Hk) as [l [_ Ho]]. rewrite Ho. simpl.
    apply String.eqb_neq in Hne. now rewrite Hne.
  - intros Hle. rewrite Hgt.
    apply calculate_green_time_value in Hcalc. destruct Hcalc as [-> _].
    rewrite py_max_Qmax, py_min_Qmin. split.
    + apply Q.le_max_l.
    + apply Q.max_lub; [exact Hle | apply Q.le_min_r].
Qed.

Lemma report_green_time_for_chosen_only_witness :
  exists output s',
    update sample_env busy_B (register ["A"; "B"]) = (Ok output, s') /\
    exists chosen,
      current_green s' = Some chosen /\
      option_map rep_green_time (Dict.get chosen output)
        = Some (Some (current_green_time s')) /\
      (forall k, k <> chosen -> In k (lane_ids (register ["A"; "B"])) ->
         option_map rep_green_time (Dict.get k output) = Some None) /\
      (forall k, ~ In k (lane_ids (register ["A"; "B"])) -> Dict.get k output = None) /\
      ((min_green (register ["A"; "B"]) <= max_green (register ["A"; "B"]))%Q ->
         (min_green (register ["A"; "B"]) <= current_green_time s')%Q /\
         (current_green_time s' <= max_green (register ["A"; "B"]))%Q).
Proof.
  eexists. eexists. split; [vm_compute; reflexivity|].
  apply (@report_green_time_for_chosen_only sample_env busy_B (register ["A"; "B"])).
  vm_compute. reflexivity.
Defined.

(** ** Readings of unknown lanes *)

Lemma merge_unknown ls lanes_data : forall acc,
  (exists d, In d lanes_data /\ ~ In (lane_id d) (Dict.keys ls)) ->
  exists pre d post,
    lanes_data = (pre ++ d :: post)%list /\
    (forall x, In x pre -> In (lane_id x) (Dict.keys ls)) /\
    ~ In (lane_id d) (Dict.keys ls) /\
    merge ls lanes_data acc = Raise (KeyError (lane_id d)).
Proof.
  induction lanes_data as [|d0 rest IH]; intros acc [d [Hd Hn]]; [destruct Hd|].
  simpl. unfold item. destruct (Dict.get (lane_id d0) ls) as [l|] eqn:E.
  - assert (Hk : In (lane_id d0) (Dict.keys ls)) by (apply get_some_in_keys; eauto).
    destruct Hd as [->|Hd]; [contradiction|].
    destruct (IH (Dict.set (lane_id d0)
                    (mkEntry (r_normal d0) (r_emergency d0) (wait l)) acc))
      as [pre [d1 [post [H0 [H1 [H2 H3]]]]]]; [eauto|].
    exists (d0 :: pre), d1, post. split; [now rewrite H0|].
    split; [|auto]. intros x [<-|Hx]; auto.
  - exists [], d0, rest. split; [reflexivity|]. split; [intros x []|].
    split; auto. now apply get_none_not_in_keys.
Qed.

(** A call whose readings name a lane without entry in [lanes] raises
    [KeyError] for the first such lane of the readings while it builds the
    snapshot, before anything is decided: the controller is left exactly as
    it was. *)
Theorem update_rejects_unknown_lane env lanes_data s :
  (exists d, In d lanes_data /\ ~ In (lane_id d) (Dict.keys (lanes s))) ->
  exists pre d post,
    lanes_data = (pre ++ d :: post)%list /\
    (forall x, In x pre -> In (lane_id x) (Dict.keys (lanes s))) /\
    ~ In (lane_id d) (Dict.keys (lanes s)) /\
    update env lanes_data s = (Raise (KeyError (lane_id d)), s).
Proof.
  intros H.
  destruct (@merge_unknown (lanes s) lanes_data Dict.empty H)
    as [pre [d [post [H0 [H1 [H2 H3]]]]]].
  exists pre, d, post. split; [auto|split; [auto|split; [auto|]]].
  unfold update. erewrite bind_eq by reflexivity.
  unfold bind, lift. now rewrite H3.
Qed.

Lemma update_rejects_unknown_lane_witness :
  exists pre d post,
    [mkReading "Lane_1" 1 0; mkReading "Lane_9" 0 5; mkReading "Lane_7" 0 0]
      = (pre ++ d :: post)%list /\
    (forall x, In x pre -> In (lane_id x) (Dict.keys (lanes (init_default 4)))) /\
    ~ In (lane_id d) (Dict.keys (lanes (init_default 4))) /\
    update sample_env
      [mkReading "Lane_1" 1 0; mkReading "Lane_9" 0 5; mkReading "Lane_7" 0 0]
      (init_default 4)
    = (Raise (KeyError (lane_id d)), init_default 4).
Proof.
  apply (@update_rejects_unknown_lane sample_env
           [mkReading "Lane_1" 1 0; mkReading "Lane_9" 0 5; mkReading "Lane_7" 0 0]
           (init_default 4)).
  exists (mkReading "Lane_9" 0 5). split; [right; now left|].
  vm_compute. intuition discriminate.
Defined.

(** ** The request handler and the lane set *)

Lemma set_neq_same a b : (forall k, In k a <-> In k b) -> set_neq a b = false.
Proof.
  intros H. unfold set_neq. rewrite negb_false_iff, andb_true_iff, !forallb_forall.
  split; intros x Hx; apply str_in_In; now apply H.
Qed.

Lemma set_neq_differ a b : ~ (forall k, In k a <-> In k b) -> set_neq a b = true.
Proof.
  intros H. destruct (set_neq a b) eqn:E; auto.
  exfalso. apply H. now apply set_neq_false.
Qed.

Lemma update_signal_fresh env input_data srv :
  controller srv = None \/ set_neq (map lane_id input_data) (current_lanes srv) = true ->
  update_signal env input_data srv =
  (fst (update env input_data (register (map lane_id input_data))),
   mkServer (Some (snd (update env input_data (register (map lane_id input_data)))))
     (map lane_id input_data)).
Proof.
  intros H. unfold update_signal.
  assert (E : match controller srv with
              | None => mkServer (Some (register (map lane_id input_data)))
                          (map lane_id input_data)
              | Some _ =>
                  if set_neq (map lane_id input_data) (current_lanes srv)
                  then mkServer (Some (register (map lane_id input_data)))
                         (map lane_id input_data)
                  else srv
              end
              = mkServer (Some (register (map lane_id input_data)))
                  (map lane_id input_data)).
  { destruct (controller srv); [|reflexivity].
    destruct H as [H|H]; [discriminate|now rewrite H]. }
  rewrite E. simpl.
  now destruct (update env input_data (register (map lane_id input_data))).
Qed.

Lemma update_signal_kept env input_data srv c :
  controller srv = Some c ->
  set_neq (map lane_id input_data) (current_lanes srv) = false ->
  update_signal env input_data srv =
  (fst (update env input_data c),
   mkServer (Some (snd (update env input_data c))) (current_lanes srv)).
Proof.
  intros Hc Hs. unfold update_signal. rewrite Hc, Hs, Hc.
  now destruct (update env input_data c).
Qed.

(** The handler compares the lane ids of the request with those of the
    previous one as sets. A request naming the same set of lanes, in any
    order and with any repetition, is served by the controller in place,
    which keeps its registration order; a request whose set of lanes
    differs is served by a new controller, exactly as on a server that has
    served no request: waits, green lane and round-robin memory are
    forgotten. *)
Theorem update_signal_lane_set env input_data srv c :
  controller srv = Some c ->
  ((forall k, In k (map lane_id input_data) <-> In k (current_lanes srv)) ->
   exists r c',
     update env input_data c = (r, c') /\
     update_signal env input_data srv = (r, mkServer (Some c') (current_lanes srv)) /\
     lane_ids c' = lane_ids c) /\
  (~ (forall k, In k (map lane_id input_data) <-> In k (current_lanes srv)) ->
   update_signal env input_data srv = update_signal env input_data server0).
Proof.
  intros Hc. split.
  - intros Hsame. apply set_neq_same in Hsame.
    exists (fst (update env input_data c)), (snd (update env input_data c)).
    split; [apply surjective_pairing|split].
    + now apply update_signal_kept.
    + assert (U : untouched c (snd (update env input_data c))).
      { eapply update_untouched. apply surjective_pairing. }
      apply U.
  - intros Hdiff. apply set_neq_differ in Hdiff.
    rewrite !update_signal_fresh; auto.
Qed.

Lemma update_signal_lane_set_witness :
  (exists r c',
     update sample_env [mkReading "B" 5 0; mkReading "A" 0 0] (register ["A"; "B"])
       = (r, c') /\
     update_signal sample_env [mkReading "B" 5 0; mkReading "A" 0 0] two_lane_server
       = (r, mkServer (Some c') ["A"; "B"]) /\
     lane_ids c' = ["A"; "B"]) /\
  update_signal sample_env [mkReading "B" 5 0; mkReading "C" 0 0] two_lane_server
  = update_signal sample_env [mkReading "B" 5 0; mkReading "C" 0 0] server0.
Proof.
  split.
  - apply (proj1 (@update_signal_lane_set sample_env
                    [mkReading "B" 5 0; mkReading "A" 0 0] two_lane_server
                    (register ["A"; "B"]) eq_refl)).
    intros k. simpl. tauto.
  - apply (proj2 (@update_signal_lane_set sample_env
                    [mkReading "B" 5 0; mkReading "C" 0 0] two_lane_server
                    (register ["A"; "B"]) eq_refl)).
    intros H. destruct (proj1 (H "C")) as [E|[E|[]]]; [simpl; tauto| |]; discriminate.
Defined.

(** ** The empty request *)

Lemma update_no_lanes env s :
  lane_ids s = [] -> current_green s = None ->
  update env [] s = (Raise ValueError, s).
Proof.
  intros Hids Hnone. unfold update.
  erewrite bind_eq by reflexivity.
  erewrite bind_eq by reflexivity.
  unfold bind, choose, bind, _choose_emergency_lane. simpl.
  unfold choose_without_emergency. rewrite Hnone.
  unfold _choose_normal_lane. rewrite Hids. reflexivity.
Qed.

Lemma update_signal_empty env srv :
  server_ok srv -> update_signal env [] srv = (Raise ValueError, emptied_server).
Proof.
  intros Hok. rewrite update_signal_fresh.
  - simpl map. rewrite update_no_lanes by reflexivity. reflexivity.
  - unfold server_ok in Hok. destruct (controller srv) as [c|]; [right|now left].
    destruct Hok as [[Hne _] Hcur]. simpl. apply set_neq_differ.
    intros H. destruct (lane_ids c) as [|x l] eqn:E; [congruence|].
    apply (proj2 (H x)). rewrite Hcur. now left.
Qed.

Lemma emptied_server_fresh env input_data :
  update_signal env input_data emptied_server = update_signal env input_data server0.
Proof.
  destruct input_data as [|d rest].
  - rewrite (@update_signal_kept env [] emptied_server (register [])) by reflexivity.
    rewrite (@update_signal_fresh env [] server0) by now left.
    reflexivity.
  - rewrite !update_signal_fresh; auto; right; reflexivity.
Qed.

(** A request with an empty body, sent to a server that holds nothing or a
    well-formed controller, fails with [ValueError] and replaces the
    controller by one without lanes: [get_status] is empty afterwards, and
    every later request is served as on a server that has served none. *)
Theorem update_signal_empty_request env srv :
  server_ok srv ->
  update_signal env [] srv = (Raise ValueError, emptied_server) /\
  get_status emptied_server = Dict.empty /\
  forall env' input_data,
    update_signal env' input_data emptied_server
    = update_signal env' input_data server0.
Proof.
  intros Hok. split; [now apply update_signal_empty|split; [reflexivity|]].
  intros env' input_data. apply emptied_server_fresh.
Qed.

Lemma update_signal_empty_request_witness :
  update_signal sample_env [] two_lane_server = (Raise ValueError, emptied_server) /\
  get_status emptied_server = Dict.empty /\
  forall env' input_data,
    update_signal env' input_data emptied_server
    = update_signal env' input_data server0.
Proof.
  apply (@update_signal_empty_request sample_env two_lane_server).
  split; [apply register_wf; discriminate | reflexivity].
Defined.

(** ** The report and [get_status] *)

(** A call that returns keeps the controller well-formed. *)
Lemma update_keeps_wf env lanes_data s output s' :
  wf s -> update env lanes_data s = (Ok output, s') -> wf s'.
Proof.
  intros [Hne [Hkeys [_ Hrate]]] Hup.
  destruct (@update_untouched _ _ _ _ _ Hup) as [Hids [[_ [_ [_ [_ [_ [_ Hcr]]]]]] [Hk _]]].
  destruct (update_inv _ _ _ Hup) as [data [chosen [gt Hsteps]]].
  destruct (update_report Hsteps) as [_ [Hcg [Hin _]]].
  split; [now rewrite Hids|split; [|split]].
  - intros k. rewrite Hids, Hk. apply Hkeys.
  - intros g Hg. rewrite Hcg in Hg. injection Hg as <-. now rewrite Hids.
  - now rewrite Hcr.
Qed.

Lemma update_signal_ok_inv env input_data srv output srv' :
  server_ok srv -> update_signal env input_data srv = (Ok output, srv') ->
  exists c c',
    wf c /\ readings_cover c input_data /\
    update env input_data c = (Ok output, c') /\ wf c' /\
    srv' = mkServer (Some c') (lane_ids c).
Proof.
  intros Hok H.
  assert (G : forall c, wf c -> readings_cover c input_data ->
    update_signal env input_data srv =
      (fst (update env input_data c),
       mkServer (Some (snd (update env input_data c))) (lane_ids c)) ->
    exists c c',
      wf c /\ readings_cover c input_data /\
      update env input_data c = (Ok output, c') /\ wf c' /\
      srv' = mkServer (Some c') (lane_ids c)).
  { intros c Hwf Hcov E. rewrite E in H.
    destruct (update env input_data c) as [r c'] eqn:Hup.
    simpl in H. injection H as -> <-.
    exists c, c'. split; [auto|split; [auto|split; [auto|split; [|auto]]]].
    eapply update_keeps_wf; eauto. }
  destruct input_data as [|d rest].
  { rewrite update_signal_empty in H by assumption. discriminate. }
  set (input_data := d :: rest) in *.
  assert (Hreg : forall E : controller srv = None \/
                   set_neq (map lane_id input_data) (current_lanes srv) = true,
    exists c c',
      wf c /\ readings_cover c input_data /\
      update env input_data c = (Ok output, c') /\ wf c' /\
      srv' = mkServer (Some c') (lane_ids c)).
  { intros E. apply (G (register (map lane_id input_data))).
    - apply register_wf. discriminate.
    - intros k. reflexivity.
    - now apply update_signal_fresh. }
  unfold server_ok in Hok. destruct (controller srv) as [c|] eqn:Ec.
  - destruct Hok as [Hwf Hcur].
    destruct (set_neq (map lane_id input_data) (current_lanes srv)) eqn:Es.
    + apply Hreg. now right.
    + apply (G c Hwf).
      * intros k. rewrite <- Hcur. now apply set_neq_false.
      * rewrite <- Hcur. now apply update_signal_kept.
  - apply Hreg. now left.
Qed.

(** When [update_signal] returns a report, the report and the answer of
    [get_status] right after describe the same lanes: both have an entry
    for exactly the lanes of the request, and the phase and the wait of a
    lane in the report are those stored with the lane. *)
Theorem status_agrees_with_report env input_data srv output srv' :
  server_ok srv ->
  update_signal env input_data srv = (Ok output, srv') ->
  (forall k, In k (map lane_id input_data) <-> Dict.get k output <> None) /\
  (forall k, In k (map lane_id input_data) <-> Dict.get k (get_status srv') <> None) /\
  (forall k e, Dict.get k output = Some e ->
     exists l, Dict.get k (get_status srv') = Some l /\
               rep_state e = state l /\ rep_wait e = wait l).
Proof.
  intros Hok H.
  destruct (@update_signal_ok_inv _ _ _ _ _ Hok H) as [c [c' [Hwf [Hcov [Hup [Hwf' ->]]]]]].
  destruct (update_inv _ _ _ Hup) as [data [chosen [gt Hsteps]]].
  destruct (update_report Hsteps) as [Hids [_ [_ [Hrep Hnone]]]].
  unfold readings_cover in Hcov. unfold get_status. simpl.
  assert (Hout : forall k, In k (lane_ids c) <-> Dict.get k output <> None).
  { intros k. split.
    - intros Hk. destruct (Hrep k Hk) as [l [_ Ho]]. congruence.
    - intros Hk. destruct (in_dec string_dec k (lane_ids c)) as [Hi|Hn]; auto.
      elim Hk. now apply Hnone. }
  split; [|split].
  - intros k. now rewrite Hcov.
  - intros k. rewrite Hcov, <- Hids.
    destruct Hwf' as [_ [Hkeys _]]. rewrite Hkeys, <- get_some_in_keys.
    destruct (Dict.get k (lanes c')); split; try congruence; eauto.
    intros [v Hv]. discriminate.
  - intros k e He.
    assert (Hk : In k (lane_ids c)) by (apply Hout; congruence).
    destruct (Hrep k Hk) as [l [Hl Ho]]. exists l. split; [exact Hl|].
    rewrite Ho in He. injection He as <-. auto.
Qed.

Lemma status_agrees_with_report_witness :
  exists output srv',
    update_signal sample_env busy_B server0 = (Ok output, srv') /\
    (forall k, In k (map lane_id busy_B) <-> Dict.get k output <> None) /\
    (forall k, In k (map lane_id busy_B) <-> Dict.get k (get_status srv') <> None) /\
    (forall k e, Dict.get k output = Some e ->
       exists l, Dict.get k (get_status srv') = Some l /\
                 rep_state e = state l /\ rep_wait e = wait l).
Proof.
  eexists. eexists. split; [vm_compute; reflexivity|].
  apply (@status_agrees_with_report sample_env busy_B server0).
  - exact I.
  - vm_compute. reflexivity.
Defined.

(** ** The green time grows with the load *)

Lemma base_time_monotone s e e' :
  (0 < clearance_rate s)%Q ->
  d_normal e <= d_normal e' -> d_wait e <= d_wait e' ->
  d_emergency e <= d_emergency e' ->
  (base_time s e <= base_time s e')%Q.
Proof.
  intros Hc Hn Hw He. unfold base_time. cbv zeta.
  repeat apply Qplus_le_compat.
  - unfold Qdiv. apply Qmult_le_compat_r.
    + now rewrite <- Zle_Qle.
    + apply Qlt_le_weak. now apply Qinv_lt_0_compat.
  - apply Qmult_le_compat_r; [now rewrite <- Zle_Qle | discriminate].
  - apply Qmult_le_compat_r; [now rewrite <- Zle_Qle | discriminate].
Qed.

(** With a positive clearance rate the green time never shrinks when the
    load grows: when the estimator returns for two lanes, the one with at
    least as many vehicles, at least as long a wait and at least as many
    emergency vehicles gets at least as long a green, whatever the bounds
    [min_green] and [max_green]. *)
Theorem green_time_monotone s e e' gt gt' :
  (0 < clearance_rate s)%Q ->
  d_normal e <= d_normal e' -> d_wait e <= d_wait e' ->
  d_emergency e <= d_emergency e' ->
  _calculate_green_time s e = Ok gt ->
  _calculate_green_time s e' = Ok gt' ->
  (gt <= gt')%Q.
Proof.
  intros Hc Hn Hw He H H'.
  apply calculate_green_time_value in H. destruct H as [-> _].
  apply calculate_green_time_value in H'. destruct H' as [-> _].
  rewrite !py_max_Qmax, !py_min_Qmin.
  apply Q.max_le_compat_l, Q.min_le_compat_r.
  now apply base_time_monotone.
Qed.

Lemma green_time_monotone_witness :
  exists gt gt',
    _calculate_green_time (init_default 4) (mkEntry 10 0 0) = Ok gt /\
    _calculate_green_time (init_default 4) (mkEntry 12 0 3) = Ok gt' /\
    (gt <= gt')%Q.
Proof.
  eexists. eexists. split; [vm_compute; reflexivity|].
  split; [vm_compute; reflexivity|].
  apply (@green_time_monotone (init_default 4) (mkEntry 10 0 0) (mkEntry 12 0 3)).
  - reflexivity.
  - simpl. lia.
  - simpl. lia.
  - simpl. lia.
  - vm_compute. reflexivity.
  - vm_compute. reflexivity.
Defined.

(** ** From detections to the report *)

Lemma first_occurrences_in ids : forall seen y,
  In y (first_occurrences seen ids) -> In y ids.
Proof.
  induction ids as [|x ids IH]; intros seen y; simpl; [tauto|].
  destruct (str_in x seen).
  - intros H. right. now apply (IH seen).
  - intros [H|H]; [now left|]. right. now apply (IH (x :: seen)).
Qed.

Lemma first_occurrences_iff ids y :
  In y (first_occurrences [] ids) <-> In y ids.
Proof.
  split; [apply first_occurrences_in|].
  intros H. destruct (in_first_occurrences ids [] y H) as [G|[]]. exact G.
Qed.

Section PipelineFacts.
Import ModelApi.

Variable classify : list Q -> result string.
Variable crop_pipeline : string -> result (list Q).

Lemma count_detection_keys acc d :
  Dict.keys (count_detection classify crop_pipeline acc d) =
  match det_lane_id d with
  | Some l => if str_in l (Dict.keys acc) then Dict.keys acc
              else (Dict.keys acc ++ [l])%list
  | None => Dict.keys acc
  end.
Proof.
  unfold count_detection. destruct (det_lane_id d) as [l|]; [|reflexivity].
  set (acc' := if Dict.mem l acc then acc else Dict.set l (mkCounts 0 0) acc).
  assert (Hk : Dict.keys acc' =
               (if str_in l (Dict.keys acc) then Dict.keys acc
                else (Dict.keys acc ++ [l])%list) /\ In l (Dict.keys acc')).
  { unfold acc', Dict.mem. destruct (Dict.get l acc) as [c|] eqn:E.
    - assert (Hi : In l (Dict.keys acc)) by (apply get_some_in_keys; eauto).
      pose proof (proj2 (str_in_In l (Dict.keys acc)) Hi) as Hs.
      rewrite Hs. auto.
    - apply get_none_not_in_keys in E.
      destruct (str_in l (Dict.keys acc)) eqn:Hs;
        [apply str_in_In in Hs; contradiction|].
      rewrite keys_set_absent by assumption. split; auto.
      apply in_or_app. right. now left. }
  destruct Hk as [Hk Hi].
  assert (G : forall f, Dict.keys (bump f l acc') = Dict.keys acc').
  { intros f. unfold bump. destruct (Dict.get l acc'); auto.
    now apply keys_set_present. }
  destruct (counts_as_emergency classify crop_pipeline d); rewrite G; exact Hk.
Qed.

Lemma fold_count_detection_keys dets : forall acc,
  Dict.keys (fold_left (count_detection classify crop_pipeline) dets acc) =
  (Dict.keys acc ++ first_occurrences (Dict.keys acc) (detection_lanes dets))%list.
Proof.
  induction dets as [|d ds IH]; intros acc; simpl; [now rewrite app_nil_r|].
  rewrite IH, count_detection_keys. unfold detection_lanes. simpl.
  destruct (det_lane_id d) as [l|]; simpl; [|reflexivity].
  destruct (str_in l (Dict.keys acc)); [reflexivity|].
  rewrite <- app_assoc. simpl. do 2 f_equal.
  apply first_occurrences_ext. intros y. rewrite in_app_iff. simpl. tauto.
Qed.

(** The lanes of the readings [aggregate_counts] returns. *)
Lemma aggregate_counts_lanes dets :
  map lane_id (aggregate_counts classify crop_pipeline dets)
  = first_occurrences [] (detection_lanes dets).
Proof.
  unfold aggregate_counts. rewrite map_map. simpl.
  apply (fold_count_detection_keys dets Dict.empty).
Qed.

(** The readings [aggregate_counts] returns, lane by lane. *)
Lemma aggregate_counts_in dets lane n e :
  In (mkReading lane n e) (aggregate_counts classify crop_pipeline dets) <->
  0 < count_in_lane (fun _ => true) lane dets /\
  n = count_in_lane (fun d => negb (counts_as_emergency classify crop_pipeline d))
        lane dets /\
  e = count_in_lane (counts_as_emergency classify crop_pipeline) lane dets.
Proof.
  unfold aggregate_counts.
  set (counts := fold_left (count_detection classify crop_pipeline) dets Dict.empty).
  assert (Hnd : NoDup (Dict.keys counts)).
  { apply fold_step_keys. constructor. }
  rewrite in_map_iff.
  pose proof (counts_after_loop classify crop_pipeline dets Dict.empty lane) as G.
  fold counts in G. simpl in G.
  pose proof (count_in_lane_nonneg (fun _ => true) lane dets) as Hall.
  split.
  - intros [[k c] [Hr Hin]]. simpl in Hr. inv Hr.
    apply in_dict_get in Hin; auto. rewrite Hin in G.
    destruct (count_in_lane (fun _ => true) lane dets =? 0) eqn:E;
      [discriminate|].
    apply Z.eqb_neq in E. inv G. simpl. repeat split; lia.
  - intros [Hpos [Hn He]].
    destruct (count_in_lane (fun _ => true) lane dets =? 0) eqn:E.
    + apply Z.eqb_eq in E. lia.
    + exists (lane, mkCounts n e). split; [reflexivity|].
      apply (in_dict_get crop_pipeline); [exact Hnd|]. rewrite G. subst. reflexivity.
Qed.

End PipelineFacts.

Lemma update_signal_ok env input_data srv :
  server_ok srv -> server_in_range srv ->
  input_data <> [] -> readings_in_range input_data ->
  exists output srv',
    update_signal env input_data srv = (Ok output, srv') /\ server_ok srv'.
Proof.
  intros Hok Hsr Hne Hrr.
  assert (G : forall c, wf c -> readings_cover c input_data ->
    waits_in_range c -> flow_in_range c ->
    update_signal env input_data srv =
      (fst (update env input_data c),
       mkServer (Some (snd (update env input_data c))) (lane_ids c)) ->
    exists output srv',
      update_signal env input_data srv = (Ok output, srv') /\ server_ok srv').
  { intros c Hwf Hcov Hwr Hfr E. rewrite E.
    destruct (@update_ok env input_data c Hwf Hcov Hrr Hwr Hfr)
      as [o [c' [Hup Hwf']]].
    rewrite Hup. simpl. exists o, (mkServer (Some c') (lane_ids c)).
    split; [reflexivity|]. unfold server_ok. simpl. split; [exact Hwf'|].
    symmetry. apply (@update_untouched _ _ _ _ _ Hup). }
  assert (Hinc : map lane_id input_data <> []).
  { destruct input_data; [congruence|discriminate]. }
  destruct (register_in_range (map lane_id input_data)) as [Hrw Hrf].
  assert (Hreg : controller srv = None \/
                 set_neq (map lane_id input_data) (current_lanes srv) = true ->
    exists output srv',
      update_signal env input_data srv = (Ok output, srv') /\ server_ok srv').
  { intros E. apply (G (register (map lane_id input_data))); auto.
    - now apply register_wf.
    - intros k. reflexivity.
    - now apply update_signal_fresh. }
  unfold server_ok in Hok. unfold server_in_range in Hsr.
  destruct (controller srv) as [c|] eqn:Ec.
  - destruct Hok as [Hwf Hcur]. destruct Hsr as [Hcw Hcf].
    destruct (set_neq (map lane_id input_data) (current_lanes srv)) eqn:Es.
    + apply Hreg. now right.
    + apply (G c Hwf); auto.
      * intros k. rewrite <- Hcur. now apply set_neq_false.
      * rewrite <- Hcur. now apply update_signal_kept.
  - apply Hreg. now left.
Qed.

(** The counts of a payload convert to float when the number of its
    detections does. *)
Lemma aggregate_counts_in_range classify crop detections :
  in_float_range (Z.of_nat (length detections)) = true ->
  readings_in_range (ModelApi.aggregate_counts classify crop detections).
Proof.
  intros Hlen [lane n e] Hd. apply aggregate_counts_in in Hd.
  destruct Hd as [_ [Hn He]]. simpl.
  assert (B : forall p, 0 <= ModelApi.count_in_lane p lane detections
                        <= Z.of_nat (length detections)).
  { intros p. unfold ModelApi.count_in_lane. split; [lia|].
    apply Nat2Z.inj_le, filter_length_le. }
  unfold in_float_range in *. apply Z.ltb_lt in Hlen. rewrite !Z.ltb_lt.
  pose proof (B (fun d => negb (ModelApi.counts_as_emergency classify crop d))).
  pose proof (B (ModelApi.counts_as_emergency classify crop)).
  subst n e. lia.
Qed.

(** The two services composed. For any classifier and image pipeline, a
    payload in which some detection carries a lane id is answered, by a
    traffic service that holds nothing or a well-formed controller within
    the float range, with a report: [predict_and_update] replies with the
    counts, the report and the warning (present exactly when a model failed
    to load). The counts name the lanes of the detections in order of first
    appearance, each once, so the controller is never sent a repeated lane
    id; and the report has an entry for exactly these lanes. The number of
    detections is taken within the float range, as every list a program
    holds is. *)
Theorem predict_and_update_replies env srv load_errors classify crop detections :
  server_ok srv -> server_in_range srv ->
  detection_lanes detections <> [] ->
  in_float_range (Z.of_nat (length detections)) = true ->
  let lane_input := ModelApi.aggregate_counts classify crop detections in
  exists output srv',
    update_signal env lane_input srv = (Ok output, srv') /\ server_ok srv' /\
    @ModelApi.predict_and_update Report load_errors classify crop
      (traffic_service env srv) detections
    = ModelApi.Replied
        (ModelApi.mkResponse lane_input output (warning_of load_errors)) /\
    (warning_of load_errors = None <-> load_errors = []) /\
    map lane_id lane_input = first_occurrences [] (detection_lanes detections) /\
    NoDup (map lane_id lane_input) /\
    (forall k, Dict.get k output <> None <-> In k (detection_lanes detections)).
Proof.
  intros Hok Hsr Hne Hlen lane_input.
  assert (Hl : map lane_id lane_input
               = first_occurrences [] (detection_lanes detections)).
  { apply aggregate_counts_lanes. }
  assert (Hrr : readings_in_range lane_input).
  { now apply aggregate_counts_in_range. }
  assert (Hin : lane_input <> []).
  { intros E. rewrite E in Hl. simpl in Hl.
    destruct (detection_lanes detections) as [|x l]; [congruence|].
    simpl in Hl. discriminate. }
  destruct (@update_signal_ok env lane_input srv Hok Hsr Hin Hrr)
    as [output [srv' [Hup Hok']]].
  exists output, srv'. split; [exact Hup|split; [exact Hok'|]].
  split; [|split; [|split; [exact Hl|split]]].
  - unfold ModelApi.predict_and_update, traffic_service. fold lane_input.
    rewrite Hup. reflexivity.
  - unfold warning_of. destruct load_errors; split; congruence.
  - unfold lane_input, ModelApi.aggregate_counts. rewrite map_map. simpl.
    apply fold_step_keys. constructor.
  - destruct (@update_signal_ok_inv _ _ _ _ _ Hok Hup)
      as [c [c' [Hwf [Hcov [Hu [Hwf' ->]]]]]].
    destruct (update_inv _ _ _ Hu) as [data [chosen [gt Hsteps]]].
    destruct (update_report Hsteps) as [_ [_ [_ [Hrep Hnone]]]].
    unfold readings_cover in Hcov.
    intros k. rewrite <- first_occurrences_iff, <- Hl, Hcov. split.
    + intros Hk. destruct (in_dec string_dec k (lane_ids c)) as [Hi|Hn]; auto.
      elim Hk. now apply Hnone.
    + intros Hk. destruct (Hrep k Hk) as [l [_ Ho]]. congruence.
Qed.

Lemma predict_and_update_replies_witness :
  let lane_input :=
    ModelApi.aggregate_counts no_classifier no_pipeline sample_detections in
  exists output srv',
    update_signal sample_env lane_input server0 = (Ok output, srv') /\
    server_ok srv' /\
    @ModelApi.predict_and_update Report ["classifier load"] no_classifier no_pipeline
      (traffic_service sample_env server0) sample_detections
    = ModelApi.Replied
        (ModelApi.mkResponse lane_input output (warning_of ["classifier load"])) /\
    (warning_of ["classifier load"] = None <-> ["classifier load"] = []) /\
    map lane_id lane_input
      = first_occurrences [] (detection_lanes sample_detections) /\
    NoDup (map lane_id lane_input) /\
    (forall k, Dict.get k output <> None <-> In k (detection_lanes sample_detections)).
Proof.
  apply (@predict_and_update_replies sample_env server0 ["classifier load"]
           no_classifier no_pipeline sample_detections).
  - exact I.
  - exact I.
  - discriminate.
  - reflexivity.
Defined.

(** A payload in which no detection carries a lane id gives empty counts;
    at the endpoint, where every detection is validated to carry one, that
    is the payload without detections. The traffic service fails on
    them: its handler raises [ValueError] and is left with a controller
    without lanes, the service replies with status 500, [raise_for_status]
    raises [HTTPError], and [predict_and_update] ends in the 502 error that
    carries that error and the empty counts. *)
Theorem predict_and_update_without_lanes env srv load_errors classify crop detections :
  server_ok srv -> detection_lanes detections = [] ->
  ModelApi.aggregate_counts classify crop detections = [] /\
  update_signal env [] srv = (Raise ValueError, emptied_server) /\
  @ModelApi.predict_and_update Report load_errors classify crop
    (traffic_service env srv) detections
  = ModelApi.BadGateway (OtherError "HTTPError") [].
Proof.
  intros Hok Hnone.
  assert (Hl : ModelApi.aggregate_counts classify crop detections = []).
  { apply map_eq_nil with (f := lane_id).
    rewrite aggregate_counts_lanes, Hnone. reflexivity. }
  split; [exact Hl|]. split; [now apply update_signal_empty|].
  unfold ModelApi.predict_and_update, traffic_service.
  rewrite Hl, update_signal_empty by assumption. reflexivity.
Qed.

Lemma predict_and_update_without_lanes_witness :
  ModelApi.aggregate_counts no_classifier no_pipeline [] = [] /\
  update_signal sample_env [] two_lane_server = (Raise ValueError, emptied_server) /\
  @ModelApi.predict_and_update Report [] no_classifier no_pipeline
    (traffic_service sample_env two_lane_server) []
  = ModelApi.BadGateway (OtherError "HTTPError") [].
Proof.
  apply (@predict_and_update_without_lanes sample_env two_lane_server []
           no_classifier no_pipeline []).
  - split; [apply register_wf; discriminate | reflexivity].
  - reflexivity.
Defined.

(** ** Without a loaded classifier *)

Lemma count_in_lane_ext p q lane dets :
  (forall d, p d = q d) ->
  ModelApi.count_in_lane p lane dets = ModelApi.count_in_lane q lane dets.
Proof.
  intros H. unfold ModelApi.count_in_lane. do 2 f_equal.
  apply filter_ext. intros d. now rewrite H.
Qed.

Lemma unloaded_counts_as_emergency Pred (str_of_pred : Pred -> string)
    label_encoder crop d :
  ModelApi.counts_as_emergency
    (@ModelApi.classify_from_embedding Pred str_of_pred label_encoder None) crop d
  = labelled_emergency d.
Proof.
  unfold ModelApi.counts_as_emergency, ModelApi.label_of, labelled_emergency.
  destruct (ModelApi.pred_label d) as [l|]; simpl.
  - destruct (String.eqb l "") eqn:E; simpl; [|now rewrite E].
    destruct (ModelApi.embedding d); [reflexivity|].
    destruct (ModelApi.crop_base64 d) as [c|]; [|reflexivity].
    destruct (negb (String.eqb c "")); [|reflexivity].
    destruct (crop c); reflexivity.
  - destruct (ModelApi.embedding d); [reflexivity|].
    destruct (ModelApi.crop_base64 d) as [c|]; [|reflexivity].
    destruct (negb (String.eqb c "")); [|reflexivity].
    destruct (crop c); reflexivity.
Qed.

(** When [vehicle_classifier.pkl] could not be loaded, the service still
    counts: [classify_from_embedding] raises on every embedding, whatever
    the label encoder, and [aggregate_counts] falls back on the labels the
    client sent. A lane's emergency count is the number of its detections
    whose own [pred_label] names an emergency vehicle, its normal count the
    number of the others; embeddings and crops play no part. *)
Theorem unloaded_classifier_counts_labels_only Pred (str_of_pred : Pred -> string)
    label_encoder crop detections :
  let classify :=
    @ModelApi.classify_from_embedding Pred str_of_pred label_encoder None in
  let output := ModelApi.aggregate_counts classify crop detections in
  (forall emb, classify emb = Raise (OtherError "RuntimeError")) /\
  (forall lane n e,
     In (mkReading lane n e) output <->
     0 < ModelApi.count_in_lane (fun _ => true) lane detections /\
     n = ModelApi.count_in_lane (fun d => negb (labelled_emergency d)) lane detections /\
     e = ModelApi.count_in_lane labelled_emergency lane detections).
Proof.
  intros classify output. split; [reflexivity|].
  intros lane n e. unfold output. rewrite aggregate_counts_in.
  rewrite (@count_in_lane_ext
             (fun d => negb (ModelApi.counts_as_emergency classify crop d))
             (fun d => negb (labelled_emergency d)))
    by (intros d; unfold classify; now rewrite unloaded_counts_as_emergency).
  rewrite (@count_in_lane_ext (ModelApi.counts_as_emergency classify crop)
             labelled_emergency)
    by (intros d; unfold classify; apply unloaded_counts_as_emergency).
  reflexivity.
Qed.

(** ** Which labels name an emergency vehicle *)

Lemma prefix_app x : forall s,
  String.prefix x s = true <-> exists post, s = (x ++ post)%string.
Proof.
  induction x as [|a x IH]; intros s; simpl.
  - split; [intros _; now exists s | intros _; now destruct s].
  - destruct s as [|b s].
    + split; [discriminate | intros [post H]; discriminate].
    + simpl. destruct (ascii_dec a b) as [->|Hne].
      * rewrite IH. split; intros [post H]; exists post; [now rewrite H | now inv H].
      * split; [discriminate|]. intros [post H]. inv H. congruence.
Qed.

Lemma contains_eq x s :
  ModelApi.contains x s =
  String.prefix x s ||
  match s with
  | EmptyString => false
  | String _ s' => ModelApi.contains x s'
  end.
Proof. destruct s; reflexivity. Qed.

Lemma contains_spec x : forall s,
  ModelApi.contains x s = true <-> exists pre post, s = (pre ++ x ++ post)%string.
Proof.
  intros s. split.
  - induction s as [|c s IH]; rewrite contains_eq, orb_true_iff.
    + intros [H|H]; [|discriminate].
      apply prefix_app in H. destruct H as [post H]. now exists EmptyString, post.
    + intros [H|H].
      * apply prefix_app in H. destruct H as [post H]. now exists EmptyString, post.
      * destruct (IH H) as [pre [post E]]. exists (String c pre), post.
        simpl. now rewrite E.
  - intros [pre [post E]]. revert s E.
    induction pre as [|c pre IH]; intros s E; rewrite contains_eq, orb_true_iff.
    + left. apply prefix_app. now exists post.
    + right. simpl in E. subst s. now apply IH.
Qed.

Lemma lower_ascii_idem c :
  ModelApi.lower_ascii (ModelApi.lower_ascii c) = ModelApi.lower_ascii c.
Proof. destruct c as [[] [] [] [] [] [] [] []]; reflexivity. Qed.

Lemma lower_idem s : ModelApi.lower (ModelApi.lower s) = ModelApi.lower s.
Proof.
  induction s as [|c s IH]; simpl; [reflexivity|].
  now rewrite lower_ascii_idem, IH.
Qed.

Lemma lower_app a b :
  ModelApi.lower (a ++ b) = (ModelApi.lower a ++ ModelApi.lower b)%string.
Proof.
  induction a as [|c a IH]; simpl; [reflexivity|]. now rewrite IH.
Qed.

(** A label names an emergency vehicle exactly when its lower-case form
    contains one of the words ambulance, emergency, police and fire, at any
    position. So the test ignores the letter case of the label, and any
    label that contains one of the four words written in any mix of cases,
    inside a longer word included, counts as an emergency vehicle. *)
Theorem is_emergency_label_spec label :
  (ModelApi.is_emergency_label label = true <->
   exists w pre post,
     In w ModelApi.emergency_words /\
     ModelApi.lower label = (pre ++ w ++ post)%string) /\
  ModelApi.is_emergency_label (ModelApi.lower label)
    = ModelApi.is_emergency_label label /\
  (forall w w' pre post,
     In w ModelApi.emergency_words -> ModelApi.lower w' = w ->
     label = (pre ++ w' ++ post)%string ->
     ModelApi.is_emergency_label label = true).
Proof.
  assert (S : forall l,
    ModelApi.is_emergency_label l = true <->
    exists w pre post,
      In w ModelApi.emergency_words /\
      ModelApi.lower l = (pre ++ w ++ post)%string).
  { intros l. unfold ModelApi.is_emergency_label. rewrite existsb_exists. split.
    - intros [w [Hw Hc]]. apply contains_spec in Hc.
      destruct Hc as [pre [post E]]. now exists w, pre, post.
    - intros [w [pre [post [Hw E]]]]. exists w. split; [exact Hw|].
      apply contains_spec. now exists pre, post. }
  split; [apply S|split].
  - unfold ModelApi.is_emergency_label. now rewrite lower_idem.
  - intros w w' pre post Hw Hl E. apply S.
    exists w, (ModelApi.lower pre), (ModelApi.lower post). split; [exact Hw|].
    now rewrite E, !lower_app, Hl.
Qed.

(** ** The wait counters in every state a program can reach *)

Lemma keeps_waits_refl s : keeps_waits s s.
Proof. unfold keeps_waits. auto. Qed.

Lemma keeps_waits_trans s1 s2 s3 :
  keeps_waits s1 s2 -> keeps_waits s2 s3 -> keeps_waits s1 s3.
Proof. unfold keeps_waits. auto. Qed.

Lemma set_lane_field_keeps_waits lane f :
  (forall l, 0 <= wait l -> 0 <= wait (f l)) ->
  keeps keeps_waits (set_lane_field lane f).
Proof.
  intros Hf s r s' H. unfold set_lane_field in H.
  destruct (Dict.get lane (lanes s)) as [l|] eqn:El; inv H.
  - intros Hs k l'. simpl. rewrite get_set.
    destruct (String.eqb k lane) eqn:E.
    + intros H. inv H. apply Hf. eapply Hs. exact El.
    + apply Hs.
  - apply keeps_waits_refl.
Qed.

Lemma choose_keeps_waits env data : keeps keeps_waits (choose env data).
Proof.
  intros s r s' H. apply choose_frame in H. rewrite H.
  unfold keeps_waits, waits_nonneg. simpl. auto.
Qed.

Lemma modify_keeps_waits f :
  (forall s, lanes (f s) = lanes s) -> keeps keeps_waits (modify f).
Proof.
  intros Hf s r s' H. unfold modify in H. inv H.
  unfold keeps_waits, waits_nonneg. now rewrite Hf.
Qed.

Ltac waits_step :=
  first
    [ apply keeps_lift; apply keeps_waits_refl
    | apply keeps_gets; apply keeps_waits_refl
    | apply choose_keeps_waits
    | apply set_lane_field_keeps_waits; intros; simpl; lia
    | apply modify_keeps_waits; intros; reflexivity
    | match goal with
      | |- keeps _ (if ?b then _ else _) => destruct b
      end
    | apply keeps_for_each;
      [apply keeps_waits_refl | apply keeps_waits_trans | intros]
    | apply keeps_bind; [apply keeps_waits_trans | | intros] ].

Lemma update_keeps_waits env lanes_data : keeps keeps_waits (update env lanes_data).
Proof. unfold update. repeat waits_step. Qed.

(** In every state a program can reach, after calls that returned and
    calls that raised alike, every stored wait counter is at least 0: a
    counter starts at 0 and is only ever reset to 0 or increased by 1. *)
Theorem reachable_waits_nonnegative s :
  reachable s -> forall k w, wait_of s k = Some w -> 0 <= w.
Proof.
  intros H.
  assert (G : waits_nonneg s).
  { induction H as [N yt ming maxg wb sl cr dbg | incoming | env rd s r s' Hr IH Hup].
    - intros k l H. simpl in H. rewrite fresh_lanes_get in H.
      destruct (str_in k _); inv H. simpl. lia.
    - intros k l H. simpl in H. rewrite fresh_lanes_get in H.
      destruct (str_in k _); inv H. simpl. lia.
    - exact (@update_keeps_waits env rd s r s' Hup IH). }
  intros k w Hw. unfold wait_of in Hw.
  destruct (Dict.get k (lanes s)) as [l|] eqn:E; [|discriminate].
  injection Hw as <-. eapply G. exact E.
Qed.

Lemma reachable_waits_nonnegative_witness :
  let s := snd (update sample_env [mkReading "Lane_1" 0 1] (init_default 4)) in
  wait_of s "Lane_2" = Some 1 /\
  forall k w, wait_of s k = Some w -> 0 <= w.
Proof.
  intros s. split; [vm_compute; reflexivity|].
  apply (@reachable_waits_nonnegative s).
  eapply reach_update; [apply reach_init|].
  unfold s. apply surjective_pairing.
Defined.
